(** * OllamaUI: record store, inference-stream decoder and chat relay

    A shallow embedding of the server side of the chat application
    (the in-memory record store [MemStorage], the NDJSON decoder
    [OllamaClient.streamChat], the [POST /api/conversations/:id/chat]
    handler) and of the client's title derivation, followed by the
    properties the specification states about them.

    Conventions of the embedding:
    - a JavaScript string is the list of its UTF-16 code units;
    - a [Date] is its [getTime()] value, an integer number of milliseconds;
    - [randomUUID()] and [new Date()] are inputs of the operation that
      calls them (the environment chooses the identifier and the clock);
    - a [Map] is the list of its entries in insertion order;
    - an async generator is the finite trace of what it does: the values
      it yields, ended by a normal return or by a thrown error. *)

From Stdlib Require Import Strings.String Strings.Ascii.
From Stdlib Require Import Numbers.DecimalString.
From Stdlib Require Import Bool ZArith NArith Lia.
From Stdlib Require Import Sorting.Sorted Sorting.Permutation.
From Stdlib Require Import List.
Import ListNotations.

Set Implicit Arguments.
Set Warnings "-register-all".

(** ** JavaScript strings *)

Definition code_unit := N.
Definition jsstring := list code_unit.

(** [js "abc"] is the JavaScript string literal ['abc']. *)
Definition js (s : string) : jsstring :=
  map N_of_ascii (list_ascii_of_string s).

(** [a === b] on strings. *)
Fixpoint str_eqb (a b : jsstring) : bool :=
  match a, b with
  | [], [] => true
  | x :: a', y :: b' => N.eqb x y && str_eqb a' b'
  | _, _ => false
  end.

(** [s.length] *)
Definition js_length (s : jsstring) : Z := Z.of_nat (List.length s).

(** [s.slice(0, n)] for a non-negative literal [n]. *)
Definition slice0 (n : nat) (s : jsstring) : jsstring := firstn n s.

(** The code units that [String.prototype.trim] strips: ECMAScript
    WhiteSpace and LineTerminator. *)
Definition is_js_space (c : code_unit) : bool :=
  ((9 <=? c) && (c <=? 13) || (c =? 32) || (c =? 160) || (c =? 5760)
   || (8192 <=? c) && (c <=? 8202) || (c =? 8232) || (c =? 8233)
   || (c =? 8239) || (c =? 8287) || (c =? 12288) || (c =? 65279))%N.

Fixpoint trimStart (s : jsstring) : jsstring :=
  match s with
  | c :: r => if is_js_space c then trimStart r else s
  | [] => []
  end.

Definition trimEnd (s : jsstring) : jsstring := rev (trimStart (rev s)).

(** [s.trim()] *)
Definition trim (s : jsstring) : jsstring := trimEnd (trimStart s).

(** Truthiness of a string: the empty string is falsy. *)
Definition str_truthy (s : jsstring) : bool :=
  match s with [] => false | _ :: _ => true end.

(** ** JavaScript [Map]: entries in insertion order *)

Module JsMap.
Section Defs.
Variable V : Type.

Definition t := list (jsstring * V).

Definition empty : t := [].

Definition keys (m : t) : list jsstring := map fst m.

(** [Array.from(m.values())] *)
Definition values (m : t) : list V := map snd m.

Fixpoint get (k : jsstring) (m : t) : option V :=
  match m with
  | [] => None
  | (k', v) :: r => if str_eqb k' k then Some v else get k r
  end.

Definition has (k : jsstring) (m : t) : bool :=
  match get k m with Some _ => true | None => false end.

(** [m.set(k, v)]: an existing key keeps its place, a new one goes last. *)
Fixpoint set (k : jsstring) (v : V) (m : t) : t :=
  match m with
  | [] => [(k, v)]
  | (k', v') :: r =>
      if str_eqb k' k then (k, v) :: r else (k', v') :: set k v r
  end.

Definition remove (k : jsstring) (m : t) : t :=
  filter (fun e => negb (str_eqb (fst e) k)) m.

(** [m.delete(k)]: whether the key was there, and the map without it. *)
Definition delete (k : jsstring) (m : t) : bool * t :=
  (has k m, remove k m).

(** What the [Map] guarantees of its entries: no key twice. *)
Definition wf (m : t) : Prop := NoDup (keys m).
End Defs.
End JsMap.

Arguments JsMap.empty {V}.

(** ** [Array.prototype.sort] with a comparator

    The sort is stable (ECMAScript 2019); an element goes before another
    when the comparator's result is not positive and it came first. *)

Section Sort.
Variable A : Type.
Variable cmp : A -> A -> Z.

Fixpoint sort_insert (x : A) (l : list A) : list A :=
  match l with
  | [] => [x]
  | y :: r => if (cmp x y <=? 0)%Z then x :: l else y :: sort_insert x r
  end.

Definition js_sort (l : list A) : list A := fold_right sort_insert [] l.
End Sort.

(** ** The entities of [shared/schema.ts] *)

Inductive Role := user | assistant.

Module Conversation.
Record t := mk
  { id : jsstring; title : jsstring; model : jsstring;
    createdAt : Z; updatedAt : Z }.
End Conversation.

Module InsertConversation.
Record t := mk { title : jsstring; model : jsstring }.
End InsertConversation.

(** [Partial<Conversation>] with a value for every property it has: a
    property is missing ([None]) or present with a value of its type. The
    type also admits a property present with [undefined];
    [ConversationUpdate] below has those too. *)
Module PartialConversation.
Record t := mk
  { id : option jsstring; title : option jsstring; model : option jsstring;
    createdAt : option Z; updatedAt : option Z }.
End PartialConversation.

Module Message.
Record t := mk
  { id : jsstring; conversationId : jsstring; role : Role;
    content : jsstring; timestamp : Z }.
End Message.

Module InsertMessage.
Record t := mk
  { conversationId : jsstring; role : Role; content : jsstring }.
End InsertMessage.

Module OllamaModel.
Record t := mk
  { id : jsstring; name : jsstring; displayName : jsstring;
    size : option jsstring; isAvailable : bool; lastUpdated : Z }.
End OllamaModel.

(** An optional property of an insert object: left out of the object, or
    present with a value. For [size] the value [None] is [null] or
    [undefined]. *)
Inductive prop (A : Type) := Missing | Present (v : A).
Arguments Missing {A}.

Module InsertOllamaModel.
Record t := mk
  { name : jsstring; displayName : jsstring;
    size : prop (option jsstring); isAvailable : prop bool }.
End InsertOllamaModel.

(** ** [MemStorage] *)

Record MemStorage := mkStorage
  { conversations : JsMap.t Conversation.t;
    messages : JsMap.t Message.t;
    models : JsMap.t OllamaModel.t }.

Definition newStorage : MemStorage :=
  mkStorage JsMap.empty JsMap.empty JsMap.empty.

(** The value an operation takes from [randomUUID()] and [new Date()]. *)
Record Env := mkEnv { uuid : jsstring; now : Z }.

Definition getConversations (s : MemStorage) : list Conversation.t :=
  js_sort (fun a b => (Conversation.updatedAt b - Conversation.updatedAt a)%Z)
          (JsMap.values (conversations s)).

Definition getConversation (id : jsstring) (s : MemStorage)
  : option Conversation.t :=
  JsMap.get id (conversations s).

Definition createConversation (e : Env) (ins : InsertConversation.t)
    (s : MemStorage) : MemStorage * Conversation.t :=
  let conversation :=
    Conversation.mk (uuid e) (InsertConversation.title ins)
      (InsertConversation.model ins) (now e) (now e) in
  (mkStorage (JsMap.set (uuid e) conversation (conversations s))
     (messages s) (models s),
   conversation).

Definition or_else {A} (o : option A) (d : A) : A :=
  match o with Some a => a | None => d end.

Definition updateConversation (e : Env) (id : jsstring)
    (updates : PartialConversation.t) (s : MemStorage)
  : MemStorage * option Conversation.t :=
  match JsMap.get id (conversations s) with
  | None => (s, None)
  | Some conversation =>
      let updated :=
        Conversation.mk
          (or_else (PartialConversation.id updates) (Conversation.id conversation))
          (or_else (PartialConversation.title updates) (Conversation.title conversation))
          (or_else (PartialConversation.model updates) (Conversation.model conversation))
          (or_else (PartialConversation.createdAt updates)
                   (Conversation.createdAt conversation))
          (now e) in
      (mkStorage (JsMap.set id updated (conversations s))
         (messages s) (models s),
       Some updated)
  end.

(** [Partial<Conversation>] in full: a property is left out, or present
    with a value, which may be [undefined] ([Present None]). *)
Module ConversationUpdate.
Record t := mk
  { id : prop (option jsstring); title : prop (option jsstring);
    model : prop (option jsstring); createdAt : prop (option Z);
    updatedAt : prop (option Z) }.
End ConversationUpdate.

(** The object [{...conversation, ...updates, updatedAt: new Date()}]: a
    property other than [updatedAt] may hold [undefined] ([None]). *)
Module UpdatedConversation.
Record t := mk
  { id : option jsstring; title : option jsstring; model : option jsstring;
    createdAt : option Z; updatedAt : Z }.
End UpdatedConversation.

(** One property of the spread [{...conversation, ...updates}]: a property
    of [updates] that is present, be it with [undefined], goes over the
    stored one. *)
Definition spread_over {A} (update : prop (option A)) (stored : A)
  : option A :=
  match update with
  | Missing => Some stored
  | Present v => v
  end.

(** The object [updated] that [updateConversation] builds from the stored
    [conversation]. *)
Definition updateConversation_updated (conversation : Conversation.t)
    (updates : ConversationUpdate.t) (now : Z) : UpdatedConversation.t :=
  UpdatedConversation.mk
    (spread_over (ConversationUpdate.id updates) (Conversation.id conversation))
    (spread_over (ConversationUpdate.title updates)
                 (Conversation.title conversation))
    (spread_over (ConversationUpdate.model updates)
                 (Conversation.model conversation))
    (spread_over (ConversationUpdate.createdAt updates)
                 (Conversation.createdAt conversation))
    now.

(** A conversation as an object without an [undefined] property. *)
Definition as_updated (c : Conversation.t) : UpdatedConversation.t :=
  UpdatedConversation.mk (Some (Conversation.id c))
    (Some (Conversation.title c)) (Some (Conversation.model c))
    (Some (Conversation.createdAt c)) (Conversation.updatedAt c).

(** A property of an update that is not present with [undefined]:
    [Some None] when it is missing, [Some (Some v)] when it has the value
    [v]. *)
Definition defined_prop {A} (p : prop (option A)) : option (option A) :=
  match p with
  | Missing => Some None
  | Present (Some v) => Some (Some v)
  | Present None => None
  end.

(** An update as a [PartialConversation], when none of [id], [title],
    [model] and [createdAt] is present with [undefined]; [None] when one
    is. ([updatedAt] is written over in any case.) *)
Definition defined_update (updates : ConversationUpdate.t)
  : option PartialConversation.t :=
  match defined_prop (ConversationUpdate.id updates),
        defined_prop (ConversationUpdate.title updates),
        defined_prop (ConversationUpdate.model updates),
        defined_prop (ConversationUpdate.createdAt updates) with
  | Some i, Some t, Some m, Some c =>
      Some (PartialConversation.mk i t m c
              (match ConversationUpdate.updatedAt updates with
               | Present v => v
               | Missing => None
               end))
  | _, _, _, _ => None
  end.

Definition deleteConversation (id : jsstring) (s : MemStorage)
  : MemStorage * bool :=
  let (deleted, conversations') := JsMap.delete id (conversations s) in
  if deleted then
    let messagesToDelete :=
      filter (fun msg => str_eqb (Message.conversationId msg) id)
             (JsMap.values (messages s)) in
    let messages' :=
      fold_left (fun acc msg => snd (JsMap.delete (Message.id msg) acc))
                messagesToDelete (messages s) in
    (mkStorage conversations' messages' (models s), true)
  else (mkStorage conversations' (messages s) (models s), false).

Definition getMessages (conversationId : jsstring) (s : MemStorage)
  : list Message.t :=
  js_sort (fun a b => (Message.timestamp a - Message.timestamp b)%Z)
    (filter (fun msg => str_eqb (Message.conversationId msg) conversationId)
            (JsMap.values (messages s))).

Definition createMessage (e : Env) (ins : InsertMessage.t) (s : MemStorage)
  : MemStorage * Message.t :=
  let message :=
    Message.mk (uuid e) (InsertMessage.conversationId ins)
      (InsertMessage.role ins) (InsertMessage.content ins) (now e) in
  (mkStorage (conversations s) (JsMap.set (uuid e) message (messages s))
     (models s),
   message).

Definition deleteMessages (conversationId : jsstring) (s : MemStorage)
  : MemStorage * bool :=
  let messagesToDelete :=
    filter (fun msg => str_eqb (Message.conversationId msg) conversationId)
           (JsMap.values (messages s)) in
  let messages' :=
    fold_left (fun acc msg => snd (JsMap.delete (Message.id msg) acc))
              messagesToDelete (messages s) in
  (mkStorage (conversations s) messages' (models s),
   (0 <? List.length messagesToDelete)%nat).

Definition createOrUpdateModel (e : Env) (ins : InsertOllamaModel.t)
    (s : MemStorage) : MemStorage * OllamaModel.t :=
  let existing :=
    find (fun m => str_eqb (OllamaModel.name m) (InsertOllamaModel.name ins))
         (JsMap.values (models s)) in
  match existing with
  | Some existing =>
      let updated :=
        OllamaModel.mk (OllamaModel.id existing)
          (InsertOllamaModel.name ins)
          (InsertOllamaModel.displayName ins)
          (match InsertOllamaModel.size ins with
           | Missing => OllamaModel.size existing
           | Present v => v
           end)
          (match InsertOllamaModel.isAvailable ins with
           | Missing => OllamaModel.isAvailable existing
           | Present b => b
           end)
          (now e) in
      (mkStorage (conversations s) (messages s)
         (JsMap.set (OllamaModel.id existing) updated (models s)),
       updated)
  | None =>
      let model :=
        OllamaModel.mk (uuid e)
          (InsertOllamaModel.name ins)
          (InsertOllamaModel.displayName ins)
          (match InsertOllamaModel.size ins with
           | Present (Some sz) => if str_truthy sz then Some sz else None
           | _ => None
           end)
          (match InsertOllamaModel.isAvailable ins with
           | Missing => true
           | Present b => b
           end)
          (now e) in
      (mkStorage (conversations s) (messages s)
         (JsMap.set (uuid e) model (models s)),
       model)
  end.

Definition deleteModel (name : jsstring) (s : MemStorage)
  : MemStorage * bool :=
  match find (fun m => str_eqb (OllamaModel.name m) name)
             (JsMap.values (models s)) with
  | Some model =>
      let (deleted, models') := JsMap.delete (OllamaModel.id model) (models s) in
      (mkStorage (conversations s) (messages s) models', deleted)
  | None => (s, false)
  end.

(** ** JSON values and [JSON.parse]

    [JSON.parse] is the ECMAScript built-in; it is modelled here on code
    units as a recursive-descent parser of the JSON grammar (RFC 8259).
    A number keeps its decimal reading; the only thing the decoder asks of
    a number is whether it is zero once rounded to a binary64. *)

Record jsnumber := mkNumber
  { num_neg : bool; num_mant : N; num_exp : Z }.

Inductive json :=
| JNull
| JBool (b : bool)
| JNumber (n : jsnumber)
| JString (s : jsstring)
| JArray (items : list json)
| JObject (fields : list (jsstring * json)).

(** A decimal [mant * 10^exp] rounds to [0] exactly when it is at most
    half the least subnormal, [2^-1075]. *)
Definition num_is_zero (n : jsnumber) : bool :=
  (num_mant n =? 0)%N
  || ((num_exp n <? 0)%Z
      && (Z.of_N (num_mant n) * 2 ^ 1075 <=? 10 ^ (- num_exp n))%Z).

Definition is_json_ws (c : code_unit) : bool :=
  ((c =? 32) || (c =? 9) || (c =? 10) || (c =? 13))%N.

Fixpoint skip_ws (s : jsstring) : jsstring :=
  match s with
  | c :: r => if is_json_ws c then skip_ws r else s
  | [] => []
  end.

Definition is_digit (c : code_unit) : bool := ((48 <=? c) && (c <=? 57))%N.

Definition hex_value (c : code_unit) : option N :=
  if is_digit c then Some (c - 48)%N
  else if ((97 <=? c) && (c <=? 102))%N then Some (c - 87)%N
  else if ((65 <=? c) && (c <=? 70))%N then Some (c - 55)%N
  else None.

Definition hex4 (a b c d : code_unit) : option code_unit :=
  match hex_value a, hex_value b, hex_value c, hex_value d with
  | Some x, Some y, Some z, Some w => Some (((x * 16 + y) * 16 + z) * 16 + w)%N
  | _, _, _, _ => None
  end.

(** The character a one-letter escape stands for. *)
Definition escape_value (c : code_unit) : option code_unit :=
  if (c =? 34)%N then Some 34%N
  else if (c =? 92)%N then Some 92%N
  else if (c =? 47)%N then Some 47%N
  else if (c =? 98)%N then Some 8%N
  else if (c =? 102)%N then Some 12%N
  else if (c =? 110)%N then Some 10%N
  else if (c =? 114)%N then Some 13%N
  else if (c =? 116)%N then Some 9%N
  else None.

(** The rest of a string literal after its opening quote: the string and
    what follows the closing quote. [acc] holds the code units read so
    far, last first. *)
Fixpoint parse_string_body (s acc : jsstring) : option (jsstring * jsstring) :=
  match s with
  | [] => None
  | c :: r =>
      if (c =? 34)%N then Some (rev acc, r)
      else if (c =? 92)%N then
        match r with
        | [] => None
        | e :: r1 =>
            if (e =? 117)%N then
              match r1 with
              | h1 :: h2 :: h3 :: h4 :: r2 =>
                  match hex4 h1 h2 h3 h4 with
                  | Some u => parse_string_body r2 (u :: acc)
                  | None => None
                  end
              | _ => None
              end
            else
              match escape_value e with
              | Some u => parse_string_body r1 (u :: acc)
              | None => None
              end
        end
      else if (c <? 32)%N then None
      else parse_string_body r (c :: acc)
  end.

(** A run of digits: its value after [acc], how many there were, the rest. *)
Fixpoint take_digits (s : jsstring) (acc : N) (count : nat)
  : N * nat * jsstring :=
  match s with
  | c :: r =>
      if is_digit c then take_digits r (acc * 10 + (c - 48))%N (S count)
      else (acc, count, s)
  | [] => (acc, count, [])
  end.

Definition parse_exponent (s : jsstring) : option (Z * jsstring) :=
  match s with
  | c :: r =>
      if ((c =? 101) || (c =? 69))%N then
        let '(sign, r1) :=
          match r with
          | d :: r' =>
              if (d =? 45)%N then ((-1)%Z, r')
              else if (d =? 43)%N then (1%Z, r')
              else (1%Z, r)
          | [] => (1%Z, r)
          end in
        match take_digits r1 0%N 0 with
        | (_, O, _) => None
        | (v, S _, r2) => Some ((sign * Z.of_N v)%Z, r2)
        end
      else Some (0%Z, s)
  | [] => Some (0%Z, [])
  end.

Definition parse_fraction (s : jsstring) (int : N)
  : option (N * nat * jsstring) :=
  match s with
  | c :: r =>
      if (c =? 46)%N then
        match take_digits r int 0 with
        | (_, O, _) => None
        | (v, S k, r1) => Some (v, S k, r1)
        end
      else Some (int, O, s)
  | [] => Some (int, O, [])
  end.

Definition parse_number (s : jsstring) : option (jsnumber * jsstring) :=
  let '(neg, s1) :=
    match s with
    | c :: r => if (c =? 45)%N then (true, r) else (false, s)
    | [] => (false, s)
    end in
  let int :=
    match s1 with
    | c :: r =>
        if (c =? 48)%N then Some (0%N, r)
        else if is_digit c then
          let '(v, _, r1) := take_digits s1 0%N 0 in Some (v, r1)
        else None
    | [] => None
    end in
  match int with
  | None => None
  | Some (i, s2) =>
      match parse_fraction s2 i with
      | None => None
      | Some (m, digits, s3) =>
          match parse_exponent s3 with
          | None => None
          | Some (ex, s4) =>
              Some (mkNumber neg m (ex - Z.of_nat digits), s4)
          end
      end
  end.

(** [s] starts with [prefix]: what comes after it. *)
Fixpoint strip_prefix (prefix s : jsstring) : option jsstring :=
  match prefix, s with
  | [], _ => Some s
  | p :: prefix', c :: r => if (p =? c)%N then strip_prefix prefix' r else None
  | _ :: _, [] => None
  end.

Inductive presult (A : Type) :=
| POk (a : A) (rest : jsstring)
| PSyntaxError
| PFuel.
Arguments PSyntaxError {A}.
Arguments PFuel {A}.

Definition parse_literal (s : jsstring) : presult json :=
  match strip_prefix (js "true") s with
  | Some r => POk (JBool true) r
  | None =>
  match strip_prefix (js "false") s with
  | Some r => POk (JBool false) r
  | None =>
  match strip_prefix (js "null") s with
  | Some r => POk JNull r
  | None =>
  match parse_number s with
  | Some (n, r) => POk (JNumber n) r
  | None => PSyntaxError
  end end end end.

Fixpoint parse_value (fuel : nat) (s : jsstring) : presult json :=
  match fuel with
  | O => PFuel
  | S f =>
      match skip_ws s with
      | [] => PSyntaxError
      | c :: r =>
          if (c =? 123)%N then
            match skip_ws r with
            | [] => PSyntaxError
            | c' :: r' =>
                if (c' =? 125)%N then POk (JObject []) r'
                else parse_members f (c' :: r') []
            end
          else if (c =? 91)%N then
            match skip_ws r with
            | [] => PSyntaxError
            | c' :: r' =>
                if (c' =? 93)%N then POk (JArray []) r'
                else parse_elements f (c' :: r') []
            end
          else if (c =? 34)%N then
            match parse_string_body r [] with
            | Some (str, r') => POk (JString str) r'
            | None => PSyntaxError
            end
          else parse_literal (c :: r)
      end
  end
with parse_elements (fuel : nat) (s : jsstring) (acc : list json)
  : presult json :=
  match fuel with
  | O => PFuel
  | S f =>
      match parse_value f s with
      | POk v r =>
          match skip_ws r with
          | [] => PSyntaxError
          | c :: r' =>
              if (c =? 44)%N then parse_elements f r' (v :: acc)
              else if (c =? 93)%N then POk (JArray (rev (v :: acc))) r'
              else PSyntaxError
          end
      | PSyntaxError => PSyntaxError
      | PFuel => PFuel
      end
  end
with parse_members (fuel : nat) (s : jsstring) (acc : list (jsstring * json))
  : presult json :=
  match fuel with
  | O => PFuel
  | S f =>
      match skip_ws s with
      | [] => PSyntaxError
      | q :: r =>
          if (q =? 34)%N then
            match parse_string_body r [] with
            | None => PSyntaxError
            | Some (key, r1) =>
                match skip_ws r1 with
                | [] => PSyntaxError
                | c :: r2 =>
                    if (c =? 58)%N then
                      match parse_value f r2 with
                      | POk v r3 =>
                          match skip_ws r3 with
                          | [] => PSyntaxError
                          | d :: r4 =>
                              if (d =? 44)%N
                              then parse_members f r4 ((key, v) :: acc)
                              else if (d =? 125)%N
                              then POk (JObject (rev ((key, v) :: acc))) r4
                              else PSyntaxError
                          end
                      | PSyntaxError => PSyntaxError
                      | PFuel => PFuel
                      end
                    else PSyntaxError
                end
            end
          else PSyntaxError
      end
  end.

(** Fuel that no text can use up: twice its length and one. *)
Definition parse_fuel (s : jsstring) : nat := S (2 * List.length s).

(** [JSON.parse(text)]: the value, or [None] for a [SyntaxError]. *)
Definition JSON_parse (text : jsstring) : option json :=
  match parse_value (parse_fuel text) text with
  | POk v rest =>
      match skip_ws rest with
      | [] => Some v
      | _ :: _ => None
      end
  | _ => None
  end.

(** JSON text written with ['] where the text has a double quote. *)
Definition json_text (s : string) : jsstring :=
  map (fun c => if (c =? 39)%N then 34%N else c) (js s).

(** ** Reading a parsed frame

    [get_prop v k] is [v.k] for a value [v] other than [null] and for the
    property names the decoder reads ([message], [content], [done]), none
    of which a string, an array or a prototype defines; [None] is
    [undefined]. A key written twice in an object keeps its last value. *)

Fixpoint lookup_last (k : jsstring) (fields : list (jsstring * json))
  : option json :=
  match fields with
  | [] => None
  | (k', v) :: r =>
      match lookup_last k r with
      | Some v' => Some v'
      | None => if str_eqb k' k then Some v else None
      end
  end.

Definition get_prop (v : json) (k : jsstring) : option json :=
  match v with
  | JObject fields => lookup_last k fields
  | _ => None
  end.

(** Truthiness of a JSON value. *)
Definition truthy (v : json) : bool :=
  match v with
  | JNull => false
  | JBool b => b
  | JNumber n => negb (num_is_zero n)
  | JString s => str_truthy s
  | JArray _ => true
  | JObject _ => true
  end.

Definition opt_truthy (v : option json) : bool :=
  match v with Some v => truthy v | None => false end.

(** [data.message?.content] *)
Definition message_content (data : json) : option json :=
  match get_prop data (js "message") with
  | None => None
  | Some JNull => None
  | Some message => get_prop message (js "content")
  end.

(** ** Async generators as traces *)

Inductive gen (A : Type) :=
| GYield (v : A) (k : gen A)
| GReturn
| GThrow (e : jsstring).
Arguments GReturn {A}.
Arguments GThrow {A} e.

(** The values a generator yields, in order. *)
Fixpoint yields {A} (g : gen A) : list A :=
  match g with
  | GYield v k => v :: yields k
  | GReturn => []
  | GThrow _ => []
  end.

Inductive completion := Returned | Threw (e : jsstring).

(** How a generator ends. *)
Fixpoint outcome {A} (g : gen A) : completion :=
  match g with
  | GYield _ k => outcome k
  | GReturn => Returned
  | GThrow e => Threw e
  end.

(** The generator that yields [l] and then ends as [k] does. *)
Fixpoint gen_of {A} (l : list A) (k : gen A) : gen A :=
  match l with
  | [] => k
  | v :: r => GYield v (gen_of r k)
  end.

(** ** [OllamaClient.streamChat] *)

(** [chunk.split('\n')] *)
Fixpoint split_nl (s : jsstring) : list jsstring :=
  match s with
  | [] => [[]]
  | c :: r =>
      if (c =? 10)%N then [] :: split_nl r
      else
        match split_nl r with
        | h :: t => (c :: h) :: t
        | [] => [[c]]
        end
  end.

(** [chunk.split('\n').filter(line => line.trim())] *)
Definition chunk_lines (chunk : jsstring) : list jsstring :=
  filter (fun line => str_truthy (trim line)) (split_nl chunk).

(** The [for (const line of lines)] loop; [k] is what the generator does
    once the lines are used up (the next turn of the [while] loop). A line
    that [JSON.parse] rejects, or that parses to [null] (reading
    [data.message] then throws), lands in the empty [catch]. *)
Fixpoint decode_lines (lines : list jsstring) (k : gen json) : gen json :=
  match lines with
  | [] => k
  | line :: rest =>
      match JSON_parse line with
      | None => decode_lines rest k
      | Some JNull => decode_lines rest k
      | Some data =>
          let after :=
            if opt_truthy (get_prop data (js "done")) then GReturn
            else decode_lines rest k in
          match message_content data with
          | Some c => if truthy c then GYield c after else after
          | None => after
          end
      end
  end.

(** What the reader of the response body delivers: decoded chunks, then
    the end of the body or a failed read. *)
Inductive Reads :=
| ReadChunk (chunk : jsstring) (rest : Reads)
| ReadDone
| ReadFail (e : jsstring).

Fixpoint reads_of (chunks : list jsstring) (last : Reads) : Reads :=
  match chunks with
  | [] => last
  | c :: r => ReadChunk c (reads_of r last)
  end.

(** What [fetch] gives: a rejection, or a response with its [ok] flag and
    its body, if it has one. *)
Inductive FetchResult :=
| FetchRejected (e : jsstring)
| Response (ok : bool) (body : option Reads).

(** The [while (true)] loop over [reader.read()]. *)
Fixpoint read_loop (r : Reads) : gen json :=
  match r with
  | ReadChunk chunk rest => decode_lines (chunk_lines chunk) (read_loop rest)
  | ReadDone => GReturn
  | ReadFail e => GThrow e
  end.

Definition streamChat (response : FetchResult) : gen json :=
  match response with
  | FetchRejected e => GThrow e
  | Response false _ => GThrow (js "Failed to start chat")
  | Response true None => GThrow (js "No reader available")
  | Response true (Some body) => read_loop body
  end.

(** ** The chat endpoint, [POST /api/conversations/:id/chat] *)

(** A frame is the object given to [JSON.stringify] and written as
    [data: <json>] and an empty line. *)
Inductive Frame :=
| ContentFrame (content : jsstring) (done : bool)
| ErrorFrame (error : jsstring).

(** What the handler does, in the order it does it. *)
Inductive Effect :=
| WriteHead (status : N)
| Write (frame : Frame)
| Persist (message : Message.t)
| End.

Definition terminal_frame : Frame := ContentFrame [] true.

(** The [for await] loop: the content frames written, and the accumulated
    [assistantMessage] if the stream ends normally, the error if it throws. *)
Fixpoint relay (stream : gen jsstring) (assistantMessage : jsstring)
  : list Effect * (jsstring + jsstring) :=
  match stream with
  | GYield chunk k =>
      let (log, r) := relay k (assistantMessage ++ chunk) in
      (Write (ContentFrame chunk false) :: log, r)
  | GReturn => ([], inl assistantMessage)
  | GThrow e => ([], inr e)
  end.

(** The handler on a store [s]: the store it leaves and what it did.
    [stream] is the generator [ollama.streamChat] returns for the request,
    which was given the messages of the conversation; the handler reads
    them before the stream opens and writes to the store once, after the
    stream has ended, so [s] is the store at the time of that write. The
    request is taken to have a body ([model], [temperature], [max_tokens]),
    as the JSON middleware gives it; the fragments are strings, as the
    [message.content] of the backend's frames is. *)
Definition chat (e : Env) (conversationId : jsstring)
    (stream : gen jsstring) (s : MemStorage) : MemStorage * list Effect :=
  let (writes, r) := relay stream [] in
  match r with
  | inl assistantMessage =>
      let (s', message) :=
        createMessage e
          (InsertMessage.mk conversationId assistant assistantMessage) s in
      (s',
       WriteHead 200 :: writes
         ++ [Persist message; Write terminal_frame; End])
  | inr _ =>
      (s,
       WriteHead 200 :: writes
         ++ [Write (ErrorFrame (js "Failed to generate response")); End])
  end.

(** The frames of a log, in order. *)
Fixpoint frames (log : list Effect) : list Frame :=
  match log with
  | [] => []
  | Write f :: r => f :: frames r
  | _ :: r => frames r
  end.

(** The messages a log persists, in order. *)
Fixpoint persisted (log : list Effect) : list Message.t :=
  match log with
  | [] => []
  | Persist m :: r => m :: persisted r
  | _ :: r => persisted r
  end.

(** The writes of the content frames of a list of fragments. *)
Definition content_writes (fragments : list jsstring) : list Effect :=
  map (fun f => Write (ContentFrame f false)) fragments.

(** A stream of JSON strings as the stream of their texts; [None] when a
    yielded value is not a string. *)
Fixpoint text_stream (g : gen json) : option (gen jsstring) :=
  match g with
  | GYield (JString s) k =>
      match text_stream k with
      | Some k' => Some (GYield s k')
      | None => None
      end
  | GYield _ _ => None
  | GReturn => Some GReturn
  | GThrow e => Some (GThrow e)
  end.

(** ** The client: deriving a conversation title *)

(** The title [startNewConversation] gives ([None] is a call without an
    argument). *)
Definition startNewConversation_title (firstMessage : option jsstring)
  : jsstring :=
  match firstMessage with
  | Some m =>
      if str_truthy m then
        slice0 50 m ++ (if (js_length m >? 50)%Z then js "..." else [])
      else js "New Chat"
  | None => js "New Chat"
  end.

(** An id that the test [!id] lets through: a string that is not empty
    ([None] is [null] or [undefined]). *)
Definition truthy_id (id : option jsstring) : option jsstring :=
  match id with
  | Some i => if str_truthy i then Some i else None
  | None => None
  end.

(** An id that the test [!id] turns away: [null], [undefined] or the
    empty string. *)
Definition no_id (id : option jsstring) : Prop := id = None \/ id = Some [].

(** [handleSubmit] up to the creation of a conversation: the title it asks
    for when the view has no conversation yet; [None] when the input is
    rejected or a conversation is already there. *)
Definition handleSubmit_title (input : jsstring) (isGenerating : bool)
    (conversationId : option jsstring) : option jsstring :=
  if negb (str_truthy (trim input)) || isGenerating then None
  else
    let messageText := trim input in
    match truthy_id conversationId with
    | Some _ => None
    | None => Some (startNewConversation_title (Some messageText))
    end.

(** [handleSubmit] up to the creation of the user message: the
    conversation the message goes to and the text sent as its content;
    [None] when nothing is sent. [newConvId] is what
    [onStartNewConversation] gives when it is asked: the id of the new
    conversation, or [null] when the creation failed ([None]; a promise
    that is rejected ends [handleSubmit] there as well). *)
Definition handleSubmit_message (input : jsstring) (isGenerating : bool)
    (conversationId newConvId : option jsstring)
  : option (jsstring * jsstring) :=
  if negb (str_truthy (trim input)) || isGenerating then None
  else
    let messageText := trim input in
    match truthy_id conversationId with
    | Some activeConversationId => Some (activeConversationId, messageText)
    | None =>
        match truthy_id newConvId with
        | Some activeConversationId =>
            Some (activeConversationId, messageText)
        | None => None
        end
    end.

(** ** The routes that change the store *)

(** [DELETE /api/conversations/:id]: the store left and the status sent. *)
Definition DELETE_conversation (id : jsstring) (s : MemStorage)
  : MemStorage * N :=
  let (s', deleted) := deleteConversation id s in
  (s', if deleted then 204%N else 404%N).

(** [POST /api/conversations/:id/messages] with a body the schema accepts. *)
Definition POST_message (e : Env) (conversationId : jsstring) (role : Role)
    (content : jsstring) (s : MemStorage) : MemStorage * Message.t :=
  createMessage e (InsertMessage.mk conversationId role content) s.

(** A request that reaches the store, with what it carries. A catalog
    sync is one [SyncModel] for each model the backend lists. *)
Inductive Request :=
| CreateConversation (ins : InsertConversation.t)
| DeleteConversation (id : jsstring)
| CreateMessage (conversationId : jsstring) (role : Role) (content : jsstring)
| Chat (conversationId : jsstring) (stream : gen jsstring)
| SyncModel (ins : InsertOllamaModel.t)
| DeleteModel (name : jsstring).

Definition handle (e : Env) (r : Request) (s : MemStorage) : MemStorage :=
  match r with
  | CreateConversation ins => fst (createConversation e ins s)
  | DeleteConversation id => fst (DELETE_conversation id s)
  | CreateMessage c r t => fst (POST_message e c r t s)
  | Chat c stream => fst (chat e c stream s)
  | SyncModel ins => fst (createOrUpdateModel e ins s)
  | DeleteModel name => fst (deleteModel name s)
  end.

(** The stores the server can be in. *)
Inductive reachable : MemStorage -> Prop :=
| reachable_new : reachable newStorage
| reachable_step e r s : reachable s -> reachable (handle e r s).

(** ** The shape of a store

    Every record sits under its own id, no key is there twice, and no two
    models have one name. *)

Definition keyed_by {V} (id : V -> jsstring) (m : JsMap.t V) : Prop :=
  Forall (fun e => fst e = id (snd e)) m.

Record store_wf (s : MemStorage) : Prop := mk_store_wf
  { wf_conversation_keys : JsMap.wf (conversations s);
    wf_conversation_ids : keyed_by Conversation.id (conversations s);
    wf_message_keys : JsMap.wf (messages s);
    wf_message_ids : keyed_by Message.id (messages s);
    wf_model_keys : JsMap.wf (models s);
    wf_model_ids : keyed_by OllamaModel.id (models s);
    wf_model_names : NoDup (map OllamaModel.name (JsMap.values (models s))) }.

(** How many models of the store have the name [n]. *)
Definition models_named (n : jsstring) (s : MemStorage) : nat :=
  List.length
    (filter (fun m => str_eqb (OllamaModel.name m) n)
            (JsMap.values (models s))).

(** ** Lines *)

Definition no_newline (s : jsstring) : Prop := Forall (fun c => c <> 10%N) s.

Definition no_newlineb (s : jsstring) : bool :=
  forallb (fun c => negb (c =? 10)%N) s.

(** ** The body of a reply of the backend

    The backend answers with one JSON text to a line. [content_line line
    fragment] says that [line] is such a frame, with the text [fragment]
    as its [message.content] and without a truthy [done]; [done_line line]
    that it is a frame with a truthy [done] and no content to yield. *)

Definition content_line (line fragment : jsstring) : Prop :=
  no_newline line
  /\ exists data,
       JSON_parse line = Some data
       /\ message_content data = Some (JString fragment)
       /\ opt_truthy (get_prop data (js "done")) = false.


(** A chunk that holds the lines [lines] whole, each with its newline. *)
Definition whole_lines (lines : list jsstring) : jsstring :=
  concat (map (fun line => line ++ [10%N]) lines).




(** ** Sample data *)

Definition env (id : string) (t : Z) : Env := mkEnv (js id) t.

(** Two conversations with a message each, and one model. *)
Definition sample_store : MemStorage :=
  handle (env "o1" 50)
    (SyncModel (InsertOllamaModel.mk (js "llama3") (js "llama3")
                  (Present (Some (js "4.7GB"))) (Present true)))
  (handle (env "m2" 40) (CreateMessage (js "c2") user (js "Hi"))
  (handle (env "m1" 30) (CreateMessage (js "c1") user (js "Hello"))
  (handle (env "c2" 20)
     (CreateConversation (InsertConversation.mk (js "Second") (js "llama3")))
  (handle (env "c1" 10)
     (CreateConversation (InsertConversation.mk (js "First") (js "llama3")))
     newStorage)))).

(** A frame of the backend, its two pieces when a chunk ends after
    [Hel], and a line that is not JSON. *)
Definition sample_frame : jsstring :=
  json_text "{'message':{'role':'assistant','content':'Hello'},'done':false}".

Definition sample_frame_head : jsstring :=
  json_text "{'message':{'role':'assistant','content':'Hel".

Definition sample_frame_tail : jsstring :=
  json_text "lo'},'done':false}".

Definition sample_next_frame : jsstring :=
  json_text "{'message':{'role':'assistant','content':' there'},'done':false}".

Definition sample_garbage : jsstring := json_text "{'message': oops".

(** A prompt of 60 code units. *)
Definition sample_prompt : jsstring :=
  js "Tell me a long story about a verified parser with two twists".

(** The body of a reply in two reads: [Hel], then [lo] and the [done]
    frame; and the body of a reply that breaks off after [Par]. *)
Definition sample_body : Reads :=
  ReadChunk
    (json_text "{'message':{'role':'assistant','content':'Hel'},'done':false}"
       ++ [10%N])
    (ReadChunk
       (json_text "{'message':{'role':'assistant','content':'lo'},'done':false}"
          ++ [10%N]
          ++ json_text "{'message':{'role':'assistant','content':''},'done':true}"
          ++ [10%N])
       ReadDone).

Definition sample_broken_body : Reads :=
  ReadChunk
    (json_text "{'message':{'role':'assistant','content':'Par'},'done':false}"
       ++ [10%N])
    (ReadFail (js "terminated")).

(** The frames of the reply [Hel], [lo], [done], the two pieces of the
    second when a chunk ends inside it, and a frame with empty content. *)
Definition sample_frame_Hel : jsstring :=
  json_text "{'message':{'role':'assistant','content':'Hel'},'done':false}".

Definition sample_frame_lo : jsstring :=
  json_text "{'message':{'role':'assistant','content':'lo'},'done':false}".




Definition sample_frame_empty : jsstring :=
  json_text "{'message':{'role':'assistant','content':''},'done':false}".


(** A prompt of 30 code units. *)
Definition sample_short_prompt : jsstring :=
  js "What is a shallow embedding???".

(** What [JSON.parse] makes of the sample frame, and its content. *)
Definition sample_frame_data : json :=
  Eval vm_compute in or_else (JSON_parse sample_frame) JNull.

Definition sample_frame_content : json := JString (js "Hello").

(** ** Settings

    [MemStorage] keeps its settings in a map of their own, under the key of
    the setting; no method touches it together with another collection, so
    the methods are given the map. A value is a JSON payload. *)

Module Settings.
Record t := mk
  { id : jsstring; key : jsstring; value : json; updatedAt : Z }.
End Settings.

Module InsertSettings.
Record t := mk { key : jsstring; value : json }.
End InsertSettings.

Definition getSetting (key : jsstring) (settings : JsMap.t Settings.t)
  : option Settings.t :=
  JsMap.get key settings.

Definition setSetting (e : Env) (ins : InsertSettings.t)
    (settings : JsMap.t Settings.t) : JsMap.t Settings.t * Settings.t :=
  match JsMap.get (InsertSettings.key ins) settings with
  | Some existing =>
      let updated :=
        Settings.mk (Settings.id existing) (Settings.key existing)
          (InsertSettings.value ins) (now e) in
      (JsMap.set (InsertSettings.key ins) updated settings, updated)
  | None =>
      let created :=
        Settings.mk (uuid e) (InsertSettings.key ins)
          (InsertSettings.value ins) (now e) in
      (JsMap.set (InsertSettings.key ins) created settings, created)
  end.

Definition getSettings (settings : JsMap.t Settings.t) : list Settings.t :=
  JsMap.values settings.

(** The defaults of [initializeDefaultSettings]. *)
Definition defaultSettings : list InsertSettings.t :=
  [ InsertSettings.mk (js "ollama_url")
      (JObject [(js "url", JString (js "http://localhost:11434"))]);
    InsertSettings.mk (js "temperature")
      (JObject [(js "temperature", JNumber (mkNumber false 7 (-1)))]);
    InsertSettings.mk (js "max_tokens")
      (JObject [(js "max_tokens", JNumber (mkNumber false 1024 0))]);
    InsertSettings.mk (js "system_prompt")
      (JObject [(js "prompt", JString (js "You are a helpful AI assistant."))]);
    InsertSettings.mk (js "auto_save")
      (JObject [(js "enabled", JBool true)]) ].

(** [initializeDefaultSettings] on the empty map; [env_at i] is what the
    [i]-th turn of the loop takes from [randomUUID()] and [new Date()]. *)
Fixpoint seed_settings (env_at : nat -> Env) (i : nat)
    (defaults : list InsertSettings.t) (settings : JsMap.t Settings.t)
  : JsMap.t Settings.t :=
  match defaults with
  | [] => settings
  | d :: rest =>
      seed_settings env_at (S i) rest
        (JsMap.set (InsertSettings.key d)
           (Settings.mk (uuid (env_at i)) (InsertSettings.key d)
              (InsertSettings.value d) (now (env_at i)))
           settings)
  end.

Definition initializeDefaultSettings (env_at : nat -> Env)
  : JsMap.t Settings.t :=
  seed_settings env_at 0 defaultSettings JsMap.empty.

(** ** The model catalog *)

(** [getModels]: the models by name. [localeCompare] is the collation of
    the host, taken as given. *)
Definition getModels (localeCompare : jsstring -> jsstring -> Z)
    (s : MemStorage) : list OllamaModel.t :=
  js_sort (fun a b => localeCompare (OllamaModel.name a) (OllamaModel.name b))
          (JsMap.values (models s)).

(** A model as the backend lists it. [size_label] is the text the route
    makes of [model.size] (the size in GB, to one decimal), [None] when the
    model has no size. *)
Record ListedModel := mkListed
  { listed_name : jsstring; size_label : option jsstring }.

(** The object the sync gives [createOrUpdateModel] for a listed model. *)
Definition listed_insert (m : ListedModel) : InsertOllamaModel.t :=
  InsertOllamaModel.mk (listed_name m) (listed_name m)
    (Present (size_label m)) (Present true).

(** The loop of [GET /api/models]: one [createOrUpdateModel] for each model
    of [ollama.listModels()], each with its own id and time. *)
Fixpoint sync_models (listed : list (Env * ListedModel)) (s : MemStorage)
  : MemStorage :=
  match listed with
  | [] => s
  | (e, m) :: rest =>
      sync_models rest (fst (createOrUpdateModel e (listed_insert m) s))
  end.

(** [GET /api/models]: the store after the sync and the list sent. *)
Definition GET_models (localeCompare : jsstring -> jsstring -> Z)
    (listed : list (Env * ListedModel)) (s : MemStorage)
  : MemStorage * list OllamaModel.t :=
  let s' := sync_models listed s in
  (s', getModels localeCompare s').

(** [POST /api/models/pull]: [name] is [req.body.name], [None] when the
    body has none; [accepted] is what [ollama.pullModel] returns. *)
Definition POST_models_pull (e : Env) (name : option jsstring)
    (accepted : bool) (s : MemStorage) : MemStorage * N :=
  match name with
  | None => (s, 400%N)
  | Some name =>
      if negb (str_truthy name) then (s, 400%N)
      else if accepted then
        (fst (createOrUpdateModel e
                (InsertOllamaModel.mk name name Missing (Present true)) s),
         200%N)
      else (s, 500%N)
  end.

(** [DELETE /api/models/:name]: [accepted] is what [ollama.deleteModel]
    returns. *)
Definition DELETE_model (name : jsstring) (accepted : bool) (s : MemStorage)
  : MemStorage * N :=
  if accepted then (fst (deleteModel name s), 204%N) else (s, 500%N).

(** ** [JSON.stringify] of a frame

    [JSON.stringify] is the ECMAScript built-in; of it the handler uses the
    quoting of a string (QuoteJSONString, with lone surrogates escaped as
    ECMAScript 2019 has it) and the layout of an object of one or two
    properties. *)

Definition hex_digit (d : N) : code_unit :=
  if (d <? 10)%N then (48 + d)%N else (87 + d)%N.

(** [\uXXXX] for a code unit. *)
Definition unicode_escape (c : code_unit) : jsstring :=
  [92; 117; hex_digit (c / 4096); hex_digit ((c / 256) mod 16);
   hex_digit ((c / 16) mod 16); hex_digit (c mod 16)]%N.

Definition is_high_surrogate (c : code_unit) : bool :=
  ((55296 <=? c) && (c <=? 56319))%N.

Definition is_low_surrogate (c : code_unit) : bool :=
  ((56320 <=? c) && (c <=? 57343))%N.

(** A code unit that is not a surrogate, as it stands in a string
    literal. *)
Definition quote_unit (c : code_unit) : jsstring :=
  if (c =? 8)%N then [92; 98]%N
  else if (c =? 9)%N then [92; 116]%N
  else if (c =? 10)%N then [92; 110]%N
  else if (c =? 12)%N then [92; 102]%N
  else if (c =? 13)%N then [92; 114]%N
  else if (c =? 34)%N then [92; 34]%N
  else if (c =? 92)%N then [92; 92]%N
  else if (c <? 32)%N then unicode_escape c
  else [c].

(** The inside of the literal of a string: a surrogate pair stands as it
    is, a surrogate alone is escaped. *)
Fixpoint quote_body (s : jsstring) : jsstring :=
  match s with
  | [] => []
  | c :: r =>
      if is_high_surrogate c then
        match r with
        | d :: r' =>
            if is_low_surrogate d then c :: d :: quote_body r'
            else unicode_escape c ++ quote_body r
        | [] => unicode_escape c
        end
      else if is_low_surrogate c then unicode_escape c ++ quote_body r
      else quote_unit c ++ quote_body r
  end.

(** [JSON.stringify(s)] for a string [s]. *)
Definition JSON_stringify_string (s : jsstring) : jsstring :=
  34%N :: quote_body s ++ [34%N].

(** [JSON.stringify(frame)] for the objects the handler writes. *)
Definition JSON_stringify_frame (f : Frame) : jsstring :=
  match f with
  | ContentFrame content done =>
      js "{" ++ JSON_stringify_string (js "content") ++ js ":"
        ++ JSON_stringify_string content ++ js ","
        ++ JSON_stringify_string (js "done") ++ js ":"
        ++ (if done then js "true" else js "false") ++ js "}"
  | ErrorFrame error =>
      js "{" ++ JSON_stringify_string (js "error") ++ js ":"
        ++ JSON_stringify_string error ++ js "}"
  end.

(** What [res.write] is given for a frame: [data: ], the JSON text and two
    newlines. *)
Definition wire (f : Frame) : jsstring :=
  js "data: " ++ JSON_stringify_frame f ++ [10; 10]%N.

(** ** The client's reader of the event stream ([handleSubmit])

    [streamingMessage] is kept as the values that were added to the empty
    string since it was last reset, in order; the string shown is what
    JavaScript's [+] makes of them, for strings their concatenation. *)

Record ClientView := mkView
  { streamingMessage : list json;
    isGenerating : bool;
    refetched : bool }.

(** The body of the [for (const line of lines)] loop: the view after the
    line, and whether [handleSubmit] has returned. *)
Definition client_line (line : jsstring) (v : ClientView)
  : ClientView * bool :=
  match strip_prefix (js "data: ") line with
  | None => (v, false)
  | Some payload =>
      match JSON_parse payload with
      | None => (v, false)
      | Some JNull => (v, false)
      | Some data =>
          if opt_truthy (get_prop data (js "error")) then
            (mkView (streamingMessage v) false (refetched v), true)
          else if opt_truthy (get_prop data (js "done")) then
            (mkView [] false true, true)
          else
            match get_prop data (js "content") with
            | Some c =>
                if truthy c
                then (mkView (streamingMessage v ++ [c]) (isGenerating v)
                        (refetched v), false)
                else (v, false)
            | None => (v, false)
            end
      end
  end.

Fixpoint client_lines (lines : list jsstring) (v : ClientView)
  : ClientView * bool :=
  match lines with
  | [] => (v, false)
  | line :: rest =>
      let (v', returned) := client_line line v in
      if returned then (v', true) else client_lines rest v'
  end.

(** The [while (!done)] loop over [reader.read()]; a failed read lands in
    the outer [catch]. *)
Fixpoint client_reads (r : Reads) (v : ClientView) : ClientView :=
  match r with
  | ReadChunk chunk rest =>
      let (v', returned) := client_lines (chunk_lines chunk) v in
      if returned then v' else client_reads rest v'
  | ReadDone => v
  | ReadFail _ => mkView [] false (refetched v)
  end.

(** [handleSubmit] from the reply to its chat request on: the view it
    leaves. The view starts with generation on and an empty streaming
    message. *)
Definition client_stream (response : FetchResult) : ClientView :=
  match response with
  | FetchRejected _ => mkView [] false false
  | Response false _ => mkView [] false false
  | Response true None => mkView [] false false
  | Response true (Some body) => client_reads body (mkView [] true false)
  end.

(** The reads that deliver a reply in chunks of whole writes: each group
    of frames is one chunk. *)
Definition delivered (groups : list (list Frame)) : Reads :=
  reads_of (map (fun group => concat (map wire group)) groups) ReadDone.

(** The value [JSON.parse] gives back for the text of a frame. *)
Definition frame_data (f : Frame) : json :=
  match f with
  | ContentFrame content done =>
      JObject [(js "content", JString content); (js "done", JBool done)]
  | ErrorFrame error => JObject [(js "error", JString error)]
  end.

(** The line of a frame on the wire. *)
Definition data_line (f : Frame) : jsstring :=
  js "data: " ++ JSON_stringify_frame f.

(** ** The client: how long ago

    A date is its time in milliseconds. [Math.floor(diffMs / d)] is the
    integer quotient rounded down: the binary64 quotient of an integer
    below [2^53] by one of the three divisors used here is closer to the
    exact quotient than the exact quotient is to the next integer.
    [toLocaleDateString] is the host's rendering of a date, taken as
    given. *)

(** The text of a natural number in a template literal. *)
Definition decimal (n : Z) : jsstring :=
  js (NilEmpty.string_of_uint (N.to_uint (Z.to_N n))).

(** [formatTimeAgo] of the sidebar. *)
Definition formatTimeAgo (toLocaleDateString : Z -> jsstring)
    (now date : Z) : jsstring :=
  let diffMs := (now - date)%Z in
  let diffMins := (diffMs / (1000 * 60))%Z in
  let diffHours := (diffMs / (1000 * 60 * 60))%Z in
  let diffDays := (diffMs / (1000 * 60 * 60 * 24))%Z in
  if (diffMins <? 1)%Z then js "Just now"
  else if (diffMins <? 60)%Z then decimal diffMins ++ js " min ago"
  else if (diffHours <? 24)%Z then decimal diffHours ++ js " hr ago"
  else if (diffDays =? 1)%Z then js "Yesterday"
  else if (diffDays <? 7)%Z then decimal diffDays ++ js " days ago"
  else toLocaleDateString date.

(** [formatTime] of a message. *)
Definition formatTime (toLocaleDateString : Z -> jsstring)
    (now date : Z) : jsstring :=
  let diffMs := (now - date)%Z in
  let diffMins := (diffMs / (1000 * 60))%Z in
  if (diffMins <? 1)%Z then js "Just now"
  else if (diffMins <? 60)%Z then decimal diffMins ++ js " min ago"
  else
    let diffHours := (diffMs / (1000 * 60 * 60))%Z in
    if (diffHours <? 24)%Z then decimal diffHours ++ js " hr ago"
    else toLocaleDateString date.

(** More sample data: the last frame of a reply and what [JSON.parse]
    makes of it; what the backend lists; the settings of a new store; a
    reply in two chunks. *)
Definition sample_done_line : jsstring :=
  json_text "{'message':{'role':'assistant','content':''},'done':true}".

Definition sample_done_data : json :=
  Eval vm_compute in or_else (JSON_parse sample_done_line) JNull.

Definition sample_listed : list (Env * ListedModel) :=
  [ (env "o2" 60, mkListed (js "mistral") None);
    (env "o3" 61, mkListed (js "llama3") (Some (js "4.7GB"))) ].

Definition sample_env_at (i : nat) : Env :=
  mkEnv (js "s" ++ [(48 + N.of_nat i)%N]) (Z.of_nat i).

Definition sample_settings : JsMap.t Settings.t :=
  initializeDefaultSettings sample_env_at.

Definition sample_groups : list (list Frame) :=
  [ [ContentFrame (js "Hel") false];
    [ContentFrame (js "lo") false; terminal_frame] ].

(** ** Proof automation *)

(** Decides the tests of the parser on code units that are known. *)
Ltac run_tests :=
  repeat
    (match goal with
     | |- context [is_json_ws ?c] =>
         let b := eval vm_compute in (is_json_ws c) in
         lazymatch b with true => idtac | false => idtac end;
         change (is_json_ws c) with b
     | |- context [N.eqb ?x ?y] =>
         let b := eval vm_compute in (N.eqb x y) in
         lazymatch b with true => idtac | false => idtac end;
         change (N.eqb x y) with b
     end; cbv iota).

(** * Properties *)

(** ** Strings *)

Lemma str_eqb_eq (a b : jsstring) : str_eqb a b = true <-> a = b.
Proof.
  revert b; induction a as [|x a IH]; intros [|y b]; simpl;
    try (split; [discriminate | congruence]); try tauto.
  rewrite andb_true_iff, N.eqb_eq, IH.
  split; [intros [-> ->]; reflexivity | intros H; inversion H; auto].
Qed.

Lemma str_eqb_refl (a : jsstring) : str_eqb a a = true.
Proof. apply str_eqb_eq; reflexivity. Qed.

Lemma str_eqb_neq (a b : jsstring) : str_eqb a b = false <-> a <> b.
Proof.
  rewrite <- str_eqb_eq. destruct (str_eqb a b); split; congruence.
Qed.

Lemma str_eqb_sym (a b : jsstring) : str_eqb a b = str_eqb b a.
Proof.
  destruct (str_eqb a b) eqn:E.
  - apply str_eqb_eq in E; subst; symmetry; apply str_eqb_refl.
  - symmetry; apply str_eqb_neq; apply str_eqb_neq in E; congruence.
Qed.

(** ** Sorting *)

Section SortFacts.
Variable A : Type.
Variable key : A -> Z.

Local Abbreviation by_key := (fun a b : A => (key a - key b)%Z).
Local Abbreviation le_key := (fun a b : A => (key a <= key b)%Z).

Lemma sort_insert_perm (cmp : A -> A -> Z) (x : A) (l : list A) :
  Permutation (x :: l) (sort_insert cmp x l).
Proof.
  induction l as [|y l IH]; simpl; [reflexivity|].
  destruct (cmp x y <=? 0)%Z; [reflexivity|].
  rewrite perm_swap; constructor; exact IH.
Qed.

Lemma js_sort_perm (cmp : A -> A -> Z) (l : list A) :
  Permutation l (js_sort cmp l).
Proof.
  induction l as [|x l IH]; simpl; [constructor|].
  rewrite <- sort_insert_perm; constructor; exact IH.
Qed.

Lemma js_sort_In (cmp : A -> A -> Z) (l : list A) (x : A) :
  In x (js_sort cmp l) <-> In x l.
Proof.
  split; apply Permutation_in;
    [symmetry|]; apply js_sort_perm.
Qed.

Lemma sort_insert_sorted (x : A) (l : list A) :
  StronglySorted le_key l -> StronglySorted le_key (sort_insert by_key x l).
Proof.
  induction 1 as [|y l Hs IH Hy]; simpl.
  - repeat constructor.
  - destruct (Z.leb_spec (key x - key y) 0).
    + constructor; [constructor; assumption|].
      constructor; [lia|].
      eapply Forall_impl; [|exact Hy].
      cbv beta; intros; lia.
    + constructor; [exact IH|].
      rewrite Forall_forall in *; intros z Hz.
      apply (Permutation_in _ (Permutation_sym (sort_insert_perm by_key x l)))
        in Hz.
      destruct Hz as [<-|Hz]; [lia | auto].
Qed.

Lemma js_sort_sorted (l : list A) :
  StronglySorted le_key (js_sort by_key l).
Proof.
  induction l as [|x l IH]; simpl; [constructor|].
  apply sort_insert_sorted; exact IH.
Qed.
End SortFacts.

Lemma js_sort_nil_inv A (cmp : A -> A -> Z) (l : list A) :
  l = [] -> js_sort cmp l = [].
Proof. intros ->; reflexivity. Qed.

(** ** Messages of a conversation *)

(** C9. For every conversation id and every state of the store,
    [getMessages] returns a list in non-decreasing timestamp order, every
    element of which has that conversation id. *)
Theorem getMessages_sorted_owned (conversationId : jsstring) (s : MemStorage) :
  StronglySorted
    (fun a b => (Message.timestamp a <= Message.timestamp b)%Z)
    (getMessages conversationId s)
  /\ Forall (fun m => Message.conversationId m = conversationId)
       (getMessages conversationId s).
Proof.
  split.
  - apply js_sort_sorted.
  - rewrite Forall_forall; intros m Hm.
    apply js_sort_In, filter_In in Hm.
    apply str_eqb_eq, Hm.
Qed.

(** [getMessages] returns every message of the conversation, each as many
    times as the store holds it. *)
Lemma getMessages_complete (conversationId : jsstring) (s : MemStorage) :
  Permutation
    (filter (fun m => str_eqb (Message.conversationId m) conversationId)
       (JsMap.values (messages s)))
    (getMessages conversationId s).
Proof. apply js_sort_perm. Qed.

(** ** Maps *)

Section JsMapFacts.
Variable V : Type.
Implicit Types (m : JsMap.t V) (k : jsstring) (v : V).

Lemma get_None_keys k m : JsMap.get k m = None <-> ~ In k (JsMap.keys m).
Proof.
  induction m as [|[k' v'] m IH]; simpl; [tauto|].
  destruct (str_eqb k' k) eqn:E.
  - apply str_eqb_eq in E; subst. split; [discriminate | tauto].
  - apply str_eqb_neq in E. rewrite IH. tauto.
Qed.

Lemma get_Some_In k v m : JsMap.get k m = Some v -> In (k, v) m.
Proof.
  induction m as [|[k' v'] m IH]; simpl; [discriminate|].
  destruct (str_eqb k' k) eqn:E.
  - apply str_eqb_eq in E; subst. intros [= ->]; auto.
  - auto.
Qed.

Lemma has_false_keys k m : JsMap.has k m = false <-> ~ In k (JsMap.keys m).
Proof.
  unfold JsMap.has. rewrite <- get_None_keys.
  destruct (JsMap.get k m); split; congruence.
Qed.

Lemma has_true_keys k m : JsMap.has k m = true <-> In k (JsMap.keys m).
Proof.
  destruct (JsMap.has k m) eqn:E.
  - split; [intros _|reflexivity].
    destruct (in_dec (list_eq_dec N.eq_dec) k (JsMap.keys m)) as [H|H];
      [exact H|]. apply has_false_keys in H. congruence.
  - apply has_false_keys in E. split; [discriminate | tauto].
Qed.

Lemma remove_absent k m : ~ In k (JsMap.keys m) -> JsMap.remove k m = m.
Proof.
  induction m as [|[k' v'] m IH]; simpl; [reflexivity|].
  intros H. destruct (str_eqb k' k) eqn:E.
  - apply str_eqb_eq in E; tauto.
  - simpl. f_equal. apply IH; tauto.
Qed.

Lemma remove_keys k m : ~ In k (JsMap.keys (JsMap.remove k m)).
Proof.
  unfold JsMap.keys, JsMap.remove. rewrite in_map_iff.
  intros [e [<- He]]. apply filter_In in He. destruct He as [_ He].
  rewrite str_eqb_refl in He. discriminate.
Qed.

Lemma wf_filter (f : jsstring * V -> bool) m :
  JsMap.wf m -> JsMap.wf (filter f m).
Proof.
  unfold JsMap.wf, JsMap.keys.
  induction m as [|e m IH]; simpl; [auto|].
  intros H. apply NoDup_cons_iff in H. destruct H as [Hn Hd].
  destruct (f e); simpl; [|auto].
  constructor; [|auto].
  rewrite in_map_iff in *. intros [x [Hx Hin]]. apply Hn.
  exists x. apply filter_In in Hin. tauto.
Qed.

Lemma keyed_by_filter (id : V -> jsstring) (f : jsstring * V -> bool) m :
  keyed_by id m -> keyed_by id (filter f m).
Proof.
  unfold keyed_by. rewrite !Forall_forall.
  intros H e He. apply filter_In in He. apply H, He.
Qed.

(** [set] rewrites the one entry of the key where it stands, or adds an
    entry at the end. *)
Lemma set_decompose k v m :
  (exists m1 v0 m2,
      m = m1 ++ (k, v0) :: m2 /\ ~ In k (JsMap.keys m1)
      /\ JsMap.set k v m = m1 ++ (k, v) :: m2)
  \/ (~ In k (JsMap.keys m) /\ JsMap.set k v m = m ++ [(k, v)]).
Proof.
  induction m as [|[k' v'] m IH]; simpl.
  - right; tauto.
  - destruct (str_eqb k' k) eqn:E.
    + apply str_eqb_eq in E; subst. left.
      exists [], v', m. simpl; tauto.
    + apply str_eqb_neq in E.
      destruct IH as [(m1 & v0 & m2 & -> & Hn & ->)|[Hn ->]].
      * left. exists ((k', v') :: m1), v0, m2. simpl; intuition.
      * right. intuition.
Qed.

Lemma set_fresh k v m :
  JsMap.get k m = None -> JsMap.set k v m = m ++ [(k, v)].
Proof.
  intros H. apply get_None_keys in H.
  destruct (set_decompose k v m) as [(m1 & v0 & m2 & -> & _ & _)|[_ E]];
    [|exact E].
  exfalso. apply H. unfold JsMap.keys. rewrite map_app, in_app_iff.
  simpl; auto.
Qed.

Lemma set_wf k v m : JsMap.wf m -> JsMap.wf (JsMap.set k v m).
Proof.
  unfold JsMap.wf.
  destruct (set_decompose k v m) as [(m1 & v0 & m2 & -> & _ & ->)|[Hn ->]];
    unfold JsMap.keys in *; rewrite ?map_app; simpl; [auto|].
  intros H. apply NoDup_app; [exact H | repeat constructor; simpl; tauto|].
  intros x Hx [<-|[]]. tauto.
Qed.

Lemma set_keyed_by (id : V -> jsstring) k v m :
  k = id v -> keyed_by id m -> keyed_by id (JsMap.set k v m).
Proof.
  unfold keyed_by. intros Hk.
  destruct (set_decompose k v m) as [(m1 & v0 & m2 & -> & _ & ->)|[Hn ->]];
    rewrite !Forall_app; intros H.
  - destruct H as [H1 H2]. apply Forall_cons_iff in H2.
    repeat split; try tauto. constructor; [exact Hk | tauto].
  - split; [exact H | repeat constructor; exact Hk].
Qed.

Lemma set_get k v m : JsMap.get k (JsMap.set k v m) = Some v.
Proof.
  induction m as [|[k' v'] m IH]; simpl.
  - rewrite str_eqb_refl; reflexivity.
  - destruct (str_eqb k' k) eqn:E; simpl.
    + rewrite str_eqb_refl; reflexivity.
    + rewrite E; exact IH.
Qed.

(** Under a key there is one value. *)
Lemma wf_functional k v v' m :
  JsMap.wf m -> In (k, v) m -> In (k, v') m -> v = v'.
Proof.
  unfold JsMap.wf, JsMap.keys.
  induction m as [|[k0 v0] m IH]; simpl; [tauto|].
  intros H. apply NoDup_cons_iff in H. destruct H as [Hn Hd].
  intros [E1|H1] [E2|H2].
  - congruence.
  - inversion E1; subst. exfalso. apply Hn.
    apply in_map_iff. exists (k, v'). auto.
  - inversion E2; subst. exfalso. apply Hn.
    apply in_map_iff. exists (k, v). auto.
  - auto.
Qed.

(** Deleting the keys of a list of records, one after the other, keeps
    the entries whose key is none of them. *)
Lemma fold_delete (id : V -> jsstring) (l : list V) m :
  fold_left (fun acc x => snd (JsMap.delete (id x) acc)) l m
  = filter (fun e => forallb (fun x => negb (str_eqb (fst e) (id x))) l) m.
Proof.
  revert m; induction l as [|x l IH]; intros m; simpl.
  - induction m as [|e m IHm]; simpl; congruence.
  - rewrite IH. unfold JsMap.remove.
    induction m as [|e m IHm]; simpl; [reflexivity|].
    destruct (str_eqb (fst e) (id x)); simpl; rewrite IHm; reflexivity.
Qed.

(** In a well-shaped map, deleting by id the records that satisfy [p]
    leaves the records that do not, in their order. *)
Lemma delete_matching (id : V -> jsstring) (p : V -> bool) m :
  JsMap.wf m -> keyed_by id m ->
  fold_left (fun acc x => snd (JsMap.delete (id x) acc))
    (filter p (JsMap.values m)) m
  = filter (fun e => negb (p (snd e))) m.
Proof.
  intros Hwf Hk. rewrite fold_delete. apply filter_ext_in.
  intros [k v] He. simpl.
  unfold keyed_by in Hk. rewrite Forall_forall in Hk.
  destruct (p v) eqn:Ep; simpl.
  - apply not_true_is_false. intros H.
    rewrite forallb_forall in H.
    specialize (H v). rewrite (Hk _ He : k = id v), str_eqb_refl in H.
    simpl in H. assert (true = false); [|discriminate].
    symmetry; apply H. apply filter_In. split; [|exact Ep].
    unfold JsMap.values. apply in_map_iff. exists (id v, v).
    rewrite <- (Hk _ He : k = id v). auto.
  - apply forallb_forall. intros x Hx. apply filter_In in Hx.
    destruct Hx as [Hx Px]. unfold JsMap.values in Hx.
    apply in_map_iff in Hx. destruct Hx as [[k' x'] [E Hin]].
    simpl in E; subst x'.
    apply negb_true_iff, str_eqb_neq. intros ->.
    pose proof (Hk _ Hin) as Hk'. simpl in Hk'. subst k'.
    pose proof (wf_functional _ _ _ Hwf He Hin). congruence.
Qed.

Lemma values_filter (p : V -> bool) m :
  JsMap.values (filter (fun e => p (snd e)) m) = filter p (JsMap.values m).
Proof.
  unfold JsMap.values.
  induction m as [|e m IH]; simpl; [reflexivity|].
  destruct (p (snd e)); simpl; rewrite IH; reflexivity.
Qed.
End JsMapFacts.

(** ** Deleting a conversation *)

Lemma deleteConversation_messages (id : jsstring) (s : MemStorage) :
  store_wf s -> JsMap.has id (conversations s) = true ->
  messages (fst (deleteConversation id s))
  = filter (fun e => negb (str_eqb (Message.conversationId (snd e)) id))
      (messages s).
Proof.
  intros W H. unfold deleteConversation, JsMap.delete. rewrite H. simpl.
  apply (delete_matching (id := Message.id)
           (fun msg => str_eqb (Message.conversationId msg) id));
    [apply (wf_message_keys W) | apply (wf_message_ids W)].
Qed.

Lemma filter_none A (p : A -> bool) (l : list A) :
  (forall x, In x l -> p x = false) -> filter p l = [].
Proof.
  induction l as [|x l IH]; simpl; intros H; [reflexivity|].
  rewrite (H x (or_introl eq_refl)). apply IH; auto.
Qed.

Lemma filter_other_conversation (id other : jsstring) (l : list Message.t) :
  other <> id ->
  filter (fun m => str_eqb (Message.conversationId m) other)
    (filter (fun m => negb (str_eqb (Message.conversationId m) id)) l)
  = filter (fun m => str_eqb (Message.conversationId m) other) l.
Proof.
  intros Hne. induction l as [|m l IH]; simpl; [reflexivity|].
  destruct (str_eqb (Message.conversationId m) id) eqn:E1; simpl.
  - apply str_eqb_eq in E1.
    destruct (str_eqb (Message.conversationId m) other) eqn:E2; [|exact IH].
    apply str_eqb_eq in E2. congruence.
  - destruct (str_eqb (Message.conversationId m) other); rewrite IH;
      reflexivity.
Qed.

(** C6. Deleting a conversation that is in the store returns [true]
    (status 204), takes it out of [getConversations] and takes every
    message of it out of [getMessages]; the other conversations and their
    messages stay. Deleting an id that is not in the store returns [false]
    (status 404) and leaves the store as it was. *)
Theorem deleteConversation_cascade (id : jsstring) (s : MemStorage) :
  store_wf s ->
  (JsMap.has id (conversations s) = true ->
   exists s',
     deleteConversation id s = (s', true)
     /\ DELETE_conversation id s = (s', 204%N)
     /\ (forall c, In c (getConversations s')
                   <-> In c (getConversations s) /\ Conversation.id c <> id)
     /\ getMessages id s' = []
     /\ (forall m, In m (JsMap.values (messages s')) ->
                   Message.conversationId m <> id)
     /\ (forall other, other <> id ->
                       getMessages other s' = getMessages other s))
  /\ (JsMap.has id (conversations s) = false ->
      deleteConversation id s = (s, false)
      /\ DELETE_conversation id s = (s, 404%N)).
Proof.
  intros W. split; intros H.
  - pose proof (deleteConversation_messages id W H) as Hm.
    unfold DELETE_conversation.
    destruct (deleteConversation id s) as [s' r] eqn:E.
    assert (r = true /\ conversations s' = JsMap.remove id (conversations s))
      as [-> Hc].
    { unfold deleteConversation, JsMap.delete in E. rewrite H in E.
      inversion E; subst; auto. }
    simpl in Hm.
    assert (Hv : JsMap.values (messages s')
                 = filter (fun m => negb (str_eqb (Message.conversationId m) id))
                     (JsMap.values (messages s))).
    { rewrite Hm.
      apply (values_filter
               (fun m => negb (str_eqb (Message.conversationId m) id))). }
    pose proof (wf_conversation_ids W) as K.
    unfold keyed_by in K. rewrite Forall_forall in K.
    assert (Hconv : forall c, In c (getConversations s')
                     <-> In c (getConversations s) /\ Conversation.id c <> id).
    { intros c. unfold getConversations. rewrite !js_sort_In, Hc.
      unfold JsMap.values, JsMap.remove. rewrite !in_map_iff. split.
      - intros [e [<- He]]. apply filter_In in He. destruct He as [He Hne].
        split; [exists e; tauto|].
        rewrite <- (K _ He). apply str_eqb_neq, negb_true_iff, Hne.
      - intros [[e [<- He]] Hne]. exists e. split; [reflexivity|].
        apply filter_In. split; [exact He|].
        rewrite (K _ He). apply negb_true_iff, str_eqb_neq, Hne. }
    exists s'. split; [reflexivity|]. split; [reflexivity|].
    split; [exact Hconv|]. split; [|split].
    + unfold getMessages. rewrite Hv. apply js_sort_nil_inv.
      apply filter_none. intros m Hin. apply filter_In in Hin.
      destruct Hin as [_ Hin]. apply negb_true_iff in Hin. exact Hin.
    + intros m Hin. rewrite Hv in Hin. apply filter_In in Hin.
      apply str_eqb_neq, negb_true_iff, Hin.
    + intros other Hne. unfold getMessages. rewrite Hv. f_equal.
      apply filter_other_conversation. congruence.
  - assert (E : deleteConversation id s = (s, false)).
    { unfold deleteConversation, JsMap.delete. rewrite H.
      rewrite remove_absent by (apply has_false_keys, H).
      destruct s; reflexivity. }
    unfold DELETE_conversation. rewrite E. auto.
Qed.

(** ** The shape of the store is kept *)

Lemma newStorage_wf : store_wf newStorage.
Proof. constructor; simpl; constructor. Qed.

Lemma createConversation_wf e ins s :
  store_wf s -> store_wf (fst (createConversation e ins s)).
Proof.
  intros [H1 H2 H3 H4 H5 H6 H7]. constructor; simpl; auto.
  - apply set_wf, H1.
  - apply set_keyed_by; [reflexivity | exact H2].
Qed.

Lemma createMessage_wf e ins s :
  store_wf s -> store_wf (fst (createMessage e ins s)).
Proof.
  intros [H1 H2 H3 H4 H5 H6 H7]. constructor; simpl; auto.
  - apply set_wf, H3.
  - apply set_keyed_by; [reflexivity | exact H4].
Qed.

Lemma deleteConversation_wf id s :
  store_wf s -> store_wf (fst (deleteConversation id s)).
Proof.
  intros [H1 H2 H3 H4 H5 H6 H7].
  unfold deleteConversation, JsMap.delete.
  destruct (JsMap.has id (conversations s)); constructor;
    cbn [fst snd conversations messages models];
    rewrite ?(fold_delete Message.id); unfold JsMap.remove;
    auto using wf_filter, keyed_by_filter.
Qed.

Lemma chat_wf e c stream s : store_wf s -> store_wf (fst (chat e c stream s)).
Proof.
  intros W. unfold chat. destruct (relay stream []) as [writes [acc|err]].
  - apply (createMessage_wf e (InsertMessage.mk c assistant acc) W).
  - exact W.
Qed.

Section ModelFacts.
Variable n : jsstring.

Local Abbreviation named :=
  (fun m : OllamaModel.t => str_eqb (OllamaModel.name m) n).

(** The first model of a name, with what stands before and after it. *)
Lemma find_named_split (m : JsMap.t OllamaModel.t) (x : OllamaModel.t) :
  find named (JsMap.values m) = Some x ->
  exists m1 k m2,
    m = m1 ++ (k, x) :: m2
    /\ find named (JsMap.values m1) = None
    /\ OllamaModel.name x = n.
Proof.
  induction m as [|[k v] m IH]; simpl; [discriminate|].
  destruct (str_eqb (OllamaModel.name v) n) eqn:E.
  - intros [= ->]. exists [], k, m. repeat split. apply str_eqb_eq, E.
  - intros H. destruct (IH H) as (m1 & k' & m2 & -> & H1 & H2).
    exists ((k, v) :: m1), k', m2. simpl. rewrite E. auto.
Qed.

Lemma find_named_app (l1 l2 : list OllamaModel.t) :
  find named l1 = None -> find named (l1 ++ l2) = find named l2.
Proof.
  induction l1 as [|v l1 IH]; simpl; [reflexivity|].
  destruct (str_eqb (OllamaModel.name v) n); [discriminate | exact IH].
Qed.

Lemma find_named_None (l : list OllamaModel.t) :
  find named l = None <-> ~ In n (map OllamaModel.name l).
Proof.
  induction l as [|v l IH]; simpl; [tauto|].
  destruct (str_eqb (OllamaModel.name v) n) eqn:E.
  - apply str_eqb_eq in E. split; [discriminate | tauto].
  - apply str_eqb_neq in E. rewrite IH. tauto.
Qed.

Lemma named_at_most_once (l : list OllamaModel.t) :
  NoDup (map OllamaModel.name l) -> (List.length (filter named l) <= 1)%nat.
Proof.
  induction l as [|v l IH]; simpl; [lia|].
  intros H. apply NoDup_cons_iff in H. destruct H as [Hn Hd].
  destruct (str_eqb (OllamaModel.name v) n) eqn:E.
  - apply str_eqb_eq in E. rewrite E in Hn.
    apply find_named_None in Hn.
    assert (filter named l = []) as ->; [|simpl; lia].
    apply filter_none. intros x Hx.
    destruct (str_eqb (OllamaModel.name x) n) eqn:Ex; [|reflexivity].
    exfalso. apply find_named_None in Hn. apply Hn.
    apply in_map_iff. exists x. split; [apply str_eqb_eq, Ex | exact Hx].
  - auto.
Qed.

Lemma find_named_filter (l : list OllamaModel.t) (x : OllamaModel.t) :
  find named l = Some x -> (1 <= List.length (filter named l))%nat.
Proof.
  induction l as [|v l IH]; simpl; [discriminate|].
  destruct (str_eqb (OllamaModel.name v) n); simpl; [lia | exact IH].
Qed.
End ModelFacts.

Lemma set_at V (k : jsstring) (v v0 : V) (m1 m2 : JsMap.t V) :
  ~ In k (JsMap.keys m1) ->
  JsMap.set k v (m1 ++ (k, v0) :: m2) = m1 ++ (k, v) :: m2.
Proof.
  induction m1 as [|[k' v'] m1 IH]; simpl; intros H.
  - rewrite str_eqb_refl; reflexivity.
  - destruct (str_eqb k' k) eqn:E.
    + apply str_eqb_eq in E; tauto.
    + rewrite IH by tauto. reflexivity.
Qed.

Lemma NoDup_insert A (y : A) (a b : list A) :
  NoDup (a ++ b) -> ~ In y (a ++ b) -> NoDup (a ++ y :: b).
Proof.
  induction a as [|x a IH]; simpl; intros Hd Hn.
  - constructor; assumption.
  - apply NoDup_cons_iff in Hd. destruct Hd as [Hx Hd].
    constructor; [|apply IH; tauto].
    rewrite in_app_iff in *. simpl. intuition.
Qed.

Lemma keys_replace V (k : jsstring) (v v0 : V) (m1 m2 : JsMap.t V) :
  JsMap.keys (m1 ++ (k, v) :: m2) = JsMap.keys (m1 ++ (k, v0) :: m2).
Proof. unfold JsMap.keys. rewrite !map_app. reflexivity. Qed.

Lemma values_app V (e : jsstring * V) (m1 m2 : JsMap.t V) :
  JsMap.values (m1 ++ e :: m2) = JsMap.values m1 ++ snd e :: JsMap.values m2.
Proof. unfold JsMap.values. rewrite map_app. reflexivity. Qed.

Lemma keyed_by_replace V (id : V -> jsstring) (k : jsstring) (v v0 : V)
    (m1 m2 : JsMap.t V) :
  k = id v -> keyed_by id (m1 ++ (k, v0) :: m2) ->
  keyed_by id (m1 ++ (k, v) :: m2).
Proof.
  unfold keyed_by. rewrite !Forall_app. intros Hk [Ha Hb].
  apply Forall_cons_iff in Hb.
  split; [exact Ha|]. constructor; [exact Hk | tauto].
Qed.

(** What [createOrUpdateModel] leaves: a well-shaped store in which the
    first model of the name is the record it returns. *)
Lemma createOrUpdateModel_spec e ins s :
  store_wf s ->
  store_wf (fst (createOrUpdateModel e ins s))
  /\ OllamaModel.name (snd (createOrUpdateModel e ins s))
     = InsertOllamaModel.name ins
  /\ find (fun m => str_eqb (OllamaModel.name m) (InsertOllamaModel.name ins))
       (JsMap.values (models (fst (createOrUpdateModel e ins s))))
     = Some (snd (createOrUpdateModel e ins s)).
Proof.
  destruct s as [cs ms md]. intros [H1 H2 H3 H4 H5 H6 H7].
  cbn [conversations messages models] in *.
  unfold createOrUpdateModel. cbn [conversations messages models].
  set (n := InsertOllamaModel.name ins).
  destruct (find (fun m => str_eqb (OllamaModel.name m) n) (JsMap.values md))
    as [ex|] eqn:F.
  - destruct (find_named_split _ _ F) as (m1 & k & m2 & -> & F1 & En).
    assert (Hk : k = OllamaModel.id ex).
    { unfold keyed_by in H6. rewrite Forall_app in H6.
      destruct H6 as [_ H6]. apply Forall_cons_iff in H6. apply H6. }
    assert (Hn : ~ In k (JsMap.keys m1)).
    { unfold JsMap.wf, JsMap.keys in H5. rewrite map_app in H5.
      apply NoDup_remove_2 in H5. rewrite in_app_iff in H5.
      unfold JsMap.keys. tauto. }
    rewrite <- Hk, set_at by exact Hn.
    cbn [fst snd models OllamaModel.name].
    split; [|split; [reflexivity|]].
    + constructor; cbn [conversations messages models]; auto.
      * unfold JsMap.wf. rewrite keys_replace with (v0 := ex). exact H5.
      * apply keyed_by_replace with (v0 := ex); [reflexivity | exact H6].
      * rewrite values_app in *. cbn [snd OllamaModel.name] in *.
        rewrite map_app in *. cbn [map OllamaModel.name] in *.
        rewrite <- En. exact H7.
    + rewrite values_app, find_named_app by exact F1.
      cbn [find snd OllamaModel.name]. rewrite str_eqb_refl. reflexivity.
  - apply find_named_None in F.
    match goal with
    | |- context [JsMap.set (uuid e) ?x md] => set (model := x)
    end.
    assert (Em : OllamaModel.name model = n) by reflexivity.
    assert (Ei : uuid e = OllamaModel.id model) by reflexivity.
    clearbody model.
    destruct (set_decompose (uuid e) model md)
      as [(m1 & v0 & m2 & -> & Hn & ->)|[Hn ->]];
      cbn [fst snd models]; (split; [|split; [exact Em|]]).
    + rewrite values_app, map_app, in_app_iff in F.
      cbn [snd map In] in F.
      constructor; cbn [conversations messages models]; auto.
      * unfold JsMap.wf. rewrite keys_replace with (v0 := v0). exact H5.
      * apply keyed_by_replace with (v0 := v0); [exact Ei | exact H6].
      * rewrite values_app, map_app in *. cbn [snd map] in *.
        apply NoDup_insert.
        -- apply NoDup_remove_1 in H7. exact H7.
        -- rewrite Em, in_app_iff. tauto.
    + rewrite values_app, map_app, in_app_iff in F.
      cbn [snd map In] in F.
      rewrite values_app, find_named_app by (apply find_named_None; tauto).
      cbn [find snd]. rewrite Em, str_eqb_refl. reflexivity.
    + constructor; cbn [conversations messages models]; auto.
      * unfold JsMap.wf, JsMap.keys. rewrite map_app. cbn [map fst].
        apply NoDup_insert; rewrite app_nil_r; assumption.
      * unfold keyed_by in *. rewrite Forall_app.
        split; [exact H6 | repeat constructor; exact Ei].
      * rewrite values_app, map_app. cbn [snd map JsMap.values].
        apply NoDup_insert; rewrite app_nil_r; [exact H7|].
        rewrite Em. exact F.
    + rewrite values_app, find_named_app by (apply find_named_None; exact F).
      cbn [find snd JsMap.values map]. rewrite Em, str_eqb_refl. reflexivity.
Qed.

Lemma createOrUpdateModel_wf e ins s :
  store_wf s -> store_wf (fst (createOrUpdateModel e ins s)).
Proof. intros W. apply (createOrUpdateModel_spec e ins W). Qed.

(** Dropping records keeps their images apart. *)
Lemma NoDup_map_filter A B (proj : A -> B) (keep : A -> bool) (xs : list A)
    (Hxs : NoDup (map proj xs)) :
  NoDup (map proj (filter keep xs)).
Proof.
  induction xs as [|x xs IH]; simpl in *; [exact Hxs|].
  apply NoDup_cons_iff in Hxs. destruct Hxs as [Hn Hd].
  destruct (keep x); simpl; [|auto].
  constructor; [|auto].
  rewrite in_map_iff in *. intros [y [Hy Hin]]. apply Hn.
  exists y. apply filter_In in Hin. tauto.
Qed.

Lemma deleteModel_wf name s : store_wf s -> store_wf (fst (deleteModel name s)).
Proof.
  intros W. unfold deleteModel.
  destruct (find _ _) as [model|]; [|exact W].
  destruct W as [H1 H2 H3 H4 H5 H6 H7].
  constructor; cbn [fst snd JsMap.delete conversations messages models]; auto.
  - apply wf_filter, H5.
  - apply keyed_by_filter, H6.
  - unfold JsMap.values, JsMap.remove in *.
    rewrite map_map in *.
    apply (NoDup_map_filter (fun e => OllamaModel.name (snd e))), H7.
Qed.

Lemma handle_wf e r s : store_wf s -> store_wf (handle e r s).
Proof.
  intros W. destruct r; cbn [handle].
  - apply createConversation_wf, W.
  - unfold DELETE_conversation.
    pose proof (deleteConversation_wf id W) as W'.
    destruct (deleteConversation id s); exact W'.
  - apply (createMessage_wf e (InsertMessage.mk conversationId role content) W).
  - apply chat_wf, W.
  - apply createOrUpdateModel_wf, W.
  - apply deleteModel_wf, W.
Qed.

(** Every store the server can be in is well shaped. *)
Lemma reachable_wf s : reachable s -> store_wf s.
Proof.
  induction 1 as [|e r s _ IH]; [apply newStorage_wf | apply handle_wf, IH].
Qed.

(** ** Registering a model twice *)

(** C7. Two calls of [createOrUpdateModel] with one name leave one record
    of that name in the store, and the second call returns a record with
    the id of the record the first call returned. *)
Theorem createOrUpdateModel_twice (e1 e2 : Env)
    (ins1 ins2 : InsertOllamaModel.t) (s : MemStorage) :
  store_wf s ->
  InsertOllamaModel.name ins2 = InsertOllamaModel.name ins1 ->
  let (s1, first) := createOrUpdateModel e1 ins1 s in
  let (s2, second) := createOrUpdateModel e2 ins2 s1 in
  models_named (InsertOllamaModel.name ins1) s2 = 1%nat
  /\ OllamaModel.id second = OllamaModel.id first.
Proof.
  intros W Hname.
  pose proof (createOrUpdateModel_spec e1 ins1 W) as S1.
  destruct (createOrUpdateModel e1 ins1 s) as [s1 first].
  cbn [fst snd] in S1. destruct S1 as (W1 & N1 & F1).
  pose proof (createOrUpdateModel_spec e2 ins2 W1) as S2.
  destruct (createOrUpdateModel e2 ins2 s1) as [s2 second] eqn:E2.
  cbn [fst snd] in S2. destruct S2 as (W2 & N2 & F2).
  split.
  - unfold models_named. rewrite Hname in F2.
    pose proof (find_named_filter _ _ F2).
    pose proof (named_at_most_once (InsertOllamaModel.name ins1)
                  (JsMap.values (models s2)) (wf_model_names W2)).
    lia.
  - unfold createOrUpdateModel in E2. rewrite Hname, F1 in E2.
    inversion E2; reflexivity.
Qed.

(** ** The chat endpoint *)

Lemma relay_gen_of (fragments : list jsstring) (k : gen jsstring)
    (acc : jsstring) :
  relay (gen_of fragments k) acc
  = (content_writes fragments ++ fst (relay k (acc ++ concat fragments)),
     snd (relay k (acc ++ concat fragments))).
Proof.
  revert acc; induction fragments as [|f fs IH]; intros acc; simpl.
  - rewrite app_nil_r. destruct (relay k acc); reflexivity.
  - rewrite IH, <- app_assoc. reflexivity.
Qed.

Lemma frames_app (l1 l2 : list Effect) :
  frames (l1 ++ l2) = frames l1 ++ frames l2.
Proof.
  induction l1 as [|[| | |] l1 IH]; simpl; rewrite ?IH; reflexivity.
Qed.

Lemma persisted_app (l1 l2 : list Effect) :
  persisted (l1 ++ l2) = persisted l1 ++ persisted l2.
Proof.
  induction l1 as [|[| | |] l1 IH]; simpl; rewrite ?IH; reflexivity.
Qed.

Lemma frames_content_writes (fragments : list jsstring) :
  frames (content_writes fragments)
  = map (fun f => ContentFrame f false) fragments.
Proof. induction fragments; simpl; congruence. Qed.

Lemma persisted_content_writes (fragments : list jsstring) :
  persisted (content_writes fragments) = [].
Proof. induction fragments; simpl; congruence. Qed.

(** A generator is the values it yields and the way it ends. *)
Lemma gen_of_yields A (g : gen A) :
  g = gen_of (yields g)
        (match outcome g with Returned => GReturn | Threw e => GThrow e end).
Proof. induction g; simpl; congruence. Qed.


(** C2. When the inference stream throws after yielding the fragments
    [fragments], the handler persists nothing and leaves the store as it
    was; after the content frames it writes one error frame and ends the
    response. *)
Theorem chat_discards_partial_reply (e : Env) (conversationId : jsstring)
    (fragments : list jsstring) (err : jsstring) (s : MemStorage) :
  let (s', log) := chat e conversationId (gen_of fragments (GThrow err)) s in
  s' = s
  /\ persisted log = []
  /\ log = WriteHead 200 :: content_writes fragments
             ++ [Write (ErrorFrame (js "Failed to generate response")); End]
  /\ frames log
     = map (fun f => ContentFrame f false) fragments
         ++ [ErrorFrame (js "Failed to generate response")].
Proof.
  unfold chat. rewrite relay_gen_of. cbn [relay fst snd]. rewrite app_nil_r.
  split; [reflexivity|]. split; [|split; [reflexivity|]].
  - cbn [persisted]. rewrite persisted_app, persisted_content_writes.
    reflexivity.
  - cbn [frames]. rewrite frames_app, frames_content_writes. reflexivity.
Qed.

(** C10. When the inference stream completes without having yielded a
    fragment, the handler still persists one assistant message, with the
    empty string as content, and still writes the terminal frame. *)
Theorem chat_commits_empty_reply (e : Env) (conversationId : jsstring)
    (stream : gen jsstring) (s : MemStorage) :
  yields stream = [] -> outcome stream = Returned ->
  let reply := Message.mk (uuid e) conversationId assistant [] (now e) in
  let (s', log) := chat e conversationId stream s in
  log = [WriteHead 200; Persist reply; Write terminal_frame; End]
  /\ JsMap.get (uuid e) (messages s') = Some reply
  /\ s' = fst (createMessage e
                 (InsertMessage.mk conversationId assistant []) s).
Proof.
  intros Hy Ho. rewrite (gen_of_yields stream), Hy, Ho.
  cbn [gen_of chat relay createMessage app messages fst
       InsertMessage.conversationId InsertMessage.role InsertMessage.content].
  split; [reflexivity|]. split; [apply set_get | reflexivity].
Qed.

(** ** When [updatedAt] moves *)

Lemma Forall_set V (P : jsstring * V -> Prop) (k : jsstring) (v : V)
    (m : JsMap.t V) :
  Forall P m -> P (k, v) -> Forall P (JsMap.set k v m).
Proof.
  intros Hm Hv.
  destruct (set_decompose k v m) as [(m1 & v0 & m2 & -> & _ & ->)|[_ ->]];
    rewrite Forall_app in *.
  - destruct Hm as [H1 H2]. apply Forall_cons_iff in H2.
    split; [exact H1|]. constructor; tauto.
  - split; [exact Hm | repeat constructor; exact Hv].
Qed.

(** No route calls [updateConversation]: in a store the server can be in,
    every conversation still has the [updatedAt] it was created with. *)
Lemma reachable_updatedAt (s : MemStorage) :
  reachable s ->
  Forall (fun en => Conversation.updatedAt (snd en)
                    = Conversation.createdAt (snd en))
    (conversations s).
Proof.
  induction 1 as [|e r s _ IH]; [constructor|].
  destruct r; cbn [handle].
  - apply Forall_set; [exact IH | reflexivity].
  - unfold DELETE_conversation, deleteConversation, JsMap.delete.
    destruct (JsMap.has id (conversations s));
      cbn [fst conversations]; unfold JsMap.remove;
      rewrite Forall_forall in *; intros x Hx;
      apply filter_In in Hx; apply IH, Hx.
  - exact IH.
  - unfold chat. destruct (relay stream []) as [writes [acc|err]]; exact IH.
  - unfold createOrUpdateModel. destruct (find _ _); exact IH.
  - unfold deleteModel. destruct (find _ _); exact IH.
Qed.

(** C3, as the code has it. In every store the server can be in,
    [updatedAt] is not before [createdAt]. A conversation is created with
    the two equal; [updateConversation] sets [updatedAt] to the time of the
    call, which is not before [createdAt] when the clock is not; appending
    a message, through the messages endpoint or through the chat stream,
    leaves every conversation as it was, [updatedAt] included. *)
Theorem updatedAt_moves_on_conversation_writes_only (e : Env)
    (s : MemStorage) :
  (reachable s ->
   forall c, In c (getConversations s) ->
             (Conversation.createdAt c <= Conversation.updatedAt c)%Z)
  /\ (forall ins,
         let c := snd (createConversation e ins s) in
         Conversation.createdAt c = now e /\ Conversation.updatedAt c = now e)
  /\ (forall id updates c,
         snd (updateConversation e id updates s) = Some c ->
         getConversation id (fst (updateConversation e id updates s)) = Some c
         /\ Conversation.updatedAt c = now e
         /\ ((Conversation.createdAt c <= now e)%Z ->
             (Conversation.createdAt c <= Conversation.updatedAt c)%Z))
  /\ (forall ins, conversations (fst (createMessage e ins s)) = conversations s)
  /\ (forall conversationId role content,
         conversations (fst (POST_message e conversationId role content s))
         = conversations s)
  /\ (forall conversationId stream,
         conversations (fst (chat e conversationId stream s))
         = conversations s).
Proof.
  split.
  { intros R c Hc. apply reachable_updatedAt in R.
    unfold getConversations in Hc. apply js_sort_In in Hc.
    unfold JsMap.values in Hc. apply in_map_iff in Hc.
    destruct Hc as [en [<- Hen]]. rewrite Forall_forall in R.
    rewrite (R _ Hen). lia. }
  split; [intros ins; split; reflexivity|].
  split; [|split; [reflexivity|split; [reflexivity|]]].
  - intros id updates c. unfold updateConversation, getConversation.
    destruct (JsMap.get id (conversations s)) as [c0|]; [|discriminate].
    cbn [fst snd conversations]. intros [= <-].
    split; [apply set_get|]. cbn [Conversation.updatedAt]. auto.
  - intros conversationId stream. unfold chat.
    destruct (relay stream []) as [writes [acc|err]]; reflexivity.
Qed.

(** ** The title of a new conversation *)

Lemma startNewConversation_title_nonempty (m : jsstring) :
  m <> [] ->
  startNewConversation_title (Some m)
  = slice0 50 m ++ (if (js_length m >? 50)%Z then js "..." else []).
Proof.
  intros H. unfold startNewConversation_title.
  destruct m as [|c m]; [congruence|].
  cbn [str_truthy]. reflexivity.
Qed.

(** C8. The title that a first prompt gives its conversation: the first 50
    code units and three dots when the prompt is longer than 50, the prompt
    itself otherwise. The prompt is the trimmed input that [handleSubmit]
    lets through. *)
Theorem title_of_first_prompt (input : jsstring) (isGenerating : bool)
    (title : jsstring) :
  handleSubmit_title input isGenerating None = Some title ->
  let prompt := trim input in
  title = startNewConversation_title (Some prompt)
  /\ ((50 < js_length prompt)%Z -> title = slice0 50 prompt ++ js "...")
  /\ ((js_length prompt <= 50)%Z -> title = prompt).
Proof.
  unfold handleSubmit_title.
  destruct (str_truthy (trim input)) eqn:T; [|discriminate].
  destruct isGenerating; [discriminate|]. cbn [negb orb truthy_id].
  intros H.
  assert (E : startNewConversation_title (Some (trim input)) = title)
    by congruence.
  clear H. subst title. cbn zeta.
  assert (Hne : trim input <> []) by (destruct (trim input); discriminate).
  rewrite (startNewConversation_title_nonempty Hne).
  split; [reflexivity|]. split; intros Hlen.
  - destruct (Z.gtb_spec (js_length (trim input)) 50); [reflexivity | lia].
  - destruct (Z.gtb_spec (js_length (trim input)) 50); [lia|].
    rewrite app_nil_r. unfold slice0, js_length in *.
    apply firstn_all2. lia.
Qed.

(** ** [JSON.parse] never runs out of fuel *)

Lemma skip_ws_length (s : jsstring) :
  (List.length (skip_ws s) <= List.length s)%nat.
Proof.
  induction s as [|c s IH]; simpl; [lia|].
  destruct (is_json_ws c); simpl; lia.
Qed.

Lemma skip_ws_cons (s r : jsstring) (c : code_unit) :
  skip_ws s = c :: r -> (List.length r < List.length s)%nat.
Proof.
  intros H. pose proof (skip_ws_length s) as L. rewrite H in L.
  simpl in L. lia.
Qed.

Lemma parse_string_body_length (n : nat) :
  forall s acc str r,
    (List.length s <= n)%nat ->
    parse_string_body s acc = Some (str, r) ->
    (List.length r < List.length s)%nat.
Proof.
  induction n as [|n IH]; intros s acc str r Hn H.
  - destruct s; [discriminate | simpl in Hn; lia].
  - destruct s as [|c s]; [discriminate|]. cbn [parse_string_body] in H.
    destruct (c =? 34)%N.
    { inversion H; subst. simpl; lia. }
    destruct (c =? 92)%N.
    + destruct s as [|e s1]; [discriminate|].
      destruct (e =? 117)%N.
      * destruct s1 as [|h1 [|h2 [|h3 [|h4 s2]]]]; try discriminate.
        destruct (hex4 h1 h2 h3 h4); [|discriminate].
        apply IH in H; simpl in *; lia.
      * destruct (escape_value e); [|discriminate].
        apply IH in H; simpl in *; lia.
    + destruct (c <? 32)%N; [discriminate|].
      apply IH in H; simpl in *; lia.
Qed.

Lemma take_digits_length (s : jsstring) :
  forall acc count v k r,
    take_digits s acc count = (v, k, r) ->
    (List.length r <= List.length s)%nat.
Proof.
  induction s as [|c s IH]; intros acc count v k r H; simpl in H.
  - inversion H; subst; simpl; lia.
  - destruct (is_digit c).
    + apply IH in H. simpl; lia.
    + inversion H; subst; simpl; lia.
Qed.

Lemma parse_exponent_length (s r : jsstring) (ex : Z) :
  parse_exponent s = Some (ex, r) -> (List.length r <= List.length s)%nat.
Proof.
  unfold parse_exponent. intros H.
  destruct s as [|c s]; [inversion H; subst; simpl; lia|].
  destruct ((c =? 101) || (c =? 69))%N; [|inversion H; subst; simpl; lia].
  destruct (match s with
            | [] => (1%Z, s)
            | d :: r' =>
                if (d =? 45)%N then ((-1)%Z, r')
                else if (d =? 43)%N then (1%Z, r') else (1%Z, s)
            end) as [sign r1] eqn:E.
  assert (L : (List.length r1 <= List.length s)%nat).
  { destruct s as [|d s']; [inversion E; subst; simpl; lia|].
    destruct (d =? 45)%N; [inversion E; subst; simpl; lia|].
    destruct (d =? 43)%N; inversion E; subst; simpl; lia. }
  destruct (take_digits r1 0 0) as [[v k] r2] eqn:T.
  apply take_digits_length in T.
  destruct k; [discriminate|]. inversion H; subst. simpl; lia.
Qed.

Lemma parse_fraction_length (s r : jsstring) (i m : N) (k : nat) :
  parse_fraction s i = Some (m, k, r) -> (List.length r <= List.length s)%nat.
Proof.
  unfold parse_fraction. intros H.
  destruct s as [|c s]; [inversion H; subst; simpl; lia|].
  destruct (c =? 46)%N; [|inversion H; subst; simpl; lia].
  destruct (take_digits s i 0) as [[v k'] r1] eqn:T.
  apply take_digits_length in T.
  destruct k'; [discriminate|]. inversion H; subst. simpl; lia.
Qed.

Lemma parse_number_length (s r : jsstring) (n : jsnumber) :
  parse_number s = Some (n, r) -> (List.length r < List.length s)%nat.
Proof.
  unfold parse_number. intros H.
  destruct (match s with
            | [] => (false, s)
            | c :: r0 => if (c =? 45)%N then (true, r0) else (false, s)
            end) as [neg s1] eqn:E.
  assert (L1 : (List.length s1 <= List.length s)%nat).
  { destruct s as [|c s']; [inversion E; subst; simpl; lia|].
    destruct (c =? 45)%N; inversion E; subst; simpl; lia. }
  destruct (match s1 with
            | [] => None
            | c :: r0 =>
                if (c =? 48)%N then Some (0%N, r0)
                else if is_digit c
                     then let '(v, _, r1) := take_digits s1 0 0 in Some (v, r1)
                     else None
            end) as [[i s2]|] eqn:I; [|discriminate].
  assert (L2 : (List.length s2 < List.length s1)%nat).
  { destruct s1 as [|c s1']; [discriminate|].
    destruct (c =? 48)%N; [inversion I; subst; simpl; lia|].
    destruct (is_digit c) eqn:D; [|discriminate].
    cbn [take_digits] in I. rewrite D in I.
    destruct (take_digits s1' _ 1) as [[v k] r1] eqn:T.
    apply take_digits_length in T. inversion I; subst. simpl; lia. }
  destruct (parse_fraction s2 i) as [[[m k] s3]|] eqn:F; [|discriminate].
  apply parse_fraction_length in F.
  destruct (parse_exponent s3) as [[ex s4]|] eqn:X; [|discriminate].
  apply parse_exponent_length in X.
  inversion H; subst. lia.
Qed.

Lemma strip_prefix_length (p s r : jsstring) :
  strip_prefix p s = Some r ->
  (List.length r + List.length p = List.length s)%nat.
Proof.
  revert s; induction p as [|x p IH]; intros [|c s] H; simpl in *;
    try discriminate; try (inversion H; subst; simpl; lia).
  destruct (x =? c)%N; [|discriminate]. apply IH in H. lia.
Qed.

Lemma parse_literal_length (s r : jsstring) (v : json) :
  parse_literal s = POk v r -> (List.length r < List.length s)%nat.
Proof.
  unfold parse_literal. intros H.
  destruct (strip_prefix (js "true") s) eqn:E1.
  { apply strip_prefix_length in E1. inversion H; subst. simpl in E1. lia. }
  destruct (strip_prefix (js "false") s) eqn:E2.
  { apply strip_prefix_length in E2. inversion H; subst. simpl in E2. lia. }
  destruct (strip_prefix (js "null") s) eqn:E3.
  { apply strip_prefix_length in E3. inversion H; subst. simpl in E3. lia. }
  destruct (parse_number s) as [[n r0]|] eqn:E4; [|discriminate].
  apply parse_number_length in E4. inversion H; subst. exact E4.
Qed.

(** A value, a list of elements and a list of members each use up some of
    the text they are read from. *)
Lemma parse_value_length (fuel : nat) :
  (forall s v r, parse_value fuel s = POk v r ->
                 (List.length r < List.length s)%nat)
  /\ (forall s acc v r, parse_elements fuel s acc = POk v r ->
                        (List.length r < List.length s)%nat)
  /\ (forall s acc v r, parse_members fuel s acc = POk v r ->
                        (List.length r < List.length s)%nat).
Proof.
  induction fuel as [|f (IHv & IHe & IHm)];
    [repeat split; intros; discriminate|].
  repeat split.
  - intros s v r H. cbn [parse_value] in H.
    destruct (skip_ws s) as [|c r0] eqn:W; [discriminate|].
    apply skip_ws_cons in W.
    destruct (c =? 123)%N.
    { destruct (skip_ws r0) as [|c' r'] eqn:W'; [discriminate|].
      apply skip_ws_cons in W'.
      destruct (c' =? 125)%N; [inversion H; subst; lia|].
      apply IHm in H. simpl in H. lia. }
    destruct (c =? 91)%N.
    { destruct (skip_ws r0) as [|c' r'] eqn:W'; [discriminate|].
      apply skip_ws_cons in W'.
      destruct (c' =? 93)%N; [inversion H; subst; lia|].
      apply IHe in H. simpl in H. lia. }
    destruct (c =? 34)%N.
    { destruct (parse_string_body r0 []) as [[str r']|] eqn:B;
        [|discriminate].
      apply (@parse_string_body_length _ _ _ _ _ (le_n _)) in B.
      inversion H; subst. lia. }
    apply parse_literal_length in H. simpl in H. lia.
  - intros s acc v r H. cbn [parse_elements] in H.
    destruct (parse_value f s) as [v0 r0| |] eqn:V; try discriminate.
    apply IHv in V.
    destruct (skip_ws r0) as [|c r'] eqn:W; [discriminate|].
    apply skip_ws_cons in W.
    destruct (c =? 44)%N; [apply IHe in H; lia|].
    destruct (c =? 93)%N; [|discriminate]. inversion H; subst. lia.
  - intros s acc v r H. cbn [parse_members] in H.
    destruct (skip_ws s) as [|q r0] eqn:W; [discriminate|].
    apply skip_ws_cons in W.
    destruct (q =? 34)%N; [|discriminate].
    destruct (parse_string_body r0 []) as [[key r1]|] eqn:B; [|discriminate].
    apply (@parse_string_body_length _ _ _ _ _ (le_n _)) in B.
    destruct (skip_ws r1) as [|c r2] eqn:W1; [discriminate|].
    apply skip_ws_cons in W1.
    destruct (c =? 58)%N; [|discriminate].
    destruct (parse_value f r2) as [v0 r3| |] eqn:V; try discriminate.
    apply IHv in V.
    destruct (skip_ws r3) as [|d r4] eqn:W3; [discriminate|].
    apply skip_ws_cons in W3.
    destruct (d =? 44)%N; [apply IHm in H; lia|].
    destruct (d =? 125)%N; [|discriminate]. inversion H; subst. lia.
Qed.

Lemma parse_literal_no_fuel (s : jsstring) : parse_literal s <> PFuel.
Proof.
  unfold parse_literal.
  destruct (strip_prefix (js "true") s); [discriminate|].
  destruct (strip_prefix (js "false") s); [discriminate|].
  destruct (strip_prefix (js "null") s); [discriminate|].
  destruct (parse_number s) as [[n r]|]; discriminate.
Qed.

(** With fuel above twice the length of the text, no parser stops for
    want of fuel. *)
Lemma parse_value_enough_fuel (fuel : nat) :
  (forall s, (2 * List.length s < fuel)%nat -> parse_value fuel s <> PFuel)
  /\ (forall s acc, (2 * List.length s + 2 <= fuel)%nat ->
                    parse_elements fuel s acc <> PFuel)
  /\ (forall s acc, (2 * List.length s + 2 <= fuel)%nat ->
                    parse_members fuel s acc <> PFuel).
Proof.
  induction fuel as [|f (IHv & IHe & IHm)]; [repeat split; intros; lia|].
  repeat split.
  - intros s L. cbn [parse_value].
    destruct (skip_ws s) as [|c r0] eqn:W; [discriminate|].
    apply skip_ws_cons in W.
    destruct (c =? 123)%N.
    { destruct (skip_ws r0) as [|c' r'] eqn:W'; [discriminate|].
      apply skip_ws_cons in W'.
      destruct (c' =? 125)%N; [discriminate|].
      apply IHm. simpl. lia. }
    destruct (c =? 91)%N.
    { destruct (skip_ws r0) as [|c' r'] eqn:W'; [discriminate|].
      apply skip_ws_cons in W'.
      destruct (c' =? 93)%N; [discriminate|].
      apply IHe. simpl. lia. }
    destruct (c =? 34)%N.
    { destruct (parse_string_body r0 []) as [[str r']|]; discriminate. }
    apply parse_literal_no_fuel.
  - intros s acc L. cbn [parse_elements].
    pose proof (IHv s) as Hv.
    destruct (parse_value f s) as [v0 r0| |] eqn:V;
      [|discriminate|exfalso; apply Hv; [lia | reflexivity]].
    apply (proj1 (parse_value_length f)) in V.
    destruct (skip_ws r0) as [|c r'] eqn:W; [discriminate|].
    apply skip_ws_cons in W.
    destruct (c =? 44)%N; [apply IHe; lia|].
    destruct (c =? 93)%N; discriminate.
  - intros s acc L. cbn [parse_members].
    destruct (skip_ws s) as [|q r0] eqn:W; [discriminate|].
    apply skip_ws_cons in W.
    destruct (q =? 34)%N; [|discriminate].
    destruct (parse_string_body r0 []) as [[key r1]|] eqn:B; [|discriminate].
    apply (@parse_string_body_length _ _ _ _ _ (le_n _)) in B.
    destruct (skip_ws r1) as [|c r2] eqn:W1; [discriminate|].
    apply skip_ws_cons in W1.
    destruct (c =? 58)%N; [|discriminate].
    pose proof (IHv r2) as Hv.
    destruct (parse_value f r2) as [v0 r3| |] eqn:V;
      [|discriminate|exfalso; apply Hv; [lia | reflexivity]].
    apply (proj1 (parse_value_length f)) in V.
    destruct (skip_ws r3) as [|d r4] eqn:W3; [discriminate|].
    apply skip_ws_cons in W3.
    destruct (d =? 44)%N; [apply IHm; lia|].
    destruct (d =? 125)%N; discriminate.
Qed.

(** [JSON_parse] gives [None] for a syntax error only: the fuel it starts
    with is never used up. *)
Lemma JSON_parse_fuel (text : jsstring) :
  parse_value (parse_fuel text) text <> PFuel.
Proof.
  apply (proj1 (parse_value_enough_fuel (parse_fuel text))).
  unfold parse_fuel. lia.
Qed.

(** ** The stream decoder *)

Lemma split_nl_not_nil (s : jsstring) : split_nl s <> [].
Proof.
  induction s as [|c s IH]; simpl; [discriminate|].
  destruct (c =? 10)%N; [discriminate|].
  destruct (split_nl s); [congruence | discriminate].
Qed.

(** Splitting goes through a newline. *)
Lemma split_nl_app (a b : jsstring) :
  split_nl (a ++ 10%N :: b) = split_nl a ++ split_nl b.
Proof.
  induction a as [|c a IH]; simpl; [reflexivity|].
  destruct (c =? 10)%N; rewrite IH; [reflexivity|].
  pose proof (split_nl_not_nil a).
  destruct (split_nl a); [congruence | reflexivity].
Qed.

Lemma split_nl_line (s : jsstring) : no_newline s -> split_nl s = [s].
Proof.
  induction 1 as [|c s Hc _ IH]; simpl; [reflexivity|].
  apply N.eqb_neq in Hc. rewrite Hc, IH. reflexivity.
Qed.

Lemma chunk_lines_app (a b : jsstring) :
  chunk_lines (a ++ 10%N :: b) = chunk_lines a ++ chunk_lines b.
Proof. unfold chunk_lines. rewrite split_nl_app. apply filter_app. Qed.

Lemma chunk_lines_line (s : jsstring) :
  no_newline s -> chunk_lines s = if str_truthy (trim s) then [s] else [].
Proof. intros H. unfold chunk_lines. rewrite split_nl_line by exact H. reflexivity. Qed.

Lemma decode_lines_app (l1 l2 : list jsstring) (k : gen json) :
  decode_lines (l1 ++ l2) k = decode_lines l1 (decode_lines l2 k).
Proof.
  induction l1 as [|line l1 IH]; simpl; [reflexivity|].
  rewrite IH. reflexivity.
Qed.

(** A line that is not JSON leaves no trace. *)
Lemma decode_malformed_line (s : jsstring) (k : gen json) :
  no_newline s -> JSON_parse s = None -> decode_lines (chunk_lines s) k = k.
Proof.
  intros Hs Hp. rewrite chunk_lines_line by exact Hs.
  destruct (str_truthy (trim s)); simpl; [rewrite Hp|]; reflexivity.
Qed.

Lemma trimStart_nil (s : jsstring) :
  trimStart s = [] -> forallb is_js_space s = true.
Proof.
  induction s as [|c s IH]; simpl; [reflexivity|].
  destruct (is_js_space c); [exact IH | discriminate].
Qed.

Lemma trimStart_head (s r : jsstring) (c : code_unit) :
  trimStart s = c :: r -> is_js_space c = false.
Proof.
  induction s as [|d s IH]; simpl; [discriminate|].
  destruct (is_js_space d) eqn:E; [exact IH | congruence].
Qed.

(** A string that [trim] empties is made of white space. *)
Lemma trim_nil (s : jsstring) :
  str_truthy (trim s) = false -> forallb is_js_space s = true.
Proof.
  unfold trim, trimEnd. intros H. apply trimStart_nil.
  destruct (trimStart s) as [|c r] eqn:E; [reflexivity|]. exfalso.
  apply trimStart_head in E.
  assert (T : trimStart (rev (c :: r)) = []).
  { destruct (trimStart (rev (c :: r))) as [|x t] eqn:Et; [reflexivity|].
    rewrite ?Et in H. destruct (rev (x :: t)) eqn:Er; [|discriminate].
    apply (f_equal (@List.length _)) in Er.
    rewrite length_rev in Er. discriminate. }
  apply trimStart_nil in T. rewrite forallb_forall in T.
  specialize (T c). rewrite E in T.
  assert (false = true); [|discriminate].
  apply T. apply in_rev. rewrite rev_involutive. left; reflexivity.
Qed.

Lemma skip_ws_spaces (s : jsstring) :
  forallb is_js_space s = true ->
  skip_ws s = []
  \/ exists c r, skip_ws s = c :: r
                 /\ is_js_space c = true /\ is_json_ws c = false.
Proof.
  induction s as [|c s IH]; simpl; [auto|].
  intros H. apply andb_true_iff in H. destruct H as [Hc Hs].
  destruct (is_json_ws c) eqn:E; [auto|].
  right. exists c, s. auto.
Qed.

(** No JSON text starts with white space that JSON does not know. *)
Lemma parse_literal_space (c : code_unit) (r : jsstring) :
  is_js_space c = true -> is_json_ws c = false ->
  ((c =? 123) || (c =? 91) || (c =? 34))%N = false
  /\ parse_literal (c :: r) = PSyntaxError.
Proof.
  unfold is_js_space, is_json_ws. intros Hs Hw.
  repeat rewrite ?orb_true_iff, ?andb_true_iff, ?orb_false_iff,
    ?N.leb_le, ?N.eqb_eq, ?N.eqb_neq in *.
  assert (R : (c = 11 \/ c = 12 \/ 160 <= c)%N) by lia.
  split.
  - repeat rewrite ?orb_false_iff, ?N.eqb_neq. lia.
  - unfold parse_literal, parse_number, is_digit.
    cbn [js list_ascii_of_string map strip_prefix].
    change (N_of_ascii "t") with 116%N. change (N_of_ascii "f") with 102%N.
    change (N_of_ascii "n") with 110%N.
    replace (116 =? c)%N with false by (symmetry; apply N.eqb_neq; lia).
    replace (102 =? c)%N with false by (symmetry; apply N.eqb_neq; lia).
    replace (110 =? c)%N with false by (symmetry; apply N.eqb_neq; lia).
    replace (c =? 45)%N with false by (symmetry; apply N.eqb_neq; lia).
    replace (c =? 48)%N with false by (symmetry; apply N.eqb_neq; lia).
    replace ((48 <=? c) && (c <=? 57))%N with false; [reflexivity|].
    symmetry. apply andb_false_iff. rewrite !N.leb_gt. lia.
Qed.

(** A blank line is not JSON. *)
Lemma blank_not_json (s : jsstring) :
  str_truthy (trim s) = false -> JSON_parse s = None.
Proof.
  intros H. apply trim_nil, skip_ws_spaces in H.
  unfold JSON_parse, parse_fuel. cbn [parse_value].
  destruct H as [->|(c & r & -> & Hs & Hw)]; [reflexivity|].
  destruct (parse_literal_space c r Hs Hw) as [Hb Hl].
  repeat rewrite orb_false_iff in Hb. destruct Hb as [[-> ->] ->].
  rewrite Hl. reflexivity.
Qed.

(** A frame with content and without [done] yields its content. *)
Lemma decode_frame_line (s : jsstring) (data c : json) (k : gen json) :
  no_newline s -> JSON_parse s = Some data ->
  message_content data = Some c -> truthy c = true ->
  opt_truthy (get_prop data (js "done")) = false ->
  decode_lines (chunk_lines s) k = GYield c k.
Proof.
  intros Hs Hp Hc Ht Hd. rewrite chunk_lines_line by exact Hs.
  destruct (str_truthy (trim s)) eqn:E.
  - cbn [decode_lines]. rewrite Hp.
    destruct data; try (rewrite Hc, Ht, Hd; reflexivity).
    discriminate.
  - apply blank_not_json in E. congruence.
Qed.

(** What the decoder does with the reads to come depends on their trace
    only. *)
Lemma read_loop_reads_of (before : list jsstring) (r r' : Reads) :
  read_loop r = read_loop r' ->
  read_loop (reads_of before r) = read_loop (reads_of before r').
Proof.
  intros H. induction before as [|c before IH]; simpl; [exact H|].
  rewrite IH. reflexivity.
Qed.

Lemma gen_of_app A (l1 l2 : list A) (k : gen A) :
  gen_of (l1 ++ l2) k = gen_of l1 (gen_of l2 k).
Proof. induction l1; simpl; congruence. Qed.





Lemma whole_lines_app (a b : list jsstring) :
  whole_lines (a ++ b) = whole_lines a ++ whole_lines b.
Proof. unfold whole_lines. rewrite map_app. apply concat_app. Qed.

Lemma whole_lines_cons (line : jsstring) (lines : list jsstring)
    (t : jsstring) :
  whole_lines (line :: lines) ++ t = line ++ 10%N :: whole_lines lines ++ t.
Proof.
  unfold whole_lines. cbn [map concat]. rewrite <- !app_assoc. reflexivity.
Qed.

(** A content frame yields its text, unless the text is empty. *)
Lemma decode_content_line (line fragment : jsstring) (k : gen json) :
  content_line line fragment ->
  decode_lines (chunk_lines line) k
  = if str_truthy fragment then GYield (JString fragment) k else k.
Proof.
  intros (Hn & data & Hp & Hc & Hd). rewrite chunk_lines_line by exact Hn.
  destruct (str_truthy (trim line)) eqn:E.
  - cbn [decode_lines]. rewrite Hp.
    destruct data; try discriminate Hc.
    rewrite Hc, Hd. cbn [truthy]. destruct (str_truthy fragment); reflexivity.
  - apply blank_not_json in E. congruence.
Qed.


(** Whole content frames at the head of a chunk yield their texts, in
    order, the empty ones apart. *)
Lemma decode_whole_lines (lines fragments : list jsstring) (t : jsstring)
    (k : gen json) :
  Forall2 content_line lines fragments ->
  decode_lines (chunk_lines (whole_lines lines ++ t)) k
  = gen_of (map JString (filter str_truthy fragments))
      (decode_lines (chunk_lines t) k).
Proof.
  induction 1 as [|line f lines fs Hl _ IH]; [reflexivity|].
  rewrite whole_lines_cons, chunk_lines_app, decode_lines_app, IH.
  rewrite (decode_content_line _ Hl). cbn [filter].
  destruct (str_truthy f); reflexivity.
Qed.

Lemma decode_whole_chunk (lines fragments : list jsstring) (k : gen json) :
  Forall2 content_line lines fragments ->
  decode_lines (chunk_lines (whole_lines lines)) k
  = gen_of (map JString (filter str_truthy fragments)) k.
Proof.
  intros H. rewrite <- (app_nil_r (whole_lines lines)).
  rewrite (decode_whole_lines [] k H). reflexivity.
Qed.

(** Chunks of whole content frames. *)
Lemma read_loop_whole_lines (groups : list (list jsstring))
    (fragments : list jsstring) (tail : Reads) :
  Forall2 content_line (concat groups) fragments ->
  read_loop (reads_of (map whole_lines groups) tail)
  = gen_of (map JString (filter str_truthy fragments)) (read_loop tail).
Proof.
  revert fragments. induction groups as [|g groups IH]; intros fragments H.
  - inversion H; subst. reflexivity.
  - cbn [concat] in H. apply Forall2_app_inv_l in H.
    destruct H as (f1 & f2 & H1 & H2 & ->).
    cbn [map reads_of read_loop].
    rewrite (decode_whole_chunk _ H1), (IH _ H2).
    rewrite filter_app, map_app, gen_of_app. reflexivity.
Qed.

(** C5. A line that is not valid JSON, standing among the lines of a
    chunk, is skipped. The stream is what it would be without the line: it
    does not end there and does not throw. A valid frame that follows the
    line yields its content; and a chunk that holds the line among content
    frames yields the texts of all of them, of those before the line and
    of those after it, in this chunk and in the chunks that follow. *)
Theorem streamChat_skips_malformed_line (before : list jsstring)
    (pre bad post : jsstring) (rest : Reads) :
  no_newline bad -> JSON_parse bad = None ->
  streamChat
    (Response true
       (Some (reads_of before
                (ReadChunk (pre ++ 10%N :: bad ++ 10%N :: post) rest))))
  = streamChat
      (Response true
         (Some (reads_of before (ReadChunk (pre ++ 10%N :: post) rest))))
  /\ (forall line data c,
         no_newline line -> JSON_parse line = Some data ->
         message_content data = Some c -> truthy c = true ->
         opt_truthy (get_prop data (js "done")) = false ->
         streamChat
           (Response true
              (Some (ReadChunk
                       (pre ++ 10%N :: bad ++ 10%N :: line ++ 10%N :: post)
                       rest)))
         = decode_lines (chunk_lines pre)
             (GYield c
                (decode_lines (chunk_lines post)
                   (streamChat (Response true (Some rest))))))
  /\ (forall groups lines_before lines_after later fs_before fs_after,
         Forall2 content_line (concat groups ++ lines_before) fs_before ->
         Forall2 content_line (lines_after ++ concat later) fs_after ->
         streamChat
           (Response true
              (Some (reads_of (map whole_lines groups)
                       (ReadChunk
                          (whole_lines (lines_before ++ bad :: lines_after))
                          (reads_of (map whole_lines later) rest)))))
         = gen_of (map JString (filter str_truthy (fs_before ++ fs_after)))
             (streamChat (Response true (Some rest)))).
Proof.
  intros Hn Hp. cbn [streamChat]. split; [|split].
  - apply read_loop_reads_of.
    cbn [read_loop]. rewrite !chunk_lines_app, !decode_lines_app.
    rewrite (decode_malformed_line _ Hn Hp). reflexivity.
  - intros line data c Ln Lp Lc Lt Ld. cbn [read_loop].
    rewrite !chunk_lines_app, !decode_lines_app.
    rewrite (decode_malformed_line _ Hn Hp).
    rewrite (decode_frame_line _ Ln Lp Lc Lt Ld). reflexivity.
  - intros groups lb la later fb fa Hb Ha.
    apply Forall2_app_inv_l in Hb. destruct Hb as (f1 & f2 & H1 & H2 & ->).
    apply Forall2_app_inv_l in Ha. destruct Ha as (f3 & f4 & H3 & H4 & ->).
    rewrite (read_loop_whole_lines _ _ H1). cbn [read_loop].
    rewrite (read_loop_whole_lines _ _ H4).
    rewrite whole_lines_app.
    rewrite <- (app_nil_r (whole_lines (bad :: la))), whole_lines_cons.
    rewrite app_nil_r.
    rewrite (decode_whole_lines _ _ H2).
    rewrite chunk_lines_app, decode_lines_app.
    rewrite (decode_malformed_line _ Hn Hp).
    rewrite (decode_whole_chunk _ H3).
    rewrite !filter_app, !map_app, !gen_of_app. reflexivity.
Qed.

(** C4, as the code has it. The decoder keeps nothing from one chunk to
    the next: each chunk is cut at its newlines and each line is parsed by
    itself. A frame that lies within one chunk yields its content. The two
    pieces of a frame cut by a chunk boundary are two lines, and when
    neither is valid JSON both are skipped: the stream is what it would be
    without the frame. *)
Theorem streamChat_decodes_chunk_by_chunk (pre post : jsstring)
    (rest : Reads) :
  (forall line data c,
      no_newline line -> JSON_parse line = Some data ->
      message_content data = Some c -> truthy c = true ->
      opt_truthy (get_prop data (js "done")) = false ->
      read_loop (ReadChunk (pre ++ 10%N :: line ++ 10%N :: post) rest)
      = decode_lines (chunk_lines pre)
          (GYield c (decode_lines (chunk_lines post) (read_loop rest))))
  /\ (forall a b,
         no_newline a -> no_newline b ->
         JSON_parse a = None -> JSON_parse b = None ->
         read_loop
           (ReadChunk (pre ++ 10%N :: a) (ReadChunk (b ++ 10%N :: post) rest))
         = read_loop (ReadChunk pre (ReadChunk post rest))).
Proof.
  split.
  - intros line data c Hn Hp Hc Ht Hd. cbn [read_loop].
    rewrite !chunk_lines_app, !decode_lines_app.
    rewrite (decode_frame_line _ Hn Hp Hc Ht Hd). reflexivity.
  - intros a b Ha Hb Pa Pb. cbn [read_loop].
    rewrite !chunk_lines_app, !decode_lines_app.
    rewrite (decode_malformed_line _ Ha Pa), (decode_malformed_line _ Hb Pb).
    reflexivity.
Qed.

(** ** From the frames of the backend to the stored reply *)



(** * The properties at work on the sample data *)

Lemma no_newlineb_sound (s : jsstring) : no_newlineb s = true -> no_newline s.
Proof.
  unfold no_newlineb, no_newline. rewrite forallb_forall, Forall_forall.
  intros H c Hc. apply N.eqb_neq, negb_true_iff, H, Hc.
Qed.

Lemma sample_store_reachable : reachable sample_store.
Proof. unfold sample_store. repeat constructor. Qed.

(** The sample frames are frames. *)
Ltac frame_line line :=
  split;
  [ apply no_newlineb_sound; vm_compute; reflexivity
  | exists (or_else (JSON_parse line) JNull);
    split; [vm_compute; reflexivity|];
    split; vm_compute; reflexivity ].

Lemma sample_frame_line : content_line sample_frame (js "Hello").
Proof. frame_line sample_frame. Qed.

Lemma sample_next_frame_line : content_line sample_next_frame (js " there").
Proof. frame_line sample_next_frame. Qed.

Lemma sample_frame_Hel_line : content_line sample_frame_Hel (js "Hel").
Proof. frame_line sample_frame_Hel. Qed.

Lemma sample_frame_lo_line : content_line sample_frame_lo (js "lo").
Proof. frame_line sample_frame_lo. Qed.

Lemma sample_frame_empty_line : content_line sample_frame_empty [].
Proof. frame_line sample_frame_empty. Qed.


Ltac frame_lines :=
  cbn [concat app];
  repeat (apply Forall2_cons;
          [ first [ exact sample_frame_line | exact sample_next_frame_line
                  | exact sample_frame_Hel_line | exact sample_frame_lo_line
                  | exact sample_frame_empty_line ] | ]);
  apply Forall2_nil.


(** Appending a message to the conversation [c1], which was created at
    time 10, at time 30 through the store and at time 60 through the chat
    stream, leaves its [updatedAt] at 10. *)
Lemma append_does_not_refresh_updatedAt :
  let s0 :=
    fst (createConversation (env "c1" 10)
           (InsertConversation.mk (js "First") (js "llama3")) newStorage) in
  let s1 :=
    fst (createMessage (env "m1" 30)
           (InsertMessage.mk (js "c1") user (js "Hello")) s0) in
  let s2 :=
    fst (chat (env "m2" 60) (js "c1") (gen_of [js "Hi"] GReturn) s1) in
  (exists c, getConversation (js "c1") s1 = Some c
             /\ Conversation.updatedAt c = 10%Z
             /\ Conversation.updatedAt c <> now (env "m1" 30))
  /\ (exists c, getConversation (js "c1") s2 = Some c
                /\ Conversation.updatedAt c = 10%Z
                /\ Conversation.updatedAt c <> now (env "m2" 60)).
Proof.
  split; eexists; (split; [vm_compute; reflexivity|]);
    split; [reflexivity | discriminate | reflexivity | discriminate].
Qed.

(** A frame that one chunk carries whole yields [Hello]; the same text cut
    after [Hel] by a chunk boundary yields nothing. *)
Lemma split_frame_is_lost :
  yields
    (streamChat
       (Response true
          (Some (ReadChunk (sample_frame_head ++ sample_frame_tail ++ [10%N])
                   ReadDone))))
  = [JString (js "Hello")]
  /\ streamChat
       (Response true
          (Some (ReadChunk sample_frame_head
                   (ReadChunk (sample_frame_tail ++ [10%N]) ReadDone))))
     = GReturn.
Proof. split; vm_compute; reflexivity. Qed.

Lemma updatedAt_moves_on_conversation_writes_only_witness :
  let e := env "u1" 70 in
  let updates :=
    PartialConversation.mk None (Some (js "Renamed")) None None None in
  let c := Conversation.mk (js "c1") (js "Renamed") (js "llama3") 10 70 in
  reachable sample_store
  /\ (forall c0, In c0 (getConversations sample_store) ->
                 (Conversation.createdAt c0 <= Conversation.updatedAt c0)%Z)
  /\ snd (updateConversation e (js "c1") updates sample_store) = Some c
  /\ (Conversation.createdAt c <= now e)%Z
  /\ (Conversation.createdAt c <= Conversation.updatedAt c)%Z.
Proof.
  intros e updates c.
  assert (H : snd (updateConversation e (js "c1") updates sample_store)
              = Some c) by (vm_compute; reflexivity).
  assert (L : (Conversation.createdAt c <= now e)%Z)
    by (vm_compute; discriminate).
  pose proof (updatedAt_moves_on_conversation_writes_only e sample_store)
    as (T1 & _ & T3 & _).
  split; [exact sample_store_reachable|].
  split; [exact (T1 sample_store_reachable)|].
  split; [exact H|]. split; [exact L|].
  exact (proj2 (proj2 (T3 (js "c1") updates c H)) L).
Defined.

Lemma streamChat_decodes_chunk_by_chunk_witness :
  (no_newline sample_frame
   /\ JSON_parse sample_frame = Some sample_frame_data
   /\ message_content sample_frame_data = Some sample_frame_content
   /\ truthy sample_frame_content = true
   /\ opt_truthy (get_prop sample_frame_data (js "done")) = false
   /\ read_loop
        (ReadChunk (sample_garbage ++ 10%N :: sample_frame ++ 10%N :: [])
           ReadDone)
      = decode_lines (chunk_lines sample_garbage)
          (GYield sample_frame_content
             (decode_lines (chunk_lines []) (read_loop ReadDone))))
  /\ no_newline sample_frame_head /\ no_newline sample_frame_tail
  /\ JSON_parse sample_frame_head = None
  /\ JSON_parse sample_frame_tail = None
  /\ read_loop
       (ReadChunk (sample_frame ++ 10%N :: sample_frame_head)
          (ReadChunk (sample_frame_tail ++ 10%N :: sample_next_frame)
             ReadDone))
     = read_loop (ReadChunk sample_frame (ReadChunk sample_next_frame ReadDone)).
Proof.
  assert (Hf : no_newline sample_frame)
    by (apply no_newlineb_sound; vm_compute; reflexivity).
  assert (Pf : JSON_parse sample_frame = Some sample_frame_data)
    by (vm_compute; reflexivity).
  assert (Cf : message_content sample_frame_data = Some sample_frame_content)
    by (vm_compute; reflexivity).
  assert (Tf : truthy sample_frame_content = true) by reflexivity.
  assert (Df : opt_truthy (get_prop sample_frame_data (js "done")) = false)
    by (vm_compute; reflexivity).
  assert (Ha : no_newline sample_frame_head)
    by (apply no_newlineb_sound; vm_compute; reflexivity).
  assert (Hb : no_newline sample_frame_tail)
    by (apply no_newlineb_sound; vm_compute; reflexivity).
  assert (Pa : JSON_parse sample_frame_head = None)
    by (vm_compute; reflexivity).
  assert (Pb : JSON_parse sample_frame_tail = None)
    by (vm_compute; reflexivity).
  split.
  - repeat (split; [assumption|]).
    exact (proj1 (streamChat_decodes_chunk_by_chunk sample_garbage []
                    ReadDone)
             sample_frame sample_frame_data sample_frame_content
             Hf Pf Cf Tf Df).
  - repeat (split; [assumption|]).
    exact (proj2 (streamChat_decodes_chunk_by_chunk sample_frame
                    sample_next_frame ReadDone)
             sample_frame_head sample_frame_tail Ha Hb Pa Pb).
Defined.

Lemma streamChat_skips_malformed_line_witness :
  (no_newline sample_garbage /\ JSON_parse sample_garbage = None)
  /\ streamChat
       (Response true
          (Some (reads_of [sample_frame]
                   (ReadChunk
                      (sample_frame ++ 10%N :: sample_garbage
                         ++ 10%N :: sample_next_frame)
                      ReadDone))))
     = streamChat
         (Response true
            (Some (reads_of [sample_frame]
                     (ReadChunk (sample_frame ++ 10%N :: sample_next_frame)
                        ReadDone))))
  /\ (no_newline sample_frame
      /\ JSON_parse sample_frame = Some sample_frame_data
      /\ message_content sample_frame_data = Some sample_frame_content
      /\ truthy sample_frame_content = true
      /\ opt_truthy (get_prop sample_frame_data (js "done")) = false
      /\ streamChat
           (Response true
              (Some (ReadChunk
                       (sample_frame ++ 10%N :: sample_garbage
                          ++ 10%N :: sample_frame
                          ++ 10%N :: sample_next_frame)
                       ReadDone)))
         = decode_lines (chunk_lines sample_frame)
             (GYield sample_frame_content
                (decode_lines (chunk_lines sample_next_frame)
                   (streamChat (Response true (Some ReadDone))))))
  /\ (Forall2 content_line (concat [[sample_frame_Hel]] ++ [sample_frame])
        [js "Hel"; js "Hello"]
      /\ Forall2 content_line ([sample_next_frame] ++ concat [[sample_frame_lo]])
           [js " there"; js "lo"]
      /\ streamChat
           (Response true
              (Some (reads_of (map whole_lines [[sample_frame_Hel]])
                       (ReadChunk
                          (whole_lines
                             ([sample_frame]
                                ++ sample_garbage :: [sample_next_frame]))
                          (reads_of (map whole_lines [[sample_frame_lo]])
                             ReadDone)))))
         = gen_of
             (map JString
                (filter str_truthy
                   ([js "Hel"; js "Hello"] ++ [js " there"; js "lo"])))
             (streamChat (Response true (Some ReadDone)))).
Proof.
  assert (Hn : no_newline sample_garbage)
    by (apply no_newlineb_sound; vm_compute; reflexivity).
  assert (Hp : JSON_parse sample_garbage = None) by (vm_compute; reflexivity).
  assert (Hf : no_newline sample_frame)
    by (apply no_newlineb_sound; vm_compute; reflexivity).
  assert (Pf : JSON_parse sample_frame = Some sample_frame_data)
    by (vm_compute; reflexivity).
  assert (Cf : message_content sample_frame_data = Some sample_frame_content)
    by (vm_compute; reflexivity).
  assert (Tf : truthy sample_frame_content = true) by reflexivity.
  assert (Df : opt_truthy (get_prop sample_frame_data (js "done")) = false)
    by (vm_compute; reflexivity).
  assert (Hb : Forall2 content_line
                 (concat [[sample_frame_Hel]] ++ [sample_frame])
                 [js "Hel"; js "Hello"]).
  { frame_lines. }
  assert (Ha : Forall2 content_line
                 ([sample_next_frame] ++ concat [[sample_frame_lo]])
                 [js " there"; js "lo"]).
  { frame_lines. }
  pose proof (streamChat_skips_malformed_line [sample_frame] sample_frame
                sample_next_frame ReadDone Hn Hp) as (T1 & T2 & T3).
  split; [split; [exact Hn | exact Hp]|]. split; [exact T1|]. split.
  - repeat (split; [assumption|]).
    exact (T2 sample_frame sample_frame_data sample_frame_content
             Hf Pf Cf Tf Df).
  - split; [exact Hb|]. split; [exact Ha|].
    exact (T3 [[sample_frame_Hel]] [sample_frame] [sample_next_frame]
             [[sample_frame_lo]] _ _ Hb Ha).
Defined.

Lemma deleteConversation_cascade_witness :
  store_wf sample_store
  /\ JsMap.has (js "c1") (conversations sample_store) = true
  /\ JsMap.has (js "c9") (conversations sample_store) = false
  /\ (exists s', deleteConversation (js "c1") sample_store = (s', true)
                 /\ getMessages (js "c1") s' = [])
  /\ DELETE_conversation (js "c9") sample_store = (sample_store, 404%N).
Proof.
  assert (W : store_wf sample_store)
    by exact (reachable_wf sample_store_reachable).
  assert (H1 : JsMap.has (js "c1") (conversations sample_store) = true)
    by (vm_compute; reflexivity).
  assert (H9 : JsMap.has (js "c9") (conversations sample_store) = false)
    by (vm_compute; reflexivity).
  split; [exact W|]. split; [exact H1|]. split; [exact H9|]. split.
  - destruct (proj1 (deleteConversation_cascade (js "c1") W) H1)
      as (s' & E & _ & _ & M & _).
    exists s'. split; [exact E | exact M].
  - exact (proj2 (proj2 (deleteConversation_cascade (js "c9") W) H9)).
Defined.

Lemma createOrUpdateModel_twice_witness :
  let ins1 :=
    InsertOllamaModel.mk (js "mistral") (js "mistral") (Present None)
      (Present true) in
  let ins2 :=
    InsertOllamaModel.mk (js "mistral") (js "Mistral 7B") Missing
      (Present true) in
  store_wf sample_store
  /\ InsertOllamaModel.name ins2 = InsertOllamaModel.name ins1
  /\ let (s1, first) :=
       createOrUpdateModel (env "o2" 80) ins1 sample_store in
     let (s2, second) := createOrUpdateModel (env "o3" 90) ins2 s1 in
     models_named (InsertOllamaModel.name ins1) s2 = 1%nat
     /\ OllamaModel.id second = OllamaModel.id first.
Proof.
  intros ins1 ins2.
  assert (W : store_wf sample_store)
    by exact (reachable_wf sample_store_reachable).
  split; [exact W|]. split; [reflexivity|].
  exact (createOrUpdateModel_twice (env "o2" 80) (env "o3" 90) ins1 ins2
           W eq_refl).
Defined.

Lemma title_of_first_prompt_witness :
  let title :=
    js "Tell me a long story about a verified parser with ..." in
  handleSubmit_title sample_prompt false None = Some title
  /\ (50 < js_length (trim sample_prompt))%Z
  /\ title = slice0 50 (trim sample_prompt) ++ js "...".
Proof.
  intros title.
  assert (H : handleSubmit_title sample_prompt false None = Some title)
    by (vm_compute; reflexivity).
  assert (L : (50 < js_length (trim sample_prompt))%Z)
    by (vm_compute; reflexivity).
  split; [exact H|]. split; [exact L|].
  exact (proj1 (proj2 (title_of_first_prompt sample_prompt false H)) L).
Defined.


Lemma chat_commits_empty_reply_witness :
  let e := env "m3" 100 in
  yields (@GReturn jsstring) = [] /\ outcome (@GReturn jsstring) = Returned
  /\ JsMap.get (js "m3")
       (messages (fst (chat e (js "c1") GReturn sample_store)))
     = Some (Message.mk (js "m3") (js "c1") assistant [] 100).
Proof.
  intros e. split; [reflexivity|]. split; [reflexivity|].
  pose proof (@chat_commits_empty_reply e (js "c1") GReturn sample_store
                eq_refl eq_refl) as T.
  cbv zeta in T.
  destruct (chat e (js "c1") GReturn sample_store) as [s' log].
  exact (proj1 (proj2 T)).
Defined.

(** The reply [Hel], [lo], [done] of the backend, decoded and relayed: the
    client sees the two fragments and the terminal frame, and the store
    gains the message [Hello]. *)
Example relay_of_a_reply :
  text_stream (streamChat (Response true (Some sample_body)))
  = Some (gen_of [js "Hel"; js "lo"] GReturn)
  /\ frames
       (snd (chat (env "m3" 100) (js "c1")
               (gen_of [js "Hel"; js "lo"] GReturn) sample_store))
     = [ContentFrame (js "Hel") false; ContentFrame (js "lo") false;
        terminal_frame]
  /\ persisted
       (snd (chat (env "m3" 100) (js "c1")
               (gen_of [js "Hel"; js "lo"] GReturn) sample_store))
     = [Message.mk (js "m3") (js "c1") assistant (js "Hello") 100].
Proof. repeat split; vm_compute; reflexivity. Qed.

(** A reply that breaks off after [Par]: the client sees [Par] and an
    error frame, and the store is as it was. *)
Example relay_of_a_broken_reply :
  text_stream (streamChat (Response true (Some sample_broken_body)))
  = Some (gen_of [js "Par"] (GThrow (js "terminated")))
  /\ chat (env "m3" 100) (js "c1")
       (gen_of [js "Par"] (GThrow (js "terminated"))) sample_store
     = (sample_store,
        [WriteHead 200; Write (ContentFrame (js "Par") false);
         Write (ErrorFrame (js "Failed to generate response")); End]).
Proof. split; vm_compute; reflexivity. Qed.

(** A backend that answers with an error status: one error frame. *)
Example relay_of_a_refused_request :
  text_stream (streamChat (Response false None))
  = Some (GThrow (js "Failed to start chat"))
  /\ frames
       (snd (chat (env "m3" 100) (js "c1")
               (GThrow (js "Failed to start chat")) sample_store))
     = [ErrorFrame (js "Failed to generate response")].
Proof. split; vm_compute; reflexivity. Qed.

(** A prompt of 30 code units is its own title; a call without a prompt,
    or with the empty string, gives [New Chat]. *)
Example title_of_a_short_prompt :
  handleSubmit_title sample_short_prompt false None = Some sample_short_prompt
  /\ startNewConversation_title None = js "New Chat"
  /\ startNewConversation_title (Some []) = js "New Chat"
  /\ handleSubmit_title (js "   ") false None = None.
Proof. repeat split; vm_compute; reflexivity. Qed.

(** * Further properties of the record store *)

Section SortOrder.
Variable A : Type.
Variable cmp : A -> A -> Z.

(** A comparator that orders: of two elements one goes before the other,
    and going before carries over. *)
Hypothesis cmp_total : forall a b, (0 < cmp a b)%Z -> (cmp b a <= 0)%Z.
Hypothesis cmp_trans :
  forall a b c, (cmp a b <= 0)%Z -> (cmp b c <= 0)%Z -> (cmp a c <= 0)%Z.

Lemma sort_insert_ordered (x : A) (l : list A) :
  StronglySorted (fun a b => (cmp a b <= 0)%Z) l ->
  StronglySorted (fun a b => (cmp a b <= 0)%Z) (sort_insert cmp x l).
Proof.
  induction 1 as [|y l Hs IH Hy]; simpl.
  - repeat constructor.
  - destruct (Z.leb_spec (cmp x y) 0) as [Hxy|Hxy].
    + constructor; [constructor; assumption|].
      constructor; [exact Hxy|].
      eapply Forall_impl; [|exact Hy].
      intros z Hz. exact (cmp_trans Hxy Hz).
    + constructor; [exact IH|].
      rewrite Forall_forall in *. intros z Hz.
      apply (Permutation_in _ (Permutation_sym (sort_insert_perm cmp x l)))
        in Hz.
      destruct Hz as [<-|Hz]; [apply cmp_total, Hxy | auto].
Qed.

Lemma js_sort_ordered (l : list A) :
  StronglySorted (fun a b => (cmp a b <= 0)%Z) (js_sort cmp l).
Proof.
  induction l as [|x l IH]; simpl; [constructor|].
  apply sort_insert_ordered, IH.
Qed.
End SortOrder.

Section SortAppend.
Variable A : Type.
Variable cmp : A -> A -> Z.

(** An element that goes after all the others, added last, is sorted
    last. *)
Lemma js_sort_snoc_last (l : list A) (m : A) :
  (forall x, In x l -> (cmp x m <= 0)%Z) ->
  js_sort cmp (l ++ [m]) = js_sort cmp l ++ [m].
Proof.
  unfold js_sort. rewrite fold_right_app. simpl.
  induction l as [|x l IH]; intros H; simpl; [reflexivity|].
  rewrite IH by (intros y Hy; apply H; right; exact Hy).
  assert (Hx : (cmp x m <= 0)%Z) by (apply H; left; reflexivity).
  generalize (fold_right (sort_insert cmp) [] l). intros sorted.
  induction sorted as [|y sorted IHs]; simpl.
  - apply Z.leb_le in Hx. rewrite Hx. reflexivity.
  - destruct (cmp x y <=? 0)%Z; [reflexivity|]. rewrite IHs. reflexivity.
Qed.

(** An element that goes strictly before all the others, added last, is
    sorted first. *)
Lemma js_sort_snoc_first (l : list A) (m : A) :
  (forall x, In x l -> (0 < cmp x m)%Z) ->
  js_sort cmp (l ++ [m]) = m :: js_sort cmp l.
Proof.
  unfold js_sort. rewrite fold_right_app. simpl.
  induction l as [|x l IH]; intros H; simpl; [reflexivity|].
  rewrite IH by (intros y Hy; apply H; right; exact Hy).
  assert (Hx : (0 < cmp x m)%Z) by (apply H; left; reflexivity).
  simpl. apply Z.leb_gt in Hx. rewrite Hx. reflexivity.
Qed.
End SortAppend.

Lemma StronglySorted_weaken A (R R' : A -> A -> Prop) (l : list A) :
  (forall a b, R a b -> R' a b) ->
  StronglySorted R l -> StronglySorted R' l.
Proof.
  intros HR. induction 1 as [|a l _ IH Ha]; constructor; [exact IH|].
  eapply Forall_impl; [|exact Ha]. intros b. apply HR.
Qed.

(** X1. [getConversations] lists every stored conversation, each once for
    each time it is stored, with the most recently updated first. *)
Theorem getConversations_newest_first (s : MemStorage) :
  StronglySorted
    (fun a b => (Conversation.updatedAt b <= Conversation.updatedAt a)%Z)
    (getConversations s)
  /\ Permutation (JsMap.values (conversations s)) (getConversations s).
Proof.
  split; [|apply js_sort_perm].
  unfold getConversations.
  eapply StronglySorted_weaken; [|apply js_sort_ordered].
  - cbv beta. intros a b H. lia.
  - cbv beta. intros a b H. lia.
  - cbv beta. intros a b c H1 H2. lia.
Qed.

(** X2. A conversation created under an id the store does not hold, at a
    time after every stored [updatedAt], can be looked up under its id and
    heads the list of conversations, the rest of which is as before. *)
Theorem createConversation_listed_first (e : Env)
    (ins : InsertConversation.t) (s : MemStorage) :
  getConversation (uuid e) s = None ->
  (forall c, In c (JsMap.values (conversations s)) ->
             (Conversation.updatedAt c < now e)%Z) ->
  let (s', created) := createConversation e ins s in
  getConversation (uuid e) s' = Some created
  /\ Conversation.title created = InsertConversation.title ins
  /\ Conversation.model created = InsertConversation.model ins
  /\ getConversations s' = created :: getConversations s
  /\ messages s' = messages s.
Proof.
  intros Hfresh Hclock. unfold createConversation, getConversation in *.
  cbn [conversations messages].
  split; [apply set_get|]. split; [reflexivity|]. split; [reflexivity|].
  split; [|reflexivity].
  unfold getConversations. cbn [conversations].
  rewrite set_fresh by exact Hfresh.
  unfold JsMap.values. rewrite map_app. cbn [map snd].
  apply js_sort_snoc_first.
  intros c Hc. cbn [Conversation.updatedAt].
  specialize (Hclock c Hc). lia.
Qed.

(** X3. A message created under an id the store does not hold, no earlier
    than the messages its conversation already has, comes last in the
    messages of its conversation, which are otherwise as before; the
    messages of the other conversations are as before. *)
Theorem createMessage_appends_to_history (e : Env) (ins : InsertMessage.t)
    (s : MemStorage) :
  JsMap.get (uuid e) (messages s) = None ->
  (forall m, In m (getMessages (InsertMessage.conversationId ins) s) ->
             (Message.timestamp m <= now e)%Z) ->
  let (s', created) := createMessage e ins s in
  getMessages (InsertMessage.conversationId ins) s'
  = getMessages (InsertMessage.conversationId ins) s ++ [created]
  /\ Message.content created = InsertMessage.content ins
  /\ Message.role created = InsertMessage.role ins
  /\ (forall other, other <> InsertMessage.conversationId ins ->
                    getMessages other s' = getMessages other s).
Proof.
  intros Hfresh Hclock. unfold createMessage. cbn zeta.
  assert (Hv : forall c,
             filter (fun msg => str_eqb (Message.conversationId msg) c)
               (JsMap.values
                  (JsMap.set (uuid e)
                     (Message.mk (uuid e) (InsertMessage.conversationId ins)
                        (InsertMessage.role ins) (InsertMessage.content ins)
                        (now e))
                     (messages s)))
             = filter (fun msg => str_eqb (Message.conversationId msg) c)
                 (JsMap.values (messages s))
               ++ (if str_eqb (InsertMessage.conversationId ins) c
                   then [Message.mk (uuid e) (InsertMessage.conversationId ins)
                           (InsertMessage.role ins) (InsertMessage.content ins)
                           (now e)]
                   else [])).
  { intros c. rewrite set_fresh by exact Hfresh.
    unfold JsMap.values. rewrite map_app, filter_app. reflexivity. }
  split; [|split; [reflexivity|split; [reflexivity|]]].
  - unfold getMessages in *. cbn [messages]. rewrite Hv, str_eqb_refl.
    apply js_sort_snoc_last. intros m Hm.
    cbn [Message.timestamp].
    specialize (Hclock m (proj2 (js_sort_In _ _ m) Hm)). lia.
  - intros other Hne. unfold getMessages. cbn [messages]. rewrite Hv.
    replace (str_eqb (InsertMessage.conversationId ins) other) with false
      by (symmetry; apply str_eqb_neq; congruence).
    rewrite app_nil_r. reflexivity.
Qed.

Lemma get_set_other V (k k' : jsstring) (v : V) (m : JsMap.t V) :
  k' <> k -> JsMap.get k' (JsMap.set k v m) = JsMap.get k' m.
Proof.
  intros Hne. induction m as [|[k0 v0] m IH]; simpl.
  - replace (str_eqb k k') with false
      by (symmetry; apply str_eqb_neq; congruence). reflexivity.
  - destruct (str_eqb k0 k) eqn:E; simpl.
    + apply str_eqb_eq in E; subst k0.
      replace (str_eqb k k') with false
        by (symmetry; apply str_eqb_neq; congruence). reflexivity.
    + rewrite IH. reflexivity.
Qed.

Lemma set_length V (k : jsstring) (v : V) (m : JsMap.t V) :
  List.length (JsMap.set k v m)
  = match JsMap.get k m with
    | Some _ => List.length m
    | None => S (List.length m)
    end.
Proof.
  induction m as [|[k0 v0] m IH]; simpl; [reflexivity|].
  destruct (str_eqb k0 k); simpl; [reflexivity|].
  rewrite IH. destruct (JsMap.get k m); reflexivity.
Qed.

(** X4. [updateConversation] on an id the store does not hold changes
    nothing and returns nothing. On an id it holds, the object it builds
    has the time of the call as [updatedAt], and for every other property
    the value of the update when the property is present there, be it
    [undefined], and the stored value when it is missing. When a property
    other than [updatedAt] is present with [undefined], the object is no
    conversation record. When none is, the object is a conversation
    record, which is stored under the same id and returned; the other
    conversations, their number, the messages and the models are as
    before. *)
Theorem updateConversation_touches_one (e : Env) (id : jsstring)
    (updates : ConversationUpdate.t) (s : MemStorage) :
  match getConversation id s with
  | None => forall p, updateConversation e id p s = (s, None)
  | Some c =>
      let updated := updateConversation_updated c updates (now e) in
      UpdatedConversation.updatedAt updated = now e
      /\ UpdatedConversation.title updated
         = match ConversationUpdate.title updates with
           | Missing => Some (Conversation.title c)
           | Present v => v
           end
      /\ UpdatedConversation.model updated
         = match ConversationUpdate.model updates with
           | Missing => Some (Conversation.model c)
           | Present v => v
           end
      /\ (defined_update updates = None ->
          forall c', as_updated c' <> updated)
      /\ (forall p, defined_update updates = Some p ->
          exists c',
            as_updated c' = updated
            /\ snd (updateConversation e id p s) = Some c'
            /\ getConversation id (fst (updateConversation e id p s))
               = Some c'
            /\ (forall other, other <> id ->
                  getConversation other (fst (updateConversation e id p s))
                  = getConversation other s)
            /\ List.length (conversations (fst (updateConversation e id p s)))
               = List.length (conversations s)
            /\ messages (fst (updateConversation e id p s)) = messages s
            /\ models (fst (updateConversation e id p s)) = models s)
  end.
Proof.
  unfold getConversation.
  destruct (JsMap.get id (conversations s)) as [c|] eqn:G.
  2:{ intros p. unfold updateConversation. rewrite G. reflexivity. }
  cbv zeta. split; [reflexivity|]. split; [reflexivity|].
  split; [reflexivity|].
  destruct updates as [i t m d u]. unfold defined_update.
  cbn [ConversationUpdate.id ConversationUpdate.title ConversationUpdate.model
       ConversationUpdate.createdAt ConversationUpdate.updatedAt].
  split.
  - intros Hd c' E. unfold as_updated, updateConversation_updated in E.
    cbn [ConversationUpdate.id ConversationUpdate.title
         ConversationUpdate.model ConversationUpdate.createdAt] in E.
    destruct i as [|[i|]], t as [|[t|]], m as [|[m|]], d as [|[d|]];
      cbn [defined_prop] in Hd; try discriminate Hd;
      cbn [spread_over] in E; discriminate E.
  - intros p Hp. unfold updateConversation. rewrite G.
    cbn [fst snd conversations messages models]. eexists.
    split; [|split; [reflexivity|]].
    2:{ split; [apply set_get|].
        split; [intros other Hne; apply get_set_other, Hne|].
        split; [rewrite set_length, G; reflexivity|]. split; reflexivity. }
    unfold as_updated, updateConversation_updated.
    cbn [ConversationUpdate.id ConversationUpdate.title
         ConversationUpdate.model ConversationUpdate.createdAt
         Conversation.id Conversation.title Conversation.model
         Conversation.createdAt Conversation.updatedAt].
    destruct i as [|[i|]], t as [|[t|]], m as [|[m|]], d as [|[d|]];
      cbn [defined_prop] in Hp; try discriminate Hp;
      injection Hp as <-; reflexivity.
Qed.

(** X5. In a well-shaped store [deleteMessages] takes out the messages of
    the conversation and no other: the conversation has no message left,
    the other conversations keep theirs, no conversation is touched, and
    the result tells whether there was a message to delete. *)
Theorem deleteMessages_clears_one_history (conversationId : jsstring)
    (s : MemStorage) :
  store_wf s ->
  let (s', deleted) := deleteMessages conversationId s in
  getMessages conversationId s' = []
  /\ (forall other, other <> conversationId ->
                    getMessages other s' = getMessages other s)
  /\ conversations s' = conversations s
  /\ deleted = (0 <? List.length (getMessages conversationId s))%nat
  /\ store_wf s'.
Proof.
  intros W. unfold deleteMessages. cbn zeta.
  rewrite (delete_matching (id := Message.id)
             (fun msg => str_eqb (Message.conversationId msg) conversationId)
             (wf_message_keys W) (wf_message_ids W)).
  assert (Hv : JsMap.values
                 (filter
                    (fun en : jsstring * Message.t =>
                       negb (str_eqb (Message.conversationId (snd en))
                               conversationId))
                    (messages s))
               = filter
                   (fun m => negb (str_eqb (Message.conversationId m)
                                     conversationId))
                   (JsMap.values (messages s))).
  { apply (values_filter
             (fun m => negb (str_eqb (Message.conversationId m)
                               conversationId))). }
  split; [|split; [|split; [reflexivity|split]]].
  - unfold getMessages. cbn [messages]. rewrite Hv.
    apply js_sort_nil_inv, filter_none. intros m Hm.
    apply filter_In in Hm. apply negb_true_iff, Hm.
  - intros other Hne. unfold getMessages. cbn [messages]. rewrite Hv.
    f_equal. apply filter_other_conversation. exact Hne.
  - unfold getMessages.
    rewrite <- (Permutation_length (js_sort_perm _ _)). reflexivity.
  - destruct W as [H1 H2 H3 H4 H5 H6 H7].
    constructor; cbn [conversations messages models]; auto.
    + apply wf_filter, H3.
    + apply keyed_by_filter, H4.
Qed.

Lemma NoDup_map_same A B (f : A -> B) (l : list A) (x y : A) :
  NoDup (map f l) -> In x l -> In y l -> f x = f y -> x = y.
Proof.
  induction l as [|a l IH]; simpl; [tauto|].
  intros H. apply NoDup_cons_iff in H. destruct H as [Hn Hd].
  intros [->|Hx] [->|Hy] E; auto.
  - exfalso. apply Hn. rewrite E. apply in_map, Hy.
  - exfalso. apply Hn. rewrite <- E. apply in_map, Hx.
Qed.

(** In a well-shaped store the entry of a model is the one under its id
    and the one of its name. *)
Lemma model_key_iff_name (s : MemStorage) (model : OllamaModel.t)
    (en : jsstring * OllamaModel.t) :
  store_wf s -> In model (JsMap.values (models s)) -> In en (models s) ->
  str_eqb (fst en) (OllamaModel.id model)
  = str_eqb (OllamaModel.name (snd en)) (OllamaModel.name model).
Proof.
  intros W Hm Hen.
  pose proof (wf_model_ids W) as K. unfold keyed_by in K.
  rewrite Forall_forall in K.
  unfold JsMap.values in Hm. apply in_map_iff in Hm.
  destruct Hm as [[k m] [E Hin]]. simpl in E. subst m.
  pose proof (K _ Hin) as Kk. simpl in Kk. subst k.
  destruct en as [k r]. simpl.
  pose proof (K _ Hen) as Kr. simpl in Kr. subst k.
  destruct (str_eqb (OllamaModel.id r) (OllamaModel.id model)) eqn:E1;
    destruct (str_eqb (OllamaModel.name r) (OllamaModel.name model)) eqn:E2;
    try reflexivity; exfalso.
  - apply str_eqb_eq in E1. apply str_eqb_neq in E2. apply E2.
    rewrite E1 in Hen.
    rewrite (wf_functional _ _ _ (wf_model_keys W) Hen Hin). reflexivity.
  - apply str_eqb_neq in E1. apply str_eqb_eq in E2. apply E1.
    assert (r = model); [|congruence].
    apply (NoDup_map_same OllamaModel.name (JsMap.values (models s)));
      [apply (wf_model_names W) | | | exact E2];
      unfold JsMap.values; apply in_map_iff;
      [exists (OllamaModel.id r, r) | exists (OllamaModel.id model, model)];
      auto.
Qed.

(** X6. In a well-shaped store [deleteModel] returns [true] exactly when a
    model of the name is stored; afterwards no model has the name, the
    models of other names are there as before, and conversations and
    messages are untouched. [DELETE /api/models/:name] deletes from the
    store only when the backend has accepted the deletion (204), and
    otherwise answers 500 and leaves the store as it was. *)
Theorem deleteModel_removes_the_name (name : jsstring) (s : MemStorage) :
  store_wf s ->
  (let (s', deleted) := deleteModel name s in
   deleted = (0 <? models_named name s)%nat
   /\ models_named name s' = 0%nat
   /\ JsMap.values (models s')
      = filter (fun m => negb (str_eqb (OllamaModel.name m) name))
          (JsMap.values (models s))
   /\ conversations s' = conversations s
   /\ messages s' = messages s)
  /\ DELETE_model name true s = (fst (deleteModel name s), 204%N)
  /\ DELETE_model name false s = (s, 500%N).
Proof.
  intros W. split; [|split; reflexivity].
  unfold deleteModel, models_named.
  destruct (find (fun m => str_eqb (OllamaModel.name m) name)
              (JsMap.values (models s))) as [model|] eqn:F.
  - pose proof (find_named_filter _ _ F) as Hlen.
    apply find_some in F. destruct F as [Hin Hname].
    apply str_eqb_eq in Hname.
    assert (Hrm : JsMap.remove (OllamaModel.id model) (models s)
                  = filter (fun en => negb (str_eqb (OllamaModel.name (snd en))
                                              name))
                      (models s)).
    { unfold JsMap.remove. apply filter_ext_in. intros en Hen.
      rewrite (model_key_iff_name model en W Hin Hen), Hname. reflexivity. }
    assert (Hhas : JsMap.has (OllamaModel.id model) (models s) = true).
    { apply has_true_keys. unfold JsMap.values in Hin.
      apply in_map_iff in Hin. destruct Hin as [[k m] [E Hen]].
      simpl in E. subst m. unfold JsMap.keys. apply in_map_iff.
      exists (k, model). split; [|exact Hen].
      pose proof (wf_model_ids W) as K. unfold keyed_by in K.
      rewrite Forall_forall in K. apply (K _ Hen). }
    unfold JsMap.delete. rewrite Hhas, Hrm.
    cbn [fst snd conversations messages models].
    rewrite (values_filter
               (fun m => negb (str_eqb (OllamaModel.name m) name))).
    split; [|split; [|split; [reflexivity|split; reflexivity]]].
    + symmetry. apply Nat.ltb_lt. lia.
    + rewrite filter_none; [reflexivity|]. intros m Hm.
      apply filter_In in Hm. destruct Hm as [_ Hm].
      apply negb_true_iff in Hm. exact Hm.
  - assert (Hnone : filter (fun m => str_eqb (OllamaModel.name m) name)
                      (JsMap.values (models s)) = []).
    { apply filter_none. intros m Hm.
      destruct (str_eqb (OllamaModel.name m) name) eqn:E; [|reflexivity].
      pose proof (find_none _ _ F m Hm) as N. cbv beta in N. congruence. }
    rewrite Hnone. simpl.
    split; [reflexivity|]. split; [reflexivity|].
    split; [|split; reflexivity].
    symmetry. induction (JsMap.values (models s)) as [|m l IH];
      simpl in *; [reflexivity|].
    destruct (str_eqb (OllamaModel.name m) name); simpl in *;
      [discriminate|]. f_equal. apply IH; assumption.
Qed.

(** X7. [setSetting] writes the setting of a key and no other: the setting
    can be read back under the key with the value given; a setting that was
    there keeps its id and the number of settings stays, one that was not
    gets the new id and the number grows by one; the other keys read as
    before and no key is held twice. *)
Theorem setSetting_upserts (e : Env) (ins : InsertSettings.t)
    (settings : JsMap.t Settings.t) :
  JsMap.wf settings ->
  let (settings', stored) := setSetting e ins settings in
  getSetting (InsertSettings.key ins) settings' = Some stored
  /\ Settings.value stored = InsertSettings.value ins
  /\ Settings.updatedAt stored = now e
  /\ match getSetting (InsertSettings.key ins) settings with
     | Some old =>
         Settings.id stored = Settings.id old
         /\ List.length (getSettings settings')
            = List.length (getSettings settings)
     | None =>
         Settings.id stored = uuid e
         /\ List.length (getSettings settings')
            = S (List.length (getSettings settings))
     end
  /\ (forall other, other <> InsertSettings.key ins ->
                    getSetting other settings' = getSetting other settings)
  /\ JsMap.wf settings'.
Proof.
  intros W. unfold setSetting, getSetting, getSettings, JsMap.values.
  destruct (JsMap.get (InsertSettings.key ins) settings) as [old|] eqn:G;
    (split; [apply set_get|]); (split; [reflexivity|]);
    (split; [reflexivity|]);
    (split;
     [split; [reflexivity | rewrite !length_map, set_length, G; reflexivity]|]);
    (split; [intros other Hne; apply get_set_other, Hne | apply set_wf, W]).
Qed.

(** X8. Deleting a conversation a second time finds nothing: the second
    call returns [false], the route answers 404, and the store stays as
    the first call left it. *)
Theorem deleteConversation_twice (id : jsstring) (s : MemStorage) :
  let s' := fst (deleteConversation id s) in
  deleteConversation id s' = (s', false)
  /\ DELETE_conversation id s' = (s', 404%N).
Proof.
  cbn zeta.
  assert (H : JsMap.has id (conversations (fst (deleteConversation id s)))
              = false).
  { apply has_false_keys. unfold deleteConversation, JsMap.delete.
    destruct (JsMap.has id (conversations s));
      cbn [fst conversations]; apply remove_keys. }
  assert (E : deleteConversation id (fst (deleteConversation id s))
              = (fst (deleteConversation id s), false)).
  { generalize dependent (fst (deleteConversation id s)). intros s' H.
    unfold deleteConversation, JsMap.delete. rewrite H.
    rewrite remove_absent by (apply has_false_keys, H).
    destruct s'; reflexivity. }
  split; [exact E|]. unfold DELETE_conversation. rewrite E. reflexivity.
Qed.

Lemma keyed_by_ids V (id : V -> jsstring) (m : JsMap.t V) :
  keyed_by id m -> map id (JsMap.values m) = JsMap.keys m.
Proof.
  unfold keyed_by, JsMap.values, JsMap.keys. rewrite map_map.
  induction 1 as [|en m Hen _ IH]; simpl; [reflexivity|].
  rewrite IH, Hen. reflexivity.
Qed.

(** X9. In every store the server can be in, no two of the messages that
    [getMessages] returns have one id, and no two of the conversations
    that [getConversations] returns. *)
Theorem reachable_ids_unique (s : MemStorage) :
  reachable s ->
  (forall conversationId,
      NoDup (map Message.id (getMessages conversationId s)))
  /\ NoDup (map Conversation.id (getConversations s)).
Proof.
  intros R. apply reachable_wf in R. split.
  - intros c. unfold getMessages.
    eapply Permutation_NoDup;
      [apply Permutation_map, js_sort_perm|].
    apply NoDup_map_filter.
    rewrite (keyed_by_ids (wf_message_ids R)). apply (wf_message_keys R).
  - unfold getConversations.
    eapply Permutation_NoDup;
      [apply Permutation_map, js_sort_perm|].
    rewrite (keyed_by_ids (wf_conversation_ids R)).
    apply (wf_conversation_keys R).
Qed.

(** X10. In every store the server can be in, a name has at most one
    model, whatever requests led there, and every stored model is the one
    a lookup by its name finds. *)
Theorem reachable_model_names_unique (s : MemStorage) :
  reachable s ->
  (forall n, (models_named n s <= 1)%nat)
  /\ (forall m, In m (JsMap.values (models s)) ->
                find (fun x => str_eqb (OllamaModel.name x)
                                 (OllamaModel.name m))
                  (JsMap.values (models s))
                = Some m).
Proof.
  intros R. apply reachable_wf in R. split.
  - intros n. apply named_at_most_once, (wf_model_names R).
  - intros m Hm.
    destruct (find (fun x => str_eqb (OllamaModel.name x) (OllamaModel.name m))
                (JsMap.values (models s))) as [x|] eqn:F.
    + apply find_some in F. destruct F as [Hx Hn]. apply str_eqb_eq in Hn.
      f_equal.
      exact (NoDup_map_same OllamaModel.name _ x m (wf_model_names R)
               Hx Hm Hn).
    + pose proof (find_none _ _ F m Hm) as N. cbv beta in N.
      rewrite str_eqb_refl in N. discriminate.
Qed.

(** ** The catalog routes *)

Lemma find_of_filter A (p : A -> bool) (l1 l2 : list A) :
  filter p l1 = filter p l2 -> find p l1 = find p l2.
Proof.
  assert (H : forall l, find p l = hd_error (filter p l)).
  { induction l as [|x l IH]; simpl; [reflexivity|].
    destruct (p x); [reflexivity | exact IH]. }
  intros E. rewrite !H, E. reflexivity.
Qed.

Lemma createOrUpdateModel_available e ins s (b : bool) :
  InsertOllamaModel.isAvailable ins = Present b ->
  OllamaModel.isAvailable (snd (createOrUpdateModel e ins s)) = b.
Proof.
  intros H. unfold createOrUpdateModel.
  destruct (find _ _); cbn [snd OllamaModel.isAvailable]; rewrite H;
    reflexivity.
Qed.

Lemma createOrUpdateModel_rest e ins s :
  conversations (fst (createOrUpdateModel e ins s)) = conversations s
  /\ messages (fst (createOrUpdateModel e ins s)) = messages s.
Proof. unfold createOrUpdateModel. destruct (find _ _); split; reflexivity. Qed.

(** The keys after [createOrUpdateModel] are the keys before and, at
    most, the new id. *)
Lemma createOrUpdateModel_keys e ins s (k : jsstring) :
  store_wf s ->
  In k (JsMap.keys (models (fst (createOrUpdateModel e ins s)))) ->
  In k (JsMap.keys (models s)) \/ k = uuid e.
Proof.
  intros W. unfold createOrUpdateModel.
  destruct (find (fun m => str_eqb (OllamaModel.name m)
                             (InsertOllamaModel.name ins))
              (JsMap.values (models s))) as [ex|] eqn:F;
    cbn [fst models].
  - destruct (find_named_split _ _ F) as (m1 & k0 & m2 & Em & _ & _).
    pose proof (wf_model_ids W) as K. unfold keyed_by in K.
    rewrite Em, Forall_app in K. destruct K as [_ K].
    apply Forall_cons_iff in K. destruct K as [K _]. simpl in K. subst k0.
    pose proof (wf_model_keys W) as D. unfold JsMap.wf, JsMap.keys in D.
    rewrite Em, map_app in D. apply NoDup_remove_2 in D.
    rewrite in_app_iff in D.
    rewrite Em, set_at by (unfold JsMap.keys; tauto).
    rewrite (keys_replace _ _ ex). auto.
  - match goal with
    | |- context [JsMap.set (uuid e) ?x (models s)] => generalize x
    end.
    intros model.
    destruct (set_decompose (uuid e) model (models s))
      as [(m1 & v0 & m2 & Em & _ & ->)|[_ ->]].
    + rewrite Em, (keys_replace _ _ v0). auto.
    + unfold JsMap.keys. rewrite map_app, in_app_iff. simpl.
      intros [H|[H|[]]]; auto.
Qed.

(** Under a new id, [createOrUpdateModel] leaves the models of the other
    names as they are. *)
Lemma createOrUpdateModel_others e ins s (n : jsstring) :
  store_wf s -> JsMap.get (uuid e) (models s) = None ->
  n <> InsertOllamaModel.name ins ->
  filter (fun m => str_eqb (OllamaModel.name m) n)
    (JsMap.values (models (fst (createOrUpdateModel e ins s))))
  = filter (fun m => str_eqb (OllamaModel.name m) n)
      (JsMap.values (models s)).
Proof.
  intros W Hfresh Hn. unfold createOrUpdateModel.
  assert (Hf : str_eqb (InsertOllamaModel.name ins) n = false)
    by (apply str_eqb_neq; congruence).
  destruct (find (fun m => str_eqb (OllamaModel.name m)
                             (InsertOllamaModel.name ins))
              (JsMap.values (models s))) as [ex|] eqn:F;
    cbn [fst models].
  - destruct (find_named_split _ _ F) as (m1 & k0 & m2 & Em & _ & En).
    pose proof (wf_model_ids W) as K. unfold keyed_by in K.
    rewrite Em, Forall_app in K. destruct K as [_ K].
    apply Forall_cons_iff in K. destruct K as [K _]. simpl in K. subst k0.
    pose proof (wf_model_keys W) as D. unfold JsMap.wf, JsMap.keys in D.
    rewrite Em, map_app in D. apply NoDup_remove_2 in D.
    rewrite in_app_iff in D.
    rewrite Em, set_at by (unfold JsMap.keys; tauto).
    rewrite !values_app, !filter_app. cbn [snd filter OllamaModel.name].
    rewrite En, Hf. reflexivity.
  - rewrite set_fresh by exact Hfresh.
    rewrite values_app, filter_app. cbn [snd filter OllamaModel.name].
    rewrite Hf. simpl. rewrite app_nil_r. reflexivity.
Qed.

(** X11. The catalog sync of [GET /api/models], run on a well-shaped store
    with ids the store does not hold and that differ from one another:
    every model the backend lists is in the list sent, marked available,
    under its name once; the stored models that the backend does not list
    stay as they are, and conversations and messages are untouched. *)
Theorem GET_models_syncs_the_catalog
    (localeCompare : jsstring -> jsstring -> Z)
    (listed : list (Env * ListedModel)) (s : MemStorage) :
  store_wf s ->
  (forall p, In p listed -> JsMap.get (uuid (fst p)) (models s) = None) ->
  NoDup (map (fun p => uuid (fst p)) listed) ->
  let (s', sent) := GET_models localeCompare listed s in
  store_wf s'
  /\ (forall p, In p listed ->
        models_named (listed_name (snd p)) s' = 1%nat
        /\ exists r, In r sent
                     /\ OllamaModel.name r = listed_name (snd p)
                     /\ OllamaModel.isAvailable r = true)
  /\ (forall n, ~ In n (map (fun p => listed_name (snd p)) listed) ->
        filter (fun m => str_eqb (OllamaModel.name m) n)
          (JsMap.values (models s'))
        = filter (fun m => str_eqb (OllamaModel.name m) n)
            (JsMap.values (models s)))
  /\ Permutation (JsMap.values (models s')) sent
  /\ conversations s' = conversations s
  /\ messages s' = messages s.
Proof.
  unfold GET_models. cbn zeta. intros W Hfresh Hdup.
  assert (Main :
    store_wf (sync_models listed s)
    /\ (forall p, In p listed ->
          exists r,
            find (fun m => str_eqb (OllamaModel.name m) (listed_name (snd p)))
              (JsMap.values (models (sync_models listed s))) = Some r
            /\ OllamaModel.isAvailable r = true)
    /\ (forall n, ~ In n (map (fun p => listed_name (snd p)) listed) ->
          filter (fun m => str_eqb (OllamaModel.name m) n)
            (JsMap.values (models (sync_models listed s)))
          = filter (fun m => str_eqb (OllamaModel.name m) n)
              (JsMap.values (models s)))
    /\ conversations (sync_models listed s) = conversations s
    /\ messages (sync_models listed s) = messages s).
  { revert s W Hfresh.
    induction listed as [|[e m] rest IH]; intros s W Hfresh.
    - simpl. split; [exact W|]. split; [intros p []|].
      split; [reflexivity|]. split; reflexivity.
    - cbn [sync_models].
      pose proof (createOrUpdateModel_spec e (listed_insert m) W)
        as (W1 & N1 & F1).
      pose proof (createOrUpdateModel_rest e (listed_insert m) s) as [C1 M1].
      assert (He : JsMap.get (uuid e) (models s) = None)
        by (apply (Hfresh (e, m)); left; reflexivity).
      cbn [map] in Hdup. apply NoDup_cons_iff in Hdup.
      destruct Hdup as [Hnew Hdup].
      set (s1 := fst (createOrUpdateModel e (listed_insert m) s)) in *.
      assert (Hfresh1 : forall p, In p rest ->
                          JsMap.get (uuid (fst p)) (models s1) = None).
      { intros p Hp. apply get_None_keys. intros Hk.
        apply createOrUpdateModel_keys in Hk; [|exact W].
        destruct Hk as [Hold|Heq].
        - assert (G : JsMap.get (uuid (fst p)) (models s) = None)
            by (apply Hfresh; right; exact Hp).
          apply get_None_keys in G. exact (G Hold).
        - apply Hnew. cbn [fst]. rewrite <- Heq.
          apply (in_map (fun p => uuid (fst p)) rest p Hp). }
      destruct (IH Hdup s1 W1 Hfresh1) as (W' & Hin & Hout & C' & M').
      split; [exact W'|]. split; [|split; [|split; congruence]].
      + intros p [<-|Hp]; [|apply Hin, Hp]. cbn [snd].
        destruct (in_dec (list_eq_dec N.eq_dec) (listed_name m)
                    (map (fun p => listed_name (snd p)) rest)) as [Hr|Hr].
        * apply in_map_iff in Hr. destruct Hr as [p' [En Hp']].
          destruct (Hin p' Hp') as [r [Fr Ar]]. rewrite En in Fr.
          exists r. auto.
        * exists (snd (createOrUpdateModel e (listed_insert m) s)).
          split; [|apply createOrUpdateModel_available; reflexivity].
          rewrite (find_of_filter _ _ _ (Hout _ Hr)). exact F1.
      + intros n Hn. cbn [map In snd] in Hn.
        rewrite Hout by tauto.
        apply createOrUpdateModel_others; [exact W | exact He |].
        cbn [listed_insert InsertOllamaModel.name]. intros ->. tauto. }
  destruct Main as (W' & Hin & Hout & C' & M').
  split; [exact W'|]. split; [|split; [exact Hout|split; [|auto]]].
  - intros p Hp. destruct (Hin p Hp) as [r [Fr Ar]].
    split.
    + unfold models_named.
      pose proof (find_named_filter _ _ Fr).
      pose proof (named_at_most_once (listed_name (snd p))
                    (JsMap.values (models (sync_models listed s)))
                    (wf_model_names W')).
      lia.
    + exists r. apply find_some in Fr. destruct Fr as [Hr Hn].
      split; [|split; [apply str_eqb_eq, Hn | exact Ar]].
      unfold getModels. apply js_sort_In. exact Hr.
  - unfold getModels. apply js_sort_perm.
Qed.

(** X12. [POST /api/models/pull] answers 200 exactly when the body has a
    non-empty name and the backend has accepted the pull; otherwise it
    leaves the store as it was. After a 200 on a well-shaped store the name
    has one model, marked available, and a model that was already stored
    under the name keeps its id and its size. *)
Theorem POST_models_pull_registers (e : Env) (name : option jsstring)
    (accepted : bool) (s : MemStorage) :
  store_wf s ->
  let (s', status) := POST_models_pull e name accepted s in
  (status = 200%N <->
   exists n, name = Some n /\ n <> [] /\ accepted = true)
  /\ (status <> 200%N -> s' = s)
  /\ (status = 200%N ->
      forall n, name = Some n ->
        models_named n s' = 1%nat
        /\ exists r,
             find (fun m => str_eqb (OllamaModel.name m) n)
               (JsMap.values (models s')) = Some r
             /\ OllamaModel.isAvailable r = true
             /\ (forall old,
                    find (fun m => str_eqb (OllamaModel.name m) n)
                      (JsMap.values (models s)) = Some old ->
                    OllamaModel.id r = OllamaModel.id old
                    /\ OllamaModel.size r = OllamaModel.size old)).
Proof.
  intros W. unfold POST_models_pull.
  destruct name as [n|].
  2:{ split; [split; [discriminate | intros (n & H & _); discriminate]|].
      split; [reflexivity | discriminate]. }
  destruct n as [|c n]; cbn [str_truthy negb].
  { split; [split; [discriminate | intros (n & H & Hn & _)]|].
    - inversion H; subst. congruence.
    - split; [reflexivity | discriminate]. }
  destruct accepted.
  2:{ split; [split; [discriminate | intros (n' & _ & _ & H); discriminate]|].
      split; [reflexivity | discriminate]. }
  set (ins := InsertOllamaModel.mk (c :: n) (c :: n) Missing (Present true)).
  split; [split; [intros _; exists (c :: n); repeat split; discriminate
                 | reflexivity]|].
  split; [congruence|]. intros _ n' [= <-].
  pose proof (createOrUpdateModel_spec e ins W) as (W1 & N1 & F1).
  cbn [InsertOllamaModel.name ins] in F1.
  split.
  - unfold models_named.
    pose proof (find_named_filter _ _ F1).
    pose proof (named_at_most_once (c :: n) _ (wf_model_names W1)). lia.
  - exists (snd (createOrUpdateModel e ins s)).
    split; [exact F1|].
    split; [apply createOrUpdateModel_available; reflexivity|].
    intros old Fo. unfold createOrUpdateModel.
    cbn [InsertOllamaModel.name ins]. rewrite Fo.
    split; reflexivity.
Qed.

(** * Further properties of the stream decoder *)

Lemma decode_lines_truthy (lines : list jsstring) (k : gen json) :
  Forall (fun v => truthy v = true) (yields k) ->
  Forall (fun v => truthy v = true) (yields (decode_lines lines k)).
Proof.
  intros Hk. induction lines as [|line rest IH]; simpl; [exact Hk|].
  destruct (JSON_parse line) as [data|]; [|exact IH].
  assert (Hafter : Forall (fun v => truthy v = true)
                     (yields (if opt_truthy (get_prop data (js "done"))
                              then GReturn else decode_lines rest k))).
  { destruct (opt_truthy (get_prop data (js "done")));
      [constructor | exact IH]. }
  destruct data; try exact IH;
    (destruct (message_content _) as [c|]; [|exact Hafter];
     destruct (truthy c) eqn:T; [|exact Hafter];
     simpl; constructor; [exact T | exact Hafter]).
Qed.

(** X13. [streamChat] never yields a falsy value: every fragment it gives
    the relay is truthy, so no fragment is the empty string, whatever the
    backend sends. *)
Theorem streamChat_yields_truthy (response : FetchResult) :
  Forall (fun v => truthy v = true) (yields (streamChat response))
  /\ ~ In (JString []) (yields (streamChat response)).
Proof.
  assert (H : Forall (fun v => truthy v = true) (yields (streamChat response))).
  { destruct response as [e|[|] [body|]]; simpl; try constructor.
    induction body as [chunk rest IH| |e]; simpl; try constructor.
    apply decode_lines_truthy, IH. }
  split; [exact H|]. rewrite Forall_forall in H.
  intros Hin. specialize (H _ Hin). discriminate.
Qed.

(** A line whose frame says [done] ends the stream, whatever follows. *)
Lemma decode_done_line (line : jsstring) (data : json) (k k' : gen json) :
  no_newline line -> JSON_parse line = Some data ->
  opt_truthy (get_prop data (js "done")) = true ->
  decode_lines (chunk_lines line) k = decode_lines (chunk_lines line) k'.
Proof.
  intros Hn Hp Hd. rewrite chunk_lines_line by exact Hn.
  destruct (str_truthy (trim line)) eqn:T.
  - cbn [decode_lines]. rewrite Hp.
    destruct data; try discriminate. rewrite Hd. reflexivity.
  - apply blank_not_json in T. congruence.
Qed.

(** X14. A frame whose [done] is truthy ends the stream there: what
    follows it in the chunk and in the reads to come, a failed read
    included, is not looked at. *)
Theorem streamChat_stops_at_done (before : list jsstring)
    (pre line post : jsstring) (data : json) (rest : Reads) :
  no_newline line -> JSON_parse line = Some data ->
  opt_truthy (get_prop data (js "done")) = true ->
  streamChat
    (Response true
       (Some (reads_of before
                (ReadChunk (pre ++ 10%N :: line ++ 10%N :: post) rest))))
  = streamChat
      (Response true
         (Some (reads_of before (ReadChunk (pre ++ 10%N :: line) ReadDone)))).
Proof.
  intros Hn Hp Hd. cbn [streamChat]. apply read_loop_reads_of.
  cbn [read_loop]. rewrite !chunk_lines_app, !decode_lines_app.
  f_equal. apply (decode_done_line _ _ Hn Hp Hd).
Qed.

Lemma decode_lines_yields (lines : list jsstring) (k k' : gen json) :
  yields k = yields k' ->
  yields (decode_lines lines k) = yields (decode_lines lines k').
Proof.
  intros H. induction lines as [|line rest IH]; simpl; [exact H|].
  destruct (JSON_parse line) as [data|]; [|exact IH].
  destruct data; try exact IH;
    (destruct (opt_truthy (get_prop _ (js "done")));
     destruct (message_content _) as [c|]; try reflexivity; try exact IH;
     destruct (truthy c); simpl; try reflexivity; try exact IH;
     f_equal; exact IH).
Qed.

Lemma decode_lines_outcome (lines : list jsstring) (k : gen json)
    (e : jsstring) :
  outcome k = Returned \/ outcome k = Threw e ->
  outcome (decode_lines lines k) = Returned
  \/ outcome (decode_lines lines k) = Threw e.
Proof.
  intros H. induction lines as [|line rest IH]; simpl; [exact H|].
  destruct (JSON_parse line) as [data|]; [|exact IH].
  destruct data; try exact IH;
    (destruct (opt_truthy (get_prop _ (js "done")));
     destruct (message_content _) as [c|]; simpl; auto;
     destruct (truthy c); simpl; auto).
Qed.

Lemma decode_lines_returns (lines : list jsstring) (k : gen json) :
  outcome k = Returned -> outcome (decode_lines lines k) = Returned.
Proof.
  intros H. induction lines as [|line rest IH]; simpl; [exact H|].
  destruct (JSON_parse line) as [data|]; [|exact IH].
  destruct data; try exact IH;
    (destruct (opt_truthy (get_prop _ (js "done")));
     destruct (message_content _) as [c|]; simpl; auto;
     destruct (truthy c); simpl; auto).
Qed.

(** X15. The decoder does not throw of its own: whatever text the chunks
    hold, a body that ends normally gives a stream that returns, and a
    body that ends with a failed read gives the same fragments and then
    either has returned already or throws the error of that read. *)
Theorem streamChat_throws_transport_errors_only (chunks : list jsstring)
    (e : jsstring) :
  outcome (streamChat (Response true (Some (reads_of chunks ReadDone))))
  = Returned
  /\ yields (streamChat (Response true (Some (reads_of chunks (ReadFail e)))))
     = yields (streamChat (Response true (Some (reads_of chunks ReadDone))))
  /\ (outcome
        (streamChat (Response true (Some (reads_of chunks (ReadFail e)))))
      = Returned
      \/ outcome
           (streamChat (Response true (Some (reads_of chunks (ReadFail e)))))
         = Threw e).
Proof.
  cbn [streamChat]. induction chunks as [|c chunks (IH1 & IH2 & IH3)].
  - simpl. auto.
  - cbn [reads_of read_loop]. split; [|split].
    + apply decode_lines_returns, IH1.
    + apply decode_lines_yields, IH2.
    + apply decode_lines_outcome, IH3.
Qed.

(** * From the handler's frames to the client's view *)

Lemma hex_value_digit (d : N) :
  (d < 16)%N -> hex_value (hex_digit d) = Some d.
Proof.
  intros H. unfold hex_value, hex_digit, is_digit.
  destruct (N.ltb_spec d 10).
  - replace ((48 <=? 48 + d) && (48 + d <=? 57))%N with true
      by (symmetry; apply andb_true_iff; rewrite !N.leb_le; lia).
    f_equal. lia.
  - replace ((48 <=? 87 + d) && (87 + d <=? 57))%N with false
      by (symmetry; apply andb_false_iff; rewrite !N.leb_gt; lia).
    replace ((97 <=? 87 + d) && (87 + d <=? 102))%N with true
      by (symmetry; apply andb_true_iff; rewrite !N.leb_le; lia).
    f_equal. lia.
Qed.

Lemma hex4_escape (c : N) :
  (c < 65536)%N ->
  hex4 (hex_digit (c / 4096)) (hex_digit ((c / 256) mod 16))
       (hex_digit ((c / 16) mod 16)) (hex_digit (c mod 16))
  = Some c.
Proof.
  intros H. unfold hex4.
  rewrite !hex_value_digit;
    try (apply N.mod_lt; discriminate);
    try (apply N.Div0.div_lt_upper_bound; lia).
  f_equal.
  zify. Z.to_euclidean_division_equations. lia.
Qed.

Lemma parse_raw_unit (c : code_unit) (t acc : jsstring) :
  c <> 34%N -> c <> 92%N -> (32 <= c)%N ->
  parse_string_body (c :: t) acc = parse_string_body t (c :: acc).
Proof.
  intros H1 H2 H3. cbn [parse_string_body].
  apply N.eqb_neq in H1. apply N.eqb_neq in H2. rewrite H1, H2.
  replace (c <? 32)%N with false by (symmetry; apply N.ltb_ge; exact H3).
  reflexivity.
Qed.

Lemma parse_unicode_escape (c : code_unit) (t acc : jsstring) :
  (c < 65536)%N ->
  parse_string_body (unicode_escape c ++ t) acc
  = parse_string_body t (c :: acc).
Proof.
  intros H. unfold unicode_escape. cbn [app parse_string_body].
  change (92 =? 34)%N with false. change (92 =? 92)%N with true.
  change (117 =? 117)%N with true. cbv iota.
  rewrite (hex4_escape H). reflexivity.
Qed.

Lemma parse_quote_unit (c : code_unit) (t acc : jsstring) :
  parse_string_body (quote_unit c ++ t) acc = parse_string_body t (c :: acc).
Proof.
  unfold quote_unit.
  destruct (N.eqb_spec c 8); [subst; reflexivity|].
  destruct (N.eqb_spec c 9); [subst; reflexivity|].
  destruct (N.eqb_spec c 10); [subst; reflexivity|].
  destruct (N.eqb_spec c 12); [subst; reflexivity|].
  destruct (N.eqb_spec c 13); [subst; reflexivity|].
  destruct (N.eqb_spec c 34); [subst; reflexivity|].
  destruct (N.eqb_spec c 92); [subst; reflexivity|].
  destruct (N.ltb_spec c 32).
  - apply parse_unicode_escape. lia.
  - apply parse_raw_unit; assumption.
Qed.

Lemma surrogate_bounds (c : code_unit) :
  is_high_surrogate c = true \/ is_low_surrogate c = true ->
  (c < 65536)%N /\ c <> 34%N /\ c <> 92%N /\ (32 <= c)%N.
Proof.
  unfold is_high_surrogate, is_low_surrogate.
  rewrite !andb_true_iff, !N.leb_le. lia.
Qed.

(** Read back, the literal of a string is the string: [JSON.parse] undoes
    the quoting of [JSON.stringify]. *)
Lemma parse_quote_body (n : nat) :
  forall s rest acc,
    (List.length s <= n)%nat ->
    parse_string_body (quote_body s ++ 34%N :: rest) acc
    = Some (rev acc ++ s, rest).
Proof.
  induction n as [|n IH]; intros s rest acc Hn.
  - destruct s; [|simpl in Hn; lia]. simpl. rewrite ?N.eqb_refl.
    rewrite app_nil_r. reflexivity.
  - destruct s as [|c r].
    { simpl. rewrite ?N.eqb_refl. rewrite app_nil_r. reflexivity. }
    simpl in Hn. cbn [quote_body].
    assert (Step : forall (x : code_unit) a t,
               rev (x :: a) ++ t = rev a ++ x :: t).
    { intros x a t. simpl. rewrite <- app_assoc. reflexivity. }
    destruct (is_high_surrogate c) eqn:Hh.
    + destruct (surrogate_bounds c (or_introl Hh)) as (B1 & B2 & B3 & B4).
      destruct r as [|d r'].
      * rewrite parse_unicode_escape by exact B1.
        change (parse_string_body (quote_body [] ++ 34%N :: rest) (c :: acc)
                = Some (rev acc ++ [c], rest)).
        rewrite IH by (simpl; lia). rewrite Step. reflexivity.
      * destruct (is_low_surrogate d) eqn:Hl.
        -- destruct (surrogate_bounds d (or_intror Hl))
             as (D1 & D2 & D3 & D4).
           cbn [app]. rewrite parse_raw_unit by assumption.
           rewrite parse_raw_unit by assumption.
           rewrite IH by (simpl in Hn; lia).
           rewrite !Step. reflexivity.
        -- rewrite <- app_assoc, parse_unicode_escape by exact B1.
           rewrite IH by (simpl in *; lia). rewrite Step. reflexivity.
    + destruct (is_low_surrogate c) eqn:Hl.
      * destruct (surrogate_bounds c (or_intror Hl)) as (B1 & _).
        rewrite <- app_assoc, parse_unicode_escape by exact B1.
        rewrite IH by lia. rewrite Step. reflexivity.
      * rewrite <- app_assoc, parse_quote_unit.
        rewrite IH by lia. rewrite Step. reflexivity.
Qed.

Lemma no_newline_app (a b : jsstring) :
  no_newline a -> no_newline b -> no_newline (a ++ b).
Proof. unfold no_newline. intros. apply Forall_app. auto. Qed.

Lemma hex_digit_no_newline (d : N) : hex_digit d <> 10%N.
Proof. unfold hex_digit. destruct (d <? 10)%N; lia. Qed.

Lemma unicode_escape_no_newline (c : code_unit) : no_newline (unicode_escape c).
Proof.
  unfold unicode_escape, no_newline.
  repeat constructor; try discriminate; apply hex_digit_no_newline.
Qed.

(** The literal of a string holds no newline: a frame is one line. *)
Lemma quote_body_no_newline (n : nat) :
  forall s, (List.length s <= n)%nat -> no_newline (quote_body s).
Proof.
  induction n as [|n IH]; intros s Hn.
  - destruct s; [constructor | simpl in Hn; lia].
  - destruct s as [|c r]; [constructor|]. simpl in Hn. cbn [quote_body].
    destruct (is_high_surrogate c) eqn:Hh.
    + destruct (surrogate_bounds c (or_introl Hh)) as (_ & _ & _ & B).
      destruct r as [|d r']; [apply unicode_escape_no_newline|].
      destruct (is_low_surrogate d) eqn:Hl.
      * destruct (surrogate_bounds d (or_intror Hl)) as (_ & _ & _ & D).
        constructor; [lia|]. constructor; [lia|].
        apply IH. simpl in Hn. lia.
      * apply no_newline_app; [apply unicode_escape_no_newline|].
        apply IH. simpl in *. lia.
    + destruct (is_low_surrogate c).
      * apply no_newline_app; [apply unicode_escape_no_newline|].
        apply IH. lia.
      * apply no_newline_app; [|apply IH; lia].
        unfold quote_unit.
        repeat match goal with
               | |- context [if ?b then _ else _] => destruct b eqn:?
               end;
          try (repeat constructor; discriminate);
          try apply unicode_escape_no_newline.
        constructor; [|constructor].
        intros ->. discriminate.
Qed.

(** ** Reading back what [JSON.stringify] wrote *)

Lemma parse_value_string (f : nat) (s rest : jsstring) :
  parse_value (S f) (34%N :: quote_body s ++ 34%N :: rest)
  = POk (JString s) rest.
Proof.
  cbn [parse_value skip_ws]. run_tests.
  rewrite (@parse_quote_body _ _ _ _ (le_n _)). reflexivity.
Qed.

Lemma parse_value_bool (f : nat) (b : bool) (rest : jsstring) :
  parse_value (S f) ((if b then js "true" else js "false") ++ rest)
  = POk (JBool b) rest.
Proof.
  destruct b.
  - change (js "true") with [116; 114; 117; 101]%N.
    cbn [app parse_value skip_ws]. run_tests.
    unfold parse_literal. change (js "true") with [116; 114; 117; 101]%N.
    cbn [strip_prefix]. run_tests. reflexivity.
  - change (js "false") with [102; 97; 108; 115; 101]%N.
    cbn [app parse_value skip_ws]. run_tests.
    unfold parse_literal. change (js "true") with [116; 114; 117; 101]%N.
    change (js "false") with [102; 97; 108; 115; 101]%N.
    cbn [strip_prefix]. run_tests. reflexivity.
Qed.

(** A member whose value is read, followed by a comma or by the closing
    brace. *)
Lemma parse_members_more (f : nat) (k text more : jsstring) (v : json)
    (acc : list (jsstring * json)) :
  parse_value f (text ++ 44%N :: more) = POk v (44%N :: more) ->
  parse_members (S f)
    (JSON_stringify_string k ++ 58%N :: text ++ 44%N :: more) acc
  = parse_members f more ((k, v) :: acc).
Proof.
  intros Hv. unfold JSON_stringify_string.
  cbn [app parse_members skip_ws]. run_tests.
  rewrite <- app_assoc. cbn [app].
  rewrite (@parse_quote_body _ _ _ _ (le_n _)).
  cbn [rev app skip_ws]. run_tests.
  rewrite Hv. cbn [skip_ws]. run_tests. reflexivity.
Qed.

Lemma parse_members_last (f : nat) (k text rest : jsstring) (v : json)
    (acc : list (jsstring * json)) :
  parse_value f (text ++ 125%N :: rest) = POk v (125%N :: rest) ->
  parse_members (S f)
    (JSON_stringify_string k ++ 58%N :: text ++ 125%N :: rest) acc
  = POk (JObject (rev ((k, v) :: acc))) rest.
Proof.
  intros Hv. unfold JSON_stringify_string.
  cbn [app parse_members skip_ws]. run_tests.
  rewrite <- app_assoc. cbn [app].
  rewrite (@parse_quote_body _ _ _ _ (le_n _)).
  cbn [rev app skip_ws]. run_tests.
  rewrite Hv. cbn [skip_ws]. run_tests. reflexivity.
Qed.

Lemma parse_value_object (f : nat) (t : jsstring) :
  parse_value (S f) (123%N :: 34%N :: t) = parse_members f (34%N :: t) [].
Proof.
  cbn [parse_value skip_ws]. run_tests. reflexivity.
Qed.

Lemma parse_content_frame (c : jsstring) (b : bool) (f : nat) :
  parse_value (S (S (S (S f)))) (JSON_stringify_frame (ContentFrame c b))
  = POk (JObject [(js "content", JString c); (js "done", JBool b)]) [].
Proof.
  unfold JSON_stringify_frame.
  change (js "{") with [123%N]. change (js ":") with [58%N].
  change (js ",") with [44%N]. change (js "}") with [125%N].
  cbn [app]. unfold JSON_stringify_string at 1. cbn [app].
  rewrite parse_value_object.
  change (34%N :: (quote_body (js "content") ++ [34%N]) ++ ?t)
    with (JSON_stringify_string (js "content") ++ t).
  rewrite parse_members_more with (v := JString c).
  - rewrite parse_members_last with (v := JBool b); [reflexivity|].
    apply parse_value_bool.
  - unfold JSON_stringify_string. cbn [app]. rewrite <- app_assoc.
    apply parse_value_string.
Qed.

Lemma parse_error_frame (e : jsstring) (f : nat) :
  parse_value (S (S (S f))) (JSON_stringify_frame (ErrorFrame e))
  = POk (JObject [(js "error", JString e)]) [].
Proof.
  unfold JSON_stringify_frame.
  change (js "{") with [123%N]. change (js ":") with [58%N].
  change (js "}") with [125%N].
  cbn [app]. unfold JSON_stringify_string at 1. cbn [app].
  rewrite parse_value_object.
  change (34%N :: (quote_body (js "error") ++ [34%N]) ++ ?t)
    with (JSON_stringify_string (js "error") ++ t).
  rewrite parse_members_last with (v := JString e); [reflexivity|].
  unfold JSON_stringify_string. cbn [app]. rewrite <- app_assoc.
  apply parse_value_string.
Qed.

Lemma frame_text_fuel (f : Frame) :
  exists n, parse_fuel (JSON_stringify_frame f) = S (S (S (S n))).
Proof.
  exists (2 * List.length (JSON_stringify_frame f) - 3)%nat.
  unfold parse_fuel.
  assert (2 <= List.length (JSON_stringify_frame f))%nat; [|lia].
  destruct f; unfold JSON_stringify_frame, JSON_stringify_string;
    change (js "{") with [123%N]; cbn [app List.length];
    rewrite ?length_app; cbn [List.length]; lia.
Qed.

Lemma frame_text_no_newline (f : Frame) : no_newline (JSON_stringify_frame f).
Proof.
  assert (Q : forall s, no_newline (JSON_stringify_string s)).
  { intros s. unfold JSON_stringify_string.
    constructor; [discriminate|].
    apply no_newline_app;
      [apply (@quote_body_no_newline _ _ (le_n _))
      |repeat constructor; discriminate]. }
  assert (C : forall s : string, no_newlineb (js s) = true -> no_newline (js s))
    by (intros s; apply no_newlineb_sound).
  destruct f as [c [|]|e]; unfold JSON_stringify_frame;
    repeat (apply no_newline_app; [try apply Q; try (apply C; reflexivity)|]);
    try apply Q; apply C; reflexivity.
Qed.

Lemma frame_text_parses (f : Frame) :
  JSON_parse (JSON_stringify_frame f) = Some (frame_data f).
Proof.
  unfold JSON_parse. destruct (frame_text_fuel f) as [n ->].
  destruct f as [c b|e]; cbn [frame_data].
  - rewrite parse_content_frame. reflexivity.
  - rewrite parse_error_frame. reflexivity.
Qed.

(** X16. Every frame the handler writes is one line of valid JSON that
    [JSON.parse] reads back to the fields of the frame, whatever code
    units the content holds: quotes, backslashes, newlines and other
    control characters, surrogates in pairs or alone. *)
Theorem frame_text_round_trip (f : Frame) :
  JSON_parse (JSON_stringify_frame f) = Some (frame_data f)
  /\ no_newline (JSON_stringify_frame f).
Proof.
  split; [apply frame_text_parses | apply frame_text_no_newline].
Qed.

(** ** The client's reader on the lines of the handler *)

Lemma data_line_payload (f : Frame) :
  strip_prefix (js "data: ") (data_line f) = Some (JSON_stringify_frame f).
Proof.
  unfold data_line. change (js "data: ") with [100; 97; 116; 97; 58; 32]%N.
  cbn [app strip_prefix]. run_tests. reflexivity.
Qed.

Lemma data_line_not_blank (f : Frame) : str_truthy (trim (data_line f)) = true.
Proof.
  destruct (str_truthy (trim (data_line f))) eqn:T; [reflexivity|].
  apply trim_nil in T. unfold data_line in T.
  change (js "data: ") with [100; 97; 116; 97; 58; 32]%N in T.
  cbn [app forallb] in T.
  change (is_js_space 100%N) with false in T. discriminate.
Qed.

Lemma data_line_no_newline (f : Frame) : no_newline (data_line f).
Proof.
  unfold data_line. apply no_newline_app;
    [apply no_newlineb_sound; reflexivity | apply frame_text_no_newline].
Qed.

(** A chunk made of whole writes is cut into the lines of its frames. *)
Lemma chunk_lines_wire (group : list Frame) :
  chunk_lines (concat (map wire group)) = map data_line group.
Proof.
  induction group as [|f group IH]; [reflexivity|].
  cbn [map concat]. unfold wire at 1.
  change (js "data: " ++ JSON_stringify_frame f ++ [10%N; 10%N])
    with (js "data: " ++ JSON_stringify_frame f ++ [10%N] ++ [10%N]).
  rewrite !app_assoc. rewrite <- (app_assoc _ [10%N] [10%N]).
  rewrite <- (app_assoc _ ([10%N] ++ [10%N])).
  cbn [app]. fold (data_line f).
  rewrite chunk_lines_app.
  rewrite (chunk_lines_line (data_line_no_newline f)), data_line_not_blank.
  change (10%N :: concat (map wire group))
    with ([] ++ 10%N :: concat (map wire group)).
  rewrite chunk_lines_app, IH. reflexivity.
Qed.

Lemma client_line_content (c : jsstring) (v : ClientView) :
  client_line (data_line (ContentFrame c false)) v
  = if str_truthy c
    then (mkView (streamingMessage v ++ [JString c]) (isGenerating v)
            (refetched v), false)
    else (v, false).
Proof.
  unfold client_line. rewrite data_line_payload.
  rewrite frame_text_parses.
  reflexivity.
Qed.

Lemma client_line_terminal (v : ClientView) :
  client_line (data_line terminal_frame) v = (mkView [] false true, true).
Proof.
  unfold client_line. rewrite data_line_payload, frame_text_parses.
  reflexivity.
Qed.

Lemma client_line_error (e : jsstring) (v : ClientView) :
  e <> [] ->
  client_line (data_line (ErrorFrame e)) v
  = (mkView (streamingMessage v) false (refetched v), true).
Proof.
  intros He. unfold client_line. rewrite data_line_payload, frame_text_parses.
  destruct e; [congruence|]. reflexivity.
Qed.

Lemma client_lines_app (l1 l2 : list jsstring) (v : ClientView) :
  client_lines (l1 ++ l2) v
  = (let (v', returned) := client_lines l1 v in
     if returned then (v', true) else client_lines l2 v').
Proof.
  revert v; induction l1 as [|line l1 IH]; intros v; simpl; [reflexivity|].
  destruct (client_line line v) as [v' [|]]; [reflexivity | apply IH].
Qed.

(** The content frames of a list of fragments add the fragments that are
    not empty to the streaming message. *)
Lemma client_lines_contents (fragments : list jsstring) (v : ClientView) :
  client_lines
    (map data_line (map (fun f => ContentFrame f false) fragments)) v
  = (mkView
       (streamingMessage v ++ map JString (filter str_truthy fragments))
       (isGenerating v) (refetched v),
     false).
Proof.
  revert v; induction fragments as [|f fs IH]; intros v.
  - simpl. rewrite app_nil_r. destruct v; reflexivity.
  - cbn [map client_lines filter]. rewrite client_line_content.
    destruct (str_truthy f); rewrite IH; [|reflexivity].
    cbn [streamingMessage isGenerating refetched map].
    rewrite <- app_assoc. reflexivity.
Qed.

(** A reply delivered in chunks of whole writes is read as its frames, one
    after the other. *)
Lemma client_reads_delivered (groups : list (list Frame)) (v : ClientView) :
  client_reads (delivered groups) v
  = fst (client_lines (map data_line (concat groups)) v).
Proof.
  unfold delivered. revert v.
  induction groups as [|g groups IH]; intros v; [reflexivity|].
  cbn [map reads_of client_reads concat].
  rewrite chunk_lines_wire, map_app, client_lines_app.
  destruct (client_lines (map data_line g) v) as [v' [|]];
    [reflexivity | apply IH].
Qed.

Lemma chat_frames (e : Env) (conversationId : jsstring)
    (fragments : list jsstring) (k : gen jsstring) (s : MemStorage) :
  k = GReturn \/ (exists err, k = GThrow err) ->
  frames (snd (chat e conversationId (gen_of fragments k) s))
  = map (fun f => ContentFrame f false) fragments
      ++ [match k with
          | GReturn => terminal_frame
          | _ => ErrorFrame (js "Failed to generate response")
          end].
Proof.
  intros Hk. unfold chat. rewrite relay_gen_of.
  destruct Hk as [->|[err ->]]; cbn [relay fst snd createMessage];
    rewrite app_nil_r;
    change (frames (WriteHead 200 :: ?l)) with (frames l);
    rewrite frames_app, frames_content_writes; reflexivity.
Qed.

(** X17. What the handler writes, delivered to the client in chunks of
    whole writes, however the writes are grouped. While only content
    frames have come, the streaming message holds the fragments, in
    order, and generation is on. After the frames of a reply that
    completed, the streaming message is empty, generation is off and the
    messages are fetched again. After the frames of a reply that failed,
    generation is off, nothing is fetched, and the fragments that came
    stay in the streaming message. *)
Theorem client_view_of_a_reply (e : Env) (conversationId : jsstring)
    (fragments : list jsstring) (err : jsstring) (s : MemStorage)
    (groups : list (list Frame)) :
  (concat groups = map (fun f => ContentFrame f false) fragments ->
   client_stream (Response true (Some (delivered groups)))
   = mkView (map JString (filter str_truthy fragments)) true false)
  /\ (concat groups
      = frames (snd (chat e conversationId (gen_of fragments GReturn) s)) ->
      client_stream (Response true (Some (delivered groups)))
      = mkView [] false true)
  /\ (concat groups
      = frames
          (snd (chat e conversationId (gen_of fragments (GThrow err)) s)) ->
      client_stream (Response true (Some (delivered groups)))
      = mkView (map JString (filter str_truthy fragments)) false false).
Proof.
  cbn [client_stream]. rewrite client_reads_delivered.
  split; [|split]; intros ->.
  - rewrite client_lines_contents. reflexivity.
  - rewrite chat_frames by (left; reflexivity).
    rewrite map_app, client_lines_app, client_lines_contents.
    cbn [map client_lines]. rewrite client_line_terminal. reflexivity.
  - rewrite chat_frames by (right; eexists; reflexivity).
    rewrite map_app, client_lines_app, client_lines_contents.
    cbn [map client_lines].
    rewrite client_line_error by discriminate. reflexivity.
Qed.

(** * Further properties of the client *)

(** X18. Whatever it is given, [startNewConversation] asks for a title
    that is not empty and is at most 53 code units long. *)
Theorem startNewConversation_title_bounds (firstMessage : option jsstring) :
  startNewConversation_title firstMessage <> []
  /\ (js_length (startNewConversation_title firstMessage) <= 53)%Z.
Proof.
  unfold startNewConversation_title, js_length, slice0.
  destruct firstMessage as [[|c m]|]; cbn [str_truthy];
    try (split; [discriminate | vm_compute; discriminate]).
  split; [discriminate|].
  rewrite length_app.
  pose proof (firstn_le_length 50 (c :: m)) as L1.
  assert (L2 : (List.length (firstn 50 (c :: m)) <= 50)%nat).
  { rewrite length_firstn. lia. }
  destruct (Z.of_nat (List.length (c :: m)) >? 50)%Z;
    [change (List.length (js "...")) with 3%nat | cbn [List.length]]; lia.
Qed.

Lemma trimStart_split (s : jsstring) :
  exists lead, s = lead ++ trimStart s /\ forallb is_js_space lead = true.
Proof.
  induction s as [|c s (lead & E & L)]; [exists []; auto|].
  simpl. destruct (is_js_space c) eqn:Ec.
  - exists (c :: lead). simpl. rewrite Ec, L. split; [congruence | reflexivity].
  - exists []. auto.
Qed.

Lemma trimEnd_split (s : jsstring) :
  exists trail, s = trimEnd s ++ trail /\ forallb is_js_space trail = true.
Proof.
  unfold trimEnd. destruct (trimStart_split (rev s)) as (lead & E & L).
  exists (rev lead). split.
  - rewrite <- rev_app_distr, <- E, rev_involutive. reflexivity.
  - rewrite forallb_forall in *. intros x Hx. apply L, in_rev, Hx.
Qed.

Lemma trimEnd_last (s : jsstring) :
  trimEnd s = [] \/ exists r d, trimEnd s = r ++ [d] /\ is_js_space d = false.
Proof.
  unfold trimEnd. destruct (trimStart (rev s)) as [|x u] eqn:E; [left; auto|].
  right. exists (rev u), x. split; [reflexivity|].
  exact (trimStart_head _ E).
Qed.

Lemma spaces_trim (s : jsstring) :
  forallb is_js_space s = true -> trim s = [].
Proof.
  intros H. unfold trim.
  assert (T : trimStart s = []).
  { induction s as [|c s IH]; [reflexivity|]. simpl in *.
    apply andb_true_iff in H. destruct H as [-> H]. auto. }
  rewrite T. reflexivity.
Qed.

Lemma truthy_id_None (id : option jsstring) :
  truthy_id id = None -> no_id id.
Proof.
  destruct id as [[|c i]|]; cbn [truthy_id str_truthy]; intros H;
    [right; reflexivity | discriminate | left; reflexivity].
Qed.

Lemma truthy_id_Some (id : option jsstring) (i : jsstring) :
  truthy_id id = Some i -> id = Some i /\ i <> [].
Proof.
  destruct id as [[|c r]|]; cbn [truthy_id str_truthy]; intros H;
    try discriminate.
  injection H as <-. split; [reflexivity | discriminate].
Qed.

(** What [trim] leaves of an input that is not white space only. *)
Lemma trim_shape (input : jsstring) :
  str_truthy (trim input) = true ->
  forallb is_js_space input = false
  /\ (exists lead trail,
         input = lead ++ trim input ++ trail
         /\ forallb is_js_space lead = true
         /\ forallb is_js_space trail = true)
  /\ (exists c r, trim input = c :: r /\ is_js_space c = false)
  /\ (exists r d, trim input = r ++ [d] /\ is_js_space d = false).
Proof.
  intros T. split.
  { destruct (forallb is_js_space input) eqn:F; [|reflexivity].
    rewrite (spaces_trim _ F) in T. discriminate. }
  destruct (trimStart_split input) as (lead & E1 & L1).
  destruct (trimEnd_split (trimStart input)) as (trail & E2 & L2).
  fold (trim input) in E2.
  split; [exists lead, trail; split; [congruence | auto]|].
  split.
  - destruct (trimStart input) as [|c r] eqn:Es.
    { unfold trim in T. rewrite Es in T. discriminate. }
    pose proof (trimStart_head _ Es) as Hc.
    destruct (trim input) as [|c' r'] eqn:Et; [discriminate|].
    exists c', r'. split; [reflexivity|].
    simpl in E2. inversion E2; subst. exact Hc.
  - unfold trim in *. destruct (trimEnd_last (trimStart input)) as [N|H];
      [rewrite N in T; discriminate | exact H].
Qed.

(** X19. [handleSubmit] sends nothing exactly when a reply is being
    generated, or the input is white space only, or the view has no
    conversation and the creation of one gives no id. Otherwise it sends
    one message, to the conversation of the view when there is one and to
    the new conversation when there is none; its content is the input
    without the white space at its two ends: it is not empty and neither
    starts nor ends with white space. *)
Theorem handleSubmit_sends_trimmed_prompt (input : jsstring)
    (isGenerating : bool) (conversationId newConvId : option jsstring) :
  match handleSubmit_message input isGenerating conversationId newConvId with
  | None =>
      isGenerating = true
      \/ forallb is_js_space input = true
      \/ (no_id conversationId /\ no_id newConvId)
  | Some (activeConversationId, prompt) =>
      isGenerating = false
      /\ forallb is_js_space input = false
      /\ activeConversationId <> []
      /\ (conversationId = Some activeConversationId
          \/ (no_id conversationId /\ newConvId = Some activeConversationId))
      /\ (exists lead trail,
             input = lead ++ prompt ++ trail
             /\ forallb is_js_space lead = true
             /\ forallb is_js_space trail = true)
      /\ (exists c r, prompt = c :: r /\ is_js_space c = false)
      /\ (exists r d, prompt = r ++ [d] /\ is_js_space d = false)
  end.
Proof.
  unfold handleSubmit_message.
  destruct (str_truthy (trim input)) eqn:T; cbn [negb orb].
  2:{ right; left. apply trim_nil, T. }
  destruct isGenerating; [left; reflexivity|]. cbv zeta.
  destruct (trim_shape _ T) as (S1 & S2 & S3 & S4).
  destruct (truthy_id conversationId) as [i|] eqn:Ec.
  - apply truthy_id_Some in Ec. destruct Ec as [Ec Hi].
    split; [reflexivity|]. split; [exact S1|]. split; [exact Hi|].
    split; [left; exact Ec|]. split; [exact S2|]. split; [exact S3 | exact S4].
  - apply truthy_id_None in Ec.
    destruct (truthy_id newConvId) as [i|] eqn:En.
    + apply truthy_id_Some in En. destruct En as [En Hi].
      split; [reflexivity|]. split; [exact S1|]. split; [exact Hi|].
      split; [right; split; [exact Ec | exact En]|].
      split; [exact S2|]. split; [exact S3 | exact S4].
    + apply truthy_id_None in En. right; right. split; assumption.
Qed.

(** X20. The labels of [formatTimeAgo], by the time [d] that has passed
    (below [2^53] ms either way): less than a minute, also a date in the
    future, is [Just now]; less than an hour is the whole minutes, 1 to
    59; less than a day the whole hours, 1 to 23; from one day to less
    than two is [Yesterday]; less than a week the whole days, 2 to 6; from
    a week on, the date. [formatTime] of a message gives the same label up
    to a day and the date from then on. *)
Theorem formatTimeAgo_labels (toLocaleDateString : Z -> jsstring)
    (now date : Z) :
  (Z.abs (now - date) < 2 ^ 53)%Z ->
  let d := (now - date)%Z in
  let minute := 60000%Z in
  let hour := 3600000%Z in
  let day := 86400000%Z in
  ((d < minute)%Z ->
   formatTimeAgo toLocaleDateString now date = js "Just now")
  /\ ((minute <= d < hour)%Z ->
      formatTimeAgo toLocaleDateString now date
      = decimal (d / minute) ++ js " min ago"
      /\ (1 <= d / minute <= 59)%Z)
  /\ ((hour <= d < day)%Z ->
      formatTimeAgo toLocaleDateString now date
      = decimal (d / hour) ++ js " hr ago"
      /\ (1 <= d / hour <= 23)%Z)
  /\ ((day <= d < 2 * day)%Z ->
      formatTimeAgo toLocaleDateString now date = js "Yesterday")
  /\ ((2 * day <= d < 7 * day)%Z ->
      formatTimeAgo toLocaleDateString now date
      = decimal (d / day) ++ js " days ago"
      /\ (2 <= d / day <= 6)%Z)
  /\ ((7 * day <= d)%Z ->
      formatTimeAgo toLocaleDateString now date = toLocaleDateString date)
  /\ ((d < day)%Z ->
      formatTime toLocaleDateString now date
      = formatTimeAgo toLocaleDateString now date)
  /\ ((day <= d)%Z ->
      formatTime toLocaleDateString now date = toLocaleDateString date).
Proof.
  intros _. cbv zeta. unfold formatTimeAgo, formatTime.
  change (1000 * 60 * 60 * 24)%Z with 86400000%Z.
  change (1000 * 60 * 60)%Z with 3600000%Z.
  change (1000 * 60)%Z with 60000%Z.
  set (d := (now - date)%Z).
  pose proof (Z.div_mod d 60000 ltac:(discriminate)) as M.
  pose proof (Z.mod_pos_bound d 60000 ltac:(reflexivity)) as Mb.
  pose proof (Z.div_mod d 3600000 ltac:(discriminate)) as H.
  pose proof (Z.mod_pos_bound d 3600000 ltac:(reflexivity)) as Hb.
  pose proof (Z.div_mod d 86400000 ltac:(discriminate)) as D.
  pose proof (Z.mod_pos_bound d 86400000 ltac:(reflexivity)) as Db.
  repeat split; intros;
    repeat match goal with
           | |- context [(?a <? ?b)%Z] => destruct (Z.ltb_spec a b)
           | |- context [(?a =? ?b)%Z] => destruct (Z.eqb_spec a b)
           end;
    try reflexivity; try lia.
Qed.

(** * The further properties at work on the sample data *)

Lemma sample_store_wf : store_wf sample_store.
Proof. exact (reachable_wf sample_store_reachable). Qed.

Lemma seed_settings_wf (env_at : nat -> Env) (defaults : list InsertSettings.t) :
  forall i settings,
    JsMap.wf settings -> JsMap.wf (seed_settings env_at i defaults settings).
Proof.
  induction defaults as [|d rest IH]; intros i settings W; simpl;
    [exact W | apply IH, set_wf, W].
Qed.

Lemma sample_settings_wf : JsMap.wf sample_settings.
Proof. apply seed_settings_wf. constructor. Qed.

Lemma createConversation_listed_first_witness :
  let e := env "c3" 100 in
  let ins := InsertConversation.mk (js "Third") (js "llama3") in
  getConversation (uuid e) sample_store = None
  /\ (forall c, In c (JsMap.values (conversations sample_store)) ->
                (Conversation.updatedAt c < now e)%Z)
  /\ getConversations (fst (createConversation e ins sample_store))
     = snd (createConversation e ins sample_store)
         :: getConversations sample_store.
Proof.
  intros e ins.
  assert (F : getConversation (uuid e) sample_store = None)
    by (vm_compute; reflexivity).
  assert (C : forall c, In c (JsMap.values (conversations sample_store)) ->
                        (Conversation.updatedAt c < now e)%Z).
  { intros c Hc. vm_compute in Hc.
    destruct Hc as [<-|[<-|[]]]; vm_compute; reflexivity. }
  split; [exact F|]. split; [exact C|].
  pose proof (createConversation_listed_first e ins sample_store F C) as T.
  destruct (createConversation e ins sample_store) as [s' created].
  exact (proj1 (proj2 (proj2 (proj2 T)))).
Defined.

Lemma createMessage_appends_to_history_witness :
  let e := env "m3" 100 in
  let ins := InsertMessage.mk (js "c1") user (js "And then?") in
  JsMap.get (uuid e) (messages sample_store) = None
  /\ (forall m, In m (getMessages (InsertMessage.conversationId ins)
                        sample_store) ->
                (Message.timestamp m <= now e)%Z)
  /\ getMessages (js "c1") (fst (createMessage e ins sample_store))
     = getMessages (js "c1") sample_store
         ++ [snd (createMessage e ins sample_store)].
Proof.
  intros e ins.
  assert (F : JsMap.get (uuid e) (messages sample_store) = None)
    by (vm_compute; reflexivity).
  assert (C : forall m, In m (getMessages (InsertMessage.conversationId ins)
                                sample_store) ->
                        (Message.timestamp m <= now e)%Z).
  { intros m Hm. vm_compute in Hm.
    destruct Hm as [<-|[]]; vm_compute; discriminate. }
  split; [exact F|]. split; [exact C|].
  pose proof (createMessage_appends_to_history e ins sample_store F C) as T.
  destruct (createMessage e ins sample_store) as [s' created].
  exact (proj1 T).
Defined.

Lemma deleteMessages_clears_one_history_witness :
  store_wf sample_store
  /\ getMessages (js "c1") (fst (deleteMessages (js "c1") sample_store)) = []
  /\ snd (deleteMessages (js "c1") sample_store) = true.
Proof.
  split; [exact sample_store_wf|].
  pose proof (deleteMessages_clears_one_history (js "c1") sample_store_wf)
    as T.
  destruct (deleteMessages (js "c1") sample_store) as [s' deleted].
  split; [exact (proj1 T)|].
  destruct T as (_ & _ & _ & -> & _). vm_compute. reflexivity.
Defined.

Lemma deleteModel_removes_the_name_witness :
  store_wf sample_store
  /\ models_named (js "llama3") sample_store = 1%nat
  /\ models_named (js "llama3")
       (fst (deleteModel (js "llama3") sample_store)) = 0%nat
  /\ DELETE_model (js "llama3") false sample_store = (sample_store, 500%N).
Proof.
  split; [exact sample_store_wf|]. split; [vm_compute; reflexivity|].
  pose proof (deleteModel_removes_the_name (js "llama3") sample_store_wf)
    as [T [_ R]].
  split; [|exact R].
  destruct (deleteModel (js "llama3") sample_store) as [s' deleted].
  exact (proj1 (proj2 T)).
Defined.

Lemma setSetting_upserts_witness :
  let e := env "s9" 200 in
  let ins :=
    InsertSettings.mk (js "temperature")
      (JObject [(js "temperature", JNumber (mkNumber false 2 (-1)))]) in
  JsMap.wf sample_settings
  /\ List.length (getSettings sample_settings) = 5%nat
  /\ List.length (getSettings (fst (setSetting e ins sample_settings)))
     = 5%nat
  /\ option_map Settings.value
       (getSetting (js "temperature") (fst (setSetting e ins sample_settings)))
     = Some (InsertSettings.value ins).
Proof.
  intros e ins. split; [exact sample_settings_wf|].
  split; [reflexivity|].
  pose proof (setSetting_upserts e ins sample_settings_wf) as T.
  destruct (setSetting e ins sample_settings) as [settings' stored] eqn:E.
  destruct T as (G & V & _ & M & _).
  split.
  - change (getSetting (InsertSettings.key ins) sample_settings)
      with (Some (Settings.mk (js "s1") (js "temperature")
                    (JObject [(js "temperature",
                               JNumber (mkNumber false 7 (-1)))]) 1)) in M.
    cbn [fst]. rewrite (proj2 M). reflexivity.
  - cbn [fst]. change (js "temperature") with (InsertSettings.key ins).
    rewrite G. cbn [option_map]. rewrite V. reflexivity.
Defined.

Lemma reachable_ids_unique_witness :
  reachable sample_store
  /\ NoDup (map Message.id (getMessages (js "c1") sample_store))
  /\ NoDup (map Conversation.id (getConversations sample_store)).
Proof.
  split; [exact sample_store_reachable|].
  pose proof (reachable_ids_unique sample_store_reachable) as [M C].
  split; [exact (M (js "c1")) | exact C].
Defined.

Lemma reachable_model_names_unique_witness :
  reachable sample_store
  /\ (models_named (js "llama3") sample_store <= 1)%nat.
Proof.
  split; [exact sample_store_reachable|].
  exact (proj1 (reachable_model_names_unique sample_store_reachable)
           (js "llama3")).
Defined.

Lemma GET_models_syncs_the_catalog_witness :
  store_wf sample_store
  /\ (forall p, In p sample_listed ->
                JsMap.get (uuid (fst p)) (models sample_store) = None)
  /\ NoDup (map (fun p => uuid (fst p)) sample_listed)
  /\ models_named (js "mistral")
       (fst (GET_models (fun _ _ => 0%Z) sample_listed sample_store))
     = 1%nat
  /\ models_named (js "llama3")
       (fst (GET_models (fun _ _ => 0%Z) sample_listed sample_store))
     = 1%nat.
Proof.
  assert (F : forall p, In p sample_listed ->
                JsMap.get (uuid (fst p)) (models sample_store) = None).
  { intros p [<-|[<-|[]]]; vm_compute; reflexivity. }
  assert (D : NoDup (map (fun p => uuid (fst p)) sample_listed)).
  { vm_compute. repeat constructor; simpl; intuition discriminate. }
  split; [exact sample_store_wf|]. split; [exact F|]. split; [exact D|].
  pose proof (GET_models_syncs_the_catalog (fun _ _ => 0%Z) sample_listed
                sample_store_wf F D) as T.
  destruct (GET_models (fun _ _ => 0%Z) sample_listed sample_store)
    as [s' sent].
  destruct T as (_ & P & _). cbn [fst]. split.
  - exact (proj1 (P (env "o2" 60, mkListed (js "mistral") None)
                    (or_introl eq_refl))).
  - exact (proj1 (P (env "o3" 61, mkListed (js "llama3") (Some (js "4.7GB")))
                    (or_intror (or_introl eq_refl)))).
Defined.

Lemma POST_models_pull_registers_witness :
  store_wf sample_store
  /\ snd (POST_models_pull (env "o2" 60) (Some (js "llama3")) true
            sample_store) = 200%N
  /\ models_named (js "llama3")
       (fst (POST_models_pull (env "o2" 60) (Some (js "llama3")) true
               sample_store))
     = 1%nat.
Proof.
  split; [exact sample_store_wf|].
  pose proof (POST_models_pull_registers (env "o2" 60) (Some (js "llama3"))
                true sample_store_wf) as T.
  destruct (POST_models_pull (env "o2" 60) (Some (js "llama3")) true
              sample_store) as [s' status].
  destruct T as (S & _ & R). cbn [fst snd].
  assert (E : status = 200%N).
  { apply S. exists (js "llama3"). repeat split. discriminate. }
  split; [exact E|].
  exact (proj1 (R E (js "llama3") eq_refl)).
Defined.

Lemma streamChat_stops_at_done_witness :
  no_newline sample_done_line
  /\ JSON_parse sample_done_line = Some sample_done_data
  /\ opt_truthy (get_prop sample_done_data (js "done")) = true
  /\ streamChat
       (Response true
          (Some (reads_of [sample_frame]
                   (ReadChunk
                      (sample_next_frame ++ 10%N :: sample_done_line
                         ++ 10%N :: sample_frame)
                      (ReadFail (js "terminated"))))))
     = streamChat
         (Response true
            (Some (reads_of [sample_frame]
                     (ReadChunk (sample_next_frame ++ 10%N :: sample_done_line)
                        ReadDone)))).
Proof.
  assert (Hn : no_newline sample_done_line)
    by (apply no_newlineb_sound; vm_compute; reflexivity).
  assert (Hp : JSON_parse sample_done_line = Some sample_done_data)
    by (vm_compute; reflexivity).
  assert (Hd : opt_truthy (get_prop sample_done_data (js "done")) = true)
    by (vm_compute; reflexivity).
  split; [exact Hn|]. split; [exact Hp|]. split; [exact Hd|].
  exact (streamChat_stops_at_done [sample_frame] sample_next_frame
           sample_frame (ReadFail (js "terminated")) Hn Hp Hd).
Defined.

Lemma client_view_of_a_reply_witness :
  concat sample_groups
  = frames
      (snd (chat (env "m3" 100) (js "c1") (gen_of [js "Hel"; js "lo"] GReturn)
              sample_store))
  /\ client_stream (Response true (Some (delivered sample_groups)))
     = mkView [] false true.
Proof.
  assert (H : concat sample_groups
              = frames
                  (snd (chat (env "m3" 100) (js "c1")
                          (gen_of [js "Hel"; js "lo"] GReturn) sample_store)))
    by (vm_compute; reflexivity).
  split; [exact H|].
  exact (proj1 (proj2
           (client_view_of_a_reply (env "m3" 100) (js "c1")
              [js "Hel"; js "lo"] [] sample_store sample_groups)) H).
Defined.

Lemma formatTimeAgo_labels_witness :
  (Z.abs (1700000000000 - 1699999000000) < 2 ^ 53)%Z
  /\ formatTimeAgo (fun _ => js "a date") 1700000000000 1699999000000
     = js "16 min ago"
  /\ formatTimeAgo (fun _ => js "a date") 1700000000000 1699900000000
     = js "Yesterday".
Proof.
  assert (B1 : (Z.abs (1700000000000 - 1699999000000) < 2 ^ 53)%Z)
    by (vm_compute; reflexivity).
  assert (B2 : (Z.abs (1700000000000 - 1699900000000) < 2 ^ 53)%Z)
    by (vm_compute; reflexivity).
  split; [exact B1|]. split.
  - destruct (formatTimeAgo_labels (fun _ => js "a date")
                1700000000000 1699999000000 B1)
      as (_ & M & _).
    destruct M as [-> _]; [cbv zeta; lia|].
    vm_compute. reflexivity.
  - destruct (formatTimeAgo_labels (fun _ => js "a date")
                1700000000000 1699900000000 B2)
      as (_ & _ & _ & Y & _).
    apply Y. cbv zeta. lia.
Defined.

Lemma updateConversation_touches_one_witness :
  let e := env "u1" 70 in
  let renamed :=
    ConversationUpdate.mk Missing (Present (Some (js "Renamed"))) Missing
      Missing Missing in
  let blanked :=
    ConversationUpdate.mk Missing (Present None) Missing Missing Missing in
  let p := PartialConversation.mk None (Some (js "Renamed")) None None None in
  let stored := Conversation.mk (js "c1") (js "First") (js "llama3") 10 10 in
  getConversation (js "c1") sample_store = Some stored
  /\ defined_update renamed = Some p
  /\ defined_update blanked = None
  /\ (exists c',
         as_updated c' = updateConversation_updated stored renamed (now e)
         /\ snd (updateConversation e (js "c1") p sample_store) = Some c'
         /\ Conversation.title c' = js "Renamed")
  /\ UpdatedConversation.title
       (updateConversation_updated stored blanked (now e)) = None
  /\ (forall c',
         as_updated c' <> updateConversation_updated stored blanked (now e)).
Proof.
  intros e renamed blanked p stored.
  assert (G : getConversation (js "c1") sample_store = Some stored)
    by (vm_compute; reflexivity).
  assert (D1 : defined_update renamed = Some p) by reflexivity.
  assert (D2 : defined_update blanked = None) by reflexivity.
  pose proof (updateConversation_touches_one e (js "c1") renamed sample_store)
    as T1.
  pose proof (updateConversation_touches_one e (js "c1") blanked sample_store)
    as T2.
  rewrite G in T1, T2. cbv zeta in T1, T2.
  destruct T1 as (_ & _ & _ & _ & T1). destruct T2 as (_ & U & _ & T2 & _).
  split; [exact G|]. split; [exact D1|]. split; [exact D2|]. split.
  - destruct (T1 p D1) as (c' & A & R & _). exists c'.
    split; [exact A|]. split; [exact R|].
    apply (f_equal UpdatedConversation.title) in A.
    cbn in A. injection A as ->. reflexivity.
  - split; [exact U | exact (T2 D2)].
Defined.

(** [handleSubmit] in a view without a conversation: the prompt goes to
    the new conversation when the creation gives its id, and nowhere when
    it gives none; in a view with a conversation it goes there. An empty
    id counts as none. *)
Example handleSubmit_on_sample_prompts :
  handleSubmit_message (js "  Hello  ") false None (Some (js "c3"))
  = Some (js "c3", js "Hello")
  /\ handleSubmit_message (js "  Hello  ") false None None = None
  /\ handleSubmit_message (js "  Hello  ") false (Some (js "c1")) None
     = Some (js "c1", js "Hello")
  /\ handleSubmit_message (js "  Hello  ") false (Some []) (Some (js "c3"))
     = Some (js "c3", js "Hello")
  /\ handleSubmit_message (js "  Hello  ") true (Some (js "c1")) None = None
  /\ handleSubmit_title (js "  Hello  ") false (Some []) = Some (js "Hello")
  /\ handleSubmit_title (js "  Hello  ") false (Some (js "c1")) = None.
Proof. repeat split; vm_compute; reflexivity. Qed.
